(** * NeerSarovar particle core: a shallow embedding and its properties

    The development follows the JavaScript sources of the particle
    simulation core: [Particle3D], [ParticlePool], [ParticleSystem],
    [SpatialGrid], [QualityGovernor] and [ParticleOptimizer].

    Conventions of the embedding.
    - A JavaScript number is an exact rational ([Q]): the arithmetic is
      that of the binary64 numbers without their rounding.  Counters and
      sizes that the code only ever uses as integers are [Z].
    - A method that mutates [this] becomes a function from the object
      before the call to the object after the call, paired with the
      completion of the call (normal with a value, or abrupt with the
      error that is thrown).  Mutations made before a [throw] stay
      visible in the returned object, as they do on the JavaScript
      heap.
    - [Math.random()] is an oracle: the [n]-th call of the run returns
      [random M n]; every function that draws takes the number of draws
      made so far and returns the new count. *)

From Stdlib Require Import String Ascii QArith Qround ZArith Bool List Lia Lqa Permutation.
Import ListNotations.
Open Scope string_scope.
Open Scope list_scope.
Open Scope Q_scope.

(** ** JavaScript completions *)

Inductive js_error : Type :=
| TypeError
| ReferenceError
| RangeError.

Inductive completion (A : Type) : Type :=
| Normal (a : A)
| Abrupt (e : js_error).

Arguments Normal {A} a.
Arguments Abrupt {A} e.

Definition is_abrupt {A : Type} (c : completion A) : bool :=
  match c with
  | Normal _ => false
  | Abrupt _ => true
  end.

(** The parts of the [Math] object the core uses. *)
Record MathObject : Type := {
  random : nat -> Q;
  PI : Q;
  cos : Q -> Q;
  sin : Q -> Q
}.

(** [Math.random()] returns a number in [0, 1). *)
Definition unit_interval (M : MathObject) : Prop :=
  forall n : nat, 0 <= random M n /\ random M n < 1.

(** Comparisons of numbers as booleans. *)
Definition Qltb (a b : Q) : bool := negb (Qle_bool b a).
Definition Qgtb (a b : Q) : bool := Qltb b a.
Definition Qgeb (a b : Q) : bool := Qle_bool b a.

(** ** Arrays used as stacks: [push] appends, [pop] removes the last element *)

Definition push {A : Type} (arr : list A) (a : A) : list A := arr ++ [a].

Fixpoint pop {A : Type} (arr : list A) : option A * list A :=
  match arr with
  | [] => (None, [])
  | [a] => (Some a, [])
  | a :: rest => let (r, rest') := pop rest in (r, a :: rest')
  end.

(** ** Lake configuration ([models/lakes.js]) *)

Module Lakes.

Record Range : Type := { min : Q; max : Q }.

Record TypeConfig : Type := {
  particleCount : Z;
  particleSize : Range;
  particleLifespan : Range;
  glowIntensity : Q;
  color : string;
  pulseFrequency : Q;
  flowPattern : string
}.

Definition Freshwater_Lake : TypeConfig :=
  {| particleCount := 1000;
     particleSize := {| min := 0.5; max := 2.0 |};
     particleLifespan := {| min := 3000; max := 4500 |};
     glowIntensity := 1.0;
     color := "#4a90e2";
     pulseFrequency := 1.0;
     flowPattern := "gentle-ripple" |}.

Definition High_Altitude_Lake : TypeConfig :=
  {| particleCount := 1200;
     particleSize := {| min := 0.7; max := 2.2 |};
     particleLifespan := {| min := 3800; max := 4800 |};
     glowIntensity := 1.2;
     color := "#48f2ff";
     pulseFrequency := 0.8;
     flowPattern := "mountain-current" |}.

Definition Urban_Lake : TypeConfig :=
  {| particleCount := 900;
     particleSize := {| min := 0.6; max := 1.9 |};
     particleLifespan := {| min := 3200; max := 4200 |};
     glowIntensity := 0.8;
     color := "#2aacff";
     pulseFrequency := 1.1;
     flowPattern := "urban-flow" |}.

Definition Sacred_Lake : TypeConfig :=
  {| particleCount := 1500;
     particleSize := {| min := 0.8; max := 2.5 |};
     particleLifespan := {| min := 4000; max := 5000 |};
     glowIntensity := 1.5;
     color := "#ffcd6b";
     pulseFrequency := 0.5;
     flowPattern := "sacred-spiral" |}.

Definition Salt_Lake : TypeConfig :=
  {| particleCount := 800;
     particleSize := {| min := 0.6; max := 1.8 |};
     particleLifespan := {| min := 3500; max := 4000 |};
     glowIntensity := 0.9;
     color := "#b835ff";
     pulseFrequency := 1.2;
     flowPattern := "crystalline" |}.

Definition Brackish_Lake : TypeConfig :=
  {| particleCount := 900;
     particleSize := {| min := 0.6; max := 1.9 |};
     particleLifespan := {| min := 3200; max := 4200 |};
     glowIntensity := 0.8;
     color := "#2aacff";
     pulseFrequency := 1.1;
     flowPattern := "brackish-mix" |}.

(** [LAKE_CONFIG[key]]: [None] is [undefined]. *)
Definition LAKE_CONFIG (key : string) : option TypeConfig :=
  if String.eqb key "Freshwater Lake" then Some Freshwater_Lake
  else if String.eqb key "High Altitude Lake" then Some High_Altitude_Lake
  else if String.eqb key "Urban Lake" then Some Urban_Lake
  else if String.eqb key "Sacred Lake" then Some Sacred_Lake
  else if String.eqb key "Salt Lake" then Some Salt_Lake
  else if String.eqb key "Brackish Lake" then Some Brackish_Lake
  else None.

(** [String.prototype.toLowerCase] on the ASCII letters. *)
Definition lower_ascii (c : ascii) : ascii :=
  let n := nat_of_ascii c in
  if (65 <=? n)%nat && (n <=? 90)%nat then ascii_of_nat (n + 32) else c.

Fixpoint toLowerCase (s : string) : string :=
  match s with
  | EmptyString => EmptyString
  | String c rest => String (lower_ascii c) (toLowerCase rest)
  end.

(** [s.includes(sub)] *)
Fixpoint includes (s sub : string) : bool :=
  String.prefix sub s ||
  match s with
  | EmptyString => false
  | String _ rest => includes rest sub
  end.

Definition getLakeConfigType (lakeType : string) : string :=
  let type := toLowerCase lakeType in
  if includes type "freshwater" || includes type "tectonic" || includes type "lentic"
  then "Freshwater Lake"
  else if includes type "high altitude" || includes type "glacial" || includes type "alpine"
  then "High Altitude Lake"
  else if includes type "urban" || includes type "artificial" || includes type "reservoir"
  then "Urban Lake"
  else if includes type "sacred" || includes type "temple" || includes type "holy"
  then "Sacred Lake"
  else if includes type "salt" || includes type "saline"
  then "Salt Lake"
  else if includes type "brackish" || includes type "lagoon" || includes type "coastal"
  then "Brackish Lake"
  else "Freshwater Lake".

(** [LAKE_CONFIG[configType] || LAKE_CONFIG['Freshwater Lake']] *)
Definition config_or_default (configType : string) : TypeConfig :=
  match LAKE_CONFIG configType with
  | Some c => c
  | None => Freshwater_Lake
  end.

End Lakes.

(** ** The particle entity ([components/Particle3D.js]) *)

Module Particle3D.

Record Vector : Type := { vx : Q; vy : Q; vz : Q }.

Definition zero : Vector := {| vx := 0; vy := 0; vz := 0 |}.

(** A vector-valued property holds either a [THREE.Vector3] (which has
    [multiplyScalar]) or an object literal [{ x, y, z }] (which has not). *)
Inductive vector_object : Type :=
| ThreeVector3 (v : Vector)
| ObjectLiteral (v : Vector).

Definition components (o : vector_object) : Vector :=
  match o with
  | ThreeVector3 v => v
  | ObjectLiteral v => v
  end.

Definition map_components (f : Vector -> Vector) (o : vector_object) : vector_object :=
  match o with
  | ThreeVector3 v => ThreeVector3 (f v)
  | ObjectLiteral v => ObjectLiteral (f v)
  end.

(** What [this.isExpired] evaluates to.  The class declares a method
    [isExpired()]; [reset], [init] and [update] assign a boolean to the
    property of the same name, and an own property shadows the method of
    the prototype. *)
Inductive isExpired_slot : Type :=
| PrototypeMethod
| OwnBoolean (b : bool).

(** [if (this.isExpired)]: a function object is truthy. *)
Definition truthy (s : isExpired_slot) : bool :=
  match s with
  | PrototypeMethod => true
  | OwnBoolean b => b
  end.

(** The map instance, as far as a particle uses it. *)
Record MapLibre : Type := { project : Q * Q -> Q * Q }.

Record Swirl : Type := {
  duration : Q;
  time : Q;
  strength : Q;
  direction : Q
}.

(** The properties a particle object can carry.  [None] stands for a
    property that is absent, [undefined] or [null]. *)
Record Particle : Type := {
  map : option MapLibre;
  position : option Vector;
  velocity : vector_object;
  acceleration : option Vector;
  lifespan : Q;
  age : Q;
  color : option string;
  opacity : Q;
  size : Q;
  flowPattern : option string;
  phaseOffset : option Q;
  orbitalRadius : option Q;
  orbitalSpeed : option Q;
  orbitalAngle : option Q;
  isExpired : isExpired_slot;
  x : option Q;
  y : option Q;
  z : option Q;
  lngLat : option (Q * Q);
  lakeType : option string;
  lakeCenter : option (Q * Q);
  mass : option Q;
  id : option Z;
  isFrozen : option bool;
  frozenTime : option Q;
  frozenDuration : option Q;
  originalVelocity : option (Q * Q);
  swirling : option Swirl;
  glowIntensity : option Q;
  sparkle : option bool;
  crystalline : option bool;
  screenX : option Q;
  screenY : option Q
}.

(** Single-property assignments. *)
Definition set_age (a : Q) (p : Particle) : Particle :=
  {| map := map p; position := position p; velocity := velocity p;
     acceleration := acceleration p; lifespan := lifespan p; age := a;
     color := color p; opacity := opacity p; size := size p;
     flowPattern := flowPattern p; phaseOffset := phaseOffset p;
     orbitalRadius := orbitalRadius p; orbitalSpeed := orbitalSpeed p;
     orbitalAngle := orbitalAngle p; isExpired := isExpired p;
     x := x p; y := y p; z := z p; lngLat := lngLat p;
     lakeType := lakeType p; lakeCenter := lakeCenter p; mass := mass p;
     id := id p; isFrozen := isFrozen p; frozenTime := frozenTime p;
     frozenDuration := frozenDuration p;
     originalVelocity := originalVelocity p; swirling := swirling p;
     glowIntensity := glowIntensity p; sparkle := sparkle p;
     crystalline := crystalline p; screenX := screenX p;
     screenY := screenY p |}.

Definition set_isExpired (s : isExpired_slot) (p : Particle) : Particle :=
  {| map := map p; position := position p; velocity := velocity p;
     acceleration := acceleration p; lifespan := lifespan p; age := age p;
     color := color p; opacity := opacity p; size := size p;
     flowPattern := flowPattern p; phaseOffset := phaseOffset p;
     orbitalRadius := orbitalRadius p; orbitalSpeed := orbitalSpeed p;
     orbitalAngle := orbitalAngle p; isExpired := s;
     x := x p; y := y p; z := z p; lngLat := lngLat p;
     lakeType := lakeType p; lakeCenter := lakeCenter p; mass := mass p;
     id := id p; isFrozen := isFrozen p; frozenTime := frozenTime p;
     frozenDuration := frozenDuration p;
     originalVelocity := originalVelocity p; swirling := swirling p;
     glowIntensity := glowIntensity p; sparkle := sparkle p;
     crystalline := crystalline p; screenX := screenX p;
     screenY := screenY p |}.

Definition set_position (v : option Vector) (p : Particle) : Particle :=
  {| map := map p; position := v; velocity := velocity p;
     acceleration := acceleration p; lifespan := lifespan p; age := age p;
     color := color p; opacity := opacity p; size := size p;
     flowPattern := flowPattern p; phaseOffset := phaseOffset p;
     orbitalRadius := orbitalRadius p; orbitalSpeed := orbitalSpeed p;
     orbitalAngle := orbitalAngle p; isExpired := isExpired p;
     x := x p; y := y p; z := z p; lngLat := lngLat p;
     lakeType := lakeType p; lakeCenter := lakeCenter p; mass := mass p;
     id := id p; isFrozen := isFrozen p; frozenTime := frozenTime p;
     frozenDuration := frozenDuration p;
     originalVelocity := originalVelocity p; swirling := swirling p;
     glowIntensity := glowIntensity p; sparkle := sparkle p;
     crystalline := crystalline p; screenX := screenX p;
     screenY := screenY p |}.

Definition set_velocity (v : vector_object) (p : Particle) : Particle :=
  {| map := map p; position := position p; velocity := v;
     acceleration := acceleration p; lifespan := lifespan p; age := age p;
     color := color p; opacity := opacity p; size := size p;
     flowPattern := flowPattern p; phaseOffset := phaseOffset p;
     orbitalRadius := orbitalRadius p; orbitalSpeed := orbitalSpeed p;
     orbitalAngle := orbitalAngle p; isExpired := isExpired p;
     x := x p; y := y p; z := z p; lngLat := lngLat p;
     lakeType := lakeType p; lakeCenter := lakeCenter p; mass := mass p;
     id := id p; isFrozen := isFrozen p; frozenTime := frozenTime p;
     frozenDuration := frozenDuration p;
     originalVelocity := originalVelocity p; swirling := swirling p;
     glowIntensity := glowIntensity p; sparkle := sparkle p;
     crystalline := crystalline p; screenX := screenX p;
     screenY := screenY p |}.

(** The three properties [ParticleSystem.customizeParticle] assigns. *)
Definition set_customization (g : option Q) (s c : option bool) (p : Particle)
  : Particle :=
  {| map := map p; position := position p; velocity := velocity p;
     acceleration := acceleration p; lifespan := lifespan p; age := age p;
     color := color p; opacity := opacity p; size := size p;
     flowPattern := flowPattern p; phaseOffset := phaseOffset p;
     orbitalRadius := orbitalRadius p; orbitalSpeed := orbitalSpeed p;
     orbitalAngle := orbitalAngle p; isExpired := isExpired p;
     x := x p; y := y p; z := z p; lngLat := lngLat p;
     lakeType := lakeType p; lakeCenter := lakeCenter p; mass := mass p;
     id := id p; isFrozen := isFrozen p; frozenTime := frozenTime p;
     frozenDuration := frozenDuration p;
     originalVelocity := originalVelocity p; swirling := swirling p;
     glowIntensity := g; sparkle := s;
     crystalline := c; screenX := screenX p;
     screenY := screenY p |}.

(** [value || fallback] on strings: the empty string is falsy. *)
Definition or_string (value fallback : string) : string :=
  if String.eqb value "" then fallback else value.

Section WithEnvironment.

Variable M : MathObject.

(** [constructor(map, lakeCenter, lakeType)]: [lakeCenter[0]] throws when
    no centre is passed, and [getLakeConfigType] calls
    [lakeType.toLowerCase()].  A new object carries the method
    [isExpired] of the prototype and none of the screen-space
    properties. *)
Definition constructor (map0 : option MapLibre) (lakeCenter0 : option (Q * Q))
    (lakeType0 : option string) (n : nat) : completion Particle * nat :=
  match lakeCenter0 with
  | None => (Abrupt TypeError, n)
  | Some (c0, c1) =>
    match lakeType0 with
    | None => (Abrupt TypeError, n)
    | Some t =>
      let configType := Lakes.getLakeConfigType t in
      let config := Lakes.config_or_default configType in
      let sacred := String.eqb configType "Sacred Lake" in
      let lifespanRange := Lakes.particleLifespan config in
      let sizeRange := Lakes.particleSize config in
      (Normal
         {| map := map0;
            position := Some {| vx := c0; vy := c1; vz := 0 |};
            velocity :=
              ThreeVector3 {| vx := (random M n - 0.5) * 0.1;
                              vy := (random M (n + 1) - 0.5) * 0.1;
                              vz := 0 |};
            acceleration := None;
            lifespan := Lakes.min lifespanRange
                        + random M (n + 2)
                          * (Lakes.max lifespanRange - Lakes.min lifespanRange);
            age := 0;
            color := Some (Lakes.color config);
            opacity := random M (n + 3) * 0.5 + 0.3;
            size := Lakes.min sizeRange
                    + random M (n + 4)
                      * (Lakes.max sizeRange - Lakes.min sizeRange);
            flowPattern :=
              Some (or_string (Lakes.flowPattern config) "gentle-ripple");
            phaseOffset := Some (random M (n + 5) * PI M * 2);
            orbitalRadius :=
              if sacred then Some (random M (n + 6) * 0.05 + 0.02) else None;
            orbitalSpeed :=
              if sacred then Some (random M (n + 7) * 0.01 + 0.005) else None;
            orbitalAngle :=
              if sacred then Some (random M (n + 8) * PI M * 2) else None;
            isExpired := PrototypeMethod;
            x := None; y := None; z := None; lngLat := None;
            lakeType := None; lakeCenter := None; mass := None;
            id := None; isFrozen := None; frozenTime := None;
            frozenDuration := None; originalVelocity := None;
            swirling := None; glowIntensity := None; sparkle := None;
            crystalline := None; screenX := None; screenY := None |},
       if sacred then (n + 9)%nat else (n + 6)%nat)
    end
  end.

(** The method [isExpired()], called as [p.isExpired()].  When an own
    boolean shadows the method the call throws: a boolean is not
    callable. *)
Definition call_isExpired (p : Particle) : completion bool :=
  match isExpired p with
  | PrototypeMethod => Normal (Qgeb (age p) (lifespan p))
  | OwnBoolean _ => Abrupt TypeError
  end.

(** How the free identifier [StateManager] resolves inside
    [Particle3D.js], which does not import it: not at all, or to a
    global object whose [flowController] is truthy or not. *)
Inductive StateManager_binding : Type :=
| Undeclared
| Declared (flowController : bool).

Variable StateManager : StateManager_binding.

(** The legacy fallback of [update]:
    [this.position.x += this.velocity.x * deltaTime] and the same for y. *)
Definition integrate_position (deltaTime : Q) (p : Particle) : completion Particle :=
  match position p with
  | None => Abrupt TypeError
  | Some pos =>
    let v := components (velocity p) in
    Normal (set_position
              (Some {| vx := vx pos + vx v * deltaTime;
                       vy := vy pos + vy v * deltaTime;
                       vz := vz pos |}) p)
  end.

Definition is_some {A : Type} (o : option A) : bool :=
  match o with
  | Some _ => true
  | None => false
  end.

(** Truthiness of a string-valued property: absent and empty are falsy. *)
Definition truthy_string (o : option string) : bool :=
  match o with
  | Some s => negb (String.eqb s "")
  | None => false
  end.

(** [update(deltaTime, now, boundaries)].  [now] is only handed on to the
    flow controller, whose [applyFlowToParticle] returns a flow vector
    and leaves the particle as it is; [boundaries] is not read.  The
    last statement calls [this._calculateOpacity], which the class does
    not define. *)
Definition update (deltaTime : Q) (p : Particle) : Particle * completion bool :=
  if truthy (isExpired p) then (p, Normal false)
  else
    let p1 := set_age (age p + deltaTime) p in
    if Qgtb (age p1) (lifespan p1)
    then (set_isExpired (OwnBoolean true) p1, Normal false)
    else
      match StateManager with
      | Undeclared => (p1, Abrupt ReferenceError)
      | Declared flowController =>
        let moved :=
          if flowController && is_some (lakeCenter p1) && truthy_string (lakeType p1)
          then Normal p1
          else integrate_position deltaTime p1 in
        match moved with
        | Abrupt e => (p1, Abrupt e)
        | Normal p2 =>
          let gravity (v : Vector) :=
            {| vx := vx v; vy := vy v; vz := vz v - 0.01 * deltaTime |} in
          let p3 := set_velocity (map_components gravity (velocity p2)) p2 in
          match velocity p3 with
          | ObjectLiteral _ => (p3, Abrupt TypeError)
          | ThreeVector3 v =>
            let damped :=
              {| vx := vx v * 0.98; vy := vy v * 0.98; vz := vz v * 0.98 |} in
            (set_velocity (ThreeVector3 damped) p3, Abrupt TypeError)
          end
        end
      end.

(** [reset()].  The class body defines [reset] twice; the later
    definition is the one the prototype keeps. *)
Definition reset (p : Particle) : Particle :=
  {| map := None; position := position p;
     velocity := ObjectLiteral zero;
     acceleration := Some zero; lifespan := 0; age := 0;
     color := None; opacity := 1; size := 1;
     flowPattern := flowPattern p; phaseOffset := phaseOffset p;
     orbitalRadius := orbitalRadius p; orbitalSpeed := orbitalSpeed p;
     orbitalAngle := orbitalAngle p; isExpired := OwnBoolean false;
     x := Some 0; y := Some 0; z := Some 0; lngLat := None;
     lakeType := None; lakeCenter := lakeCenter p; mass := mass p;
     id := id p; isFrozen := isFrozen p; frozenTime := frozenTime p;
     frozenDuration := frozenDuration p;
     originalVelocity := originalVelocity p; swirling := swirling p;
     glowIntensity := glowIntensity p; sparkle := sparkle p;
     crystalline := crystalline p; screenX := screenX p;
     screenY := screenY p |}.

(** [getTypeConfig(lakeType)] returns the same literal for every type. *)
Record SimplifiedConfig : Type := {
  particleSize : Lakes.Range;
  particleLifespan : Lakes.Range;
  configGlowIntensity : Q
}.

Definition getTypeConfig (lakeType0 : option string) : SimplifiedConfig :=
  {| particleSize := {| Lakes.min := 0.5; Lakes.max := 2.0 |};
     particleLifespan := {| Lakes.min := 3000; Lakes.max := 4500 |};
     configGlowIntensity := 1.0 |}.

(** [init(map, lakeCenter, lakeType)], again the later of the two
    definitions.  Draws, in order: the two position offsets, the mass,
    the lifespan, the size, the opacity, the speed, the angle and the
    vertical velocity.  The two offsets are drawn before [lakeCenter[0]]
    or [map.project] can throw. *)
Definition init (map0 : option MapLibre) (lakeCenter0 : option (Q * Q))
    (lakeType0 : option string) (n : nat) (p : Particle)
  : Particle * completion unit * nat :=
  let randomOffsetX := (random M n - 0.5) * 0.01 in
  let randomOffsetY := (random M (n + 1) - 0.5) * 0.01 in
  match lakeCenter0 with
  | None => (p, Abrupt TypeError, (n + 2)%nat)
  | Some (c0, c1) =>
    let lngLat0 := (c0 + randomOffsetX, c1 + randomOffsetY) in
    match map0 with
    | None => (p, Abrupt TypeError, (n + 2)%nat)
    | Some m =>
      let point := project m lngLat0 in
      let typeConfig := getTypeConfig lakeType0 in
      let lifespanRange := particleLifespan typeConfig in
      let sizeRange := particleSize typeConfig in
      let speed := 0.2 + random M (n + 6) * 0.3 in
      let angle := random M (n + 7) * PI M * 2 in
      ({| map := Some m; position := position p;
          velocity :=
            ObjectLiteral {| vx := cos M angle * speed;
                             vy := sin M angle * speed;
                             vz := (random M (n + 8) - 0.5) * 0.1 |};
          acceleration := Some zero;
          lifespan := Lakes.min lifespanRange
                      + random M (n + 3)
                        * (Lakes.max lifespanRange - Lakes.min lifespanRange);
          age := 0;
          color := color p;
          opacity := random M (n + 5) * 0.5 + 0.3;
          size := Lakes.min sizeRange
                  + random M (n + 4)
                    * (Lakes.max sizeRange - Lakes.min sizeRange);
          flowPattern := flowPattern p; phaseOffset := phaseOffset p;
          orbitalRadius := orbitalRadius p; orbitalSpeed := orbitalSpeed p;
          orbitalAngle := orbitalAngle p; isExpired := OwnBoolean false;
          x := Some (fst point); y := Some (snd point); z := Some 0;
          lngLat := Some lngLat0;
          lakeType := lakeType0; lakeCenter := lakeCenter p;
          mass := Some (random M (n + 2) * 0.5 + 0.5);
          id := id p; isFrozen := isFrozen p; frozenTime := frozenTime p;
          frozenDuration := frozenDuration p;
          originalVelocity := originalVelocity p; swirling := swirling p;
          glowIntensity := glowIntensity p; sparkle := sparkle p;
          crystalline := crystalline p; screenX := screenX p;
          screenY := screenY p |},
       Normal tt, (n + 9)%nat)
    end
  end.

(** [p.reset()] followed by [p.init(map, lakeCenter, lakeType)], which
    is how a released particle comes back into use. *)
Definition recycle (map0 : option MapLibre) (lakeCenter0 : option (Q * Q))
    (lakeType0 : option string) (n : nat) (p : Particle)
  : Particle * completion unit * nat :=
  init map0 lakeCenter0 lakeType0 n (reset p).

(** Repeated calls [p.update(dt)], one per element of [dts]; the caller
    goes on whatever the completion of a call was. *)
Fixpoint updates (dts : list Q) (p : Particle) : Particle :=
  match dts with
  | [] => p
  | dt :: rest => updates rest (fst (update dt p))
  end.

(** The time that the calls [update(dt)], [dt] in [dts], add up to. *)
Definition elapsed (dts : list Q) : Q := fold_right Qplus 0 dts.

End WithEnvironment.

(** The behaviour flags that the flow controller's boundary conditions
    ([isFrozen], [frozenTime], [frozenDuration], [originalVelocity],
    [swirling]) and [ParticleSystem.customizeParticle] ([glowIntensity],
    [sparkle], [crystalline]) put on a particle. *)
Definition behaviour_flags (p : Particle) :=
  (isFrozen p, frozenTime p, frozenDuration p, originalVelocity p,
   swirling p, glowIntensity p, sparkle p, crystalline p).

(** The public state of a particle: size, opacity, lifespan and the
    behaviour flags. *)
Definition public_state (p : Particle) :=
  (size p, opacity p, lifespan p, behaviour_flags p).

(** The properties that [reset] or [init] assign. *)
Definition seeded_state (p : Particle) :=
  (size p, opacity p, lifespan p, age p, isExpired p, velocity p,
   acceleration p, mass p, (x p, y p, z p), lngLat p, lakeType p, map p,
   color p).

End Particle3D.

(** ** The particle pool ([utils/ParticlePool.js]) *)

Module ParticlePool.

Record Pool : Type := {
  pool : list Particle3D.Particle;
  maxSize : Z;
  activeCount : Z;
  totalCreated : Z;
  totalReused : Z
}.

Section WithMath.

Variable M : MathObject.

(** The loop of the constructor: [count] times
    [this.pool.push(new Particle3D())]. *)
Fixpoint preallocate (count : nat) (arr : list Particle3D.Particle) (n : nat)
  : completion (list Particle3D.Particle) * nat :=
  match count with
  | O => (Normal arr, n)
  | S k =>
    match Particle3D.constructor M None None None n with
    | (Abrupt e, n') => (Abrupt e, n')
    | (Normal p, n') => preallocate k (push arr p) n'
    end
  end.

(** [new ParticlePool(size)]; the loop runs for
    [i = 0 .. Math.min(size, 500) - 1]. *)
Definition constructor (size0 : Z) (n : nat) : completion Pool * nat :=
  match preallocate (Z.to_nat (Z.min size0 500)) [] n with
  | (Abrupt e, n') => (Abrupt e, n')
  | (Normal arr, n') =>
    (Normal {| pool := arr; maxSize := size0; activeCount := 0;
               totalCreated := 0; totalReused := 0 |}, n')
  end.

(** [acquire(map, lakeCenter, lakeType)].  The counter is incremented
    first; an empty free list leads to [new Particle3D()]; the
    statistics look at the length of the free list after the pop; every
    [Particle3D] has an [init] method. *)
Definition acquire (map0 : option Particle3D.MapLibre)
    (lakeCenter0 : option (Q * Q)) (lakeType0 : option string)
    (n : nat) (pl : Pool)
  : Pool * completion Particle3D.Particle * nat :=
  let count1 := (activeCount pl + 1)%Z in
  let (popped, rest) := pop (pool pl) in
  let obtained :=
    match popped with
    | Some p => (Normal p, n)
    | None => Particle3D.constructor M None None None n
    end in
  match obtained with
  | (Abrupt e, n1) =>
    ({| pool := rest; maxSize := maxSize pl; activeCount := count1;
        totalCreated := totalCreated pl; totalReused := totalReused pl |},
     Abrupt e, n1)
  | (Normal p, n1) =>
    let empty := (length rest =? 0)%nat in
    let pl2 :=
      {| pool := rest; maxSize := maxSize pl; activeCount := count1;
         totalCreated :=
           if empty then (totalCreated pl + 1)%Z else totalCreated pl;
         totalReused :=
           if empty then totalReused pl else (totalReused pl + 1)%Z |} in
    match Particle3D.init M map0 lakeCenter0 lakeType0 n1 p with
    | (_, Abrupt e, n2) => (pl2, Abrupt e, n2)
    | (p', Normal _, n2) => (pl2, Normal p', n2)
    end
  end.

(** [release(particle)]: every [Particle3D] has a [reset] method. *)
Definition release (particle : Particle3D.Particle) (pl : Pool) : Pool :=
  let reset_particle := Particle3D.reset particle in
  {| pool :=
       if (Z.of_nat (length (pool pl)) <? maxSize pl)%Z
       then push (pool pl) reset_particle
       else pool pl;
     maxSize := maxSize pl;
     activeCount := (activeCount pl - 1)%Z;
     totalCreated := totalCreated pl;
     totalReused := totalReused pl |}.

(** [resize(newSize)]; assigning a negative number to the [length] of an
    array throws. *)
Definition resize (newSize : Z) (pl : Pool) : Pool * completion unit :=
  let pl1 :=
    {| pool := pool pl; maxSize := newSize; activeCount := activeCount pl;
       totalCreated := totalCreated pl; totalReused := totalReused pl |} in
  if (newSize <? Z.of_nat (length (pool pl)))%Z
  then
    if (newSize <? 0)%Z then (pl1, Abrupt RangeError)
    else
      ({| pool := firstn (Z.to_nat newSize) (pool pl); maxSize := newSize;
          activeCount := activeCount pl; totalCreated := totalCreated pl;
          totalReused := totalReused pl |}, Normal tt)
  else (pl1, Normal tt).

Definition getPoolSize (pl : Pool) : Z := Z.of_nat (length (pool pl)).
Definition getMaxSize (pl : Pool) : Z := maxSize pl.
Definition getActiveCount (pl : Pool) : Z := activeCount pl.

(** A call made on the pool by one of its users. *)
Inductive call : Type :=
| Acquire (map0 : option Particle3D.MapLibre) (lakeCenter0 : option (Q * Q))
          (lakeType0 : option string)
| Release (particle : Particle3D.Particle).

Definition step (c : call) (st : Pool * nat) : Pool * nat :=
  let (pl, n) := st in
  match c with
  | Acquire map0 lakeCenter0 lakeType0 =>
    match acquire map0 lakeCenter0 lakeType0 n pl with
    | (pl', _, n') => (pl', n')
    end
  | Release particle => (release particle pl, n)
  end.

(** A sequence of calls, each made whatever the completion of the
    previous one was. *)
Fixpoint run (calls : list call) (st : Pool * nat) : Pool * nat :=
  match calls with
  | [] => st
  | c :: rest => run rest (step c st)
  end.

Definition is_acquire (c : call) : bool :=
  match c with
  | Acquire _ _ _ => true
  | Release _ => false
  end.

Definition acquires (calls : list call) : Z :=
  Z.of_nat (length (filter is_acquire calls)).

Definition releases (calls : list call) : Z :=
  Z.of_nat (length (filter (fun c => negb (is_acquire c)) calls)).

End WithMath.

End ParticlePool.

(** ** The particle system of one lake ([components/LakeVisualizationSystem.js]) *)

Module ParticleSystem.

Record LakeData : Type := {
  type : string;
  center : Q * Q
}.

(** The fields of a system that its update step reads or writes.  The
    renderer, the copies [lakeCenter] and [lakeType] of the lake data,
    the [boundaries] and the timing statistics taken from
    [performance.now()] are left out. *)
Record System : Type := {
  map : option Particle3D.MapLibre;
  lakeId : string;
  lakeData : LakeData;
  active : bool;
  particles : list Particle3D.Particle;
  particleLimit : Z;
  flowPattern : string;
  frameCount : Z
}.

(** What the system reaches through [StateManager]: the shared pool
    ([null] until it is created) and the number of [Math.random()] draws
    made so far. *)
Record World : Type := {
  particlePool : option ParticlePool.Pool;
  draws : nat
}.

Definition set_particles (ps : list Particle3D.Particle) (s : System) : System :=
  {| map := map s; lakeId := lakeId s; lakeData := lakeData s;
     active := active s; particles := ps; particleLimit := particleLimit s;
     flowPattern := flowPattern s; frameCount := frameCount s |}.

Definition set_active (b : bool) (s : System) : System :=
  {| map := map s; lakeId := lakeId s; lakeData := lakeData s;
     active := b; particles := particles s; particleLimit := particleLimit s;
     flowPattern := flowPattern s; frameCount := frameCount s |}.

Definition set_frameCount (k : Z) (s : System) : System :=
  {| map := map s; lakeId := lakeId s; lakeData := lakeData s;
     active := active s; particles := particles s;
     particleLimit := particleLimit s;
     flowPattern := flowPattern s; frameCount := k |}.

(** [new ParticleSystem(map, lakeId, lakeData, renderer)];
    [config.particleCount || 1000]. *)
Definition constructor (map0 : option Particle3D.MapLibre) (lakeId0 : string)
    (lakeData0 : LakeData) : System :=
  let config := Lakes.config_or_default (Lakes.getLakeConfigType (type lakeData0)) in
  {| map := map0; lakeId := lakeId0; lakeData := lakeData0;
     active := false; particles := [];
     particleLimit :=
       if (Lakes.particleCount config =? 0)%Z then 1000%Z
       else Lakes.particleCount config;
     flowPattern :=
       Particle3D.or_string (Lakes.flowPattern config) "gentle-ripple";
     frameCount := 0 |}.

(** [customizeParticle(particle)] *)
Definition customizeParticle (s : System) (p : Particle3D.Particle)
  : Particle3D.Particle :=
  let configType := Lakes.getLakeConfigType (type (lakeData s)) in
  if String.eqb configType "Sacred Lake"
  then Particle3D.set_customization (Some 1.5) (Particle3D.sparkle p)
         (Particle3D.crystalline p) p
  else if String.eqb configType "High Altitude Lake"
  then Particle3D.set_customization (Particle3D.glowIntensity p) (Some true)
         (Particle3D.crystalline p) p
  else if String.eqb configType "Salt Lake"
  then Particle3D.set_customization (Particle3D.glowIntensity p)
         (Particle3D.sparkle p) (Some true) p
  else p.

Section WithEnvironment.

Variable M : MathObject.
Variable StateManager : Particle3D.StateManager_binding.

(** The body of the loop of [generateParticles]: a particle from the
    pool when there is one, a newly constructed particle otherwise. *)
Definition obtainParticle (w : World) (s : System)
  : World * completion Particle3D.Particle :=
  match particlePool w with
  | Some pl =>
    match ParticlePool.acquire M (map s) (Some (center (lakeData s)))
            (Some (type (lakeData s))) (draws w) pl with
    | (pl', c, n') => ({| particlePool := Some pl'; draws := n' |}, c)
    end
  | None =>
    match Particle3D.constructor M (map s) (Some (center (lakeData s)))
            (Some (type (lakeData s))) (draws w) with
    | (c, n') => ({| particlePool := None; draws := n' |}, c)
    end
  end.

(** [generateParticles(count)], [count] iterations of the loop. *)
Fixpoint generate (count : nat) (w : World) (s : System)
  : System * World * completion unit :=
  match count with
  | O => (s, w, Normal tt)
  | S k =>
    match obtainParticle w s with
    | (w1, Abrupt e) => (s, w1, Abrupt e)
    | (w1, Normal p) =>
      generate k w1 (set_particles (push (particles s) (customizeParticle s p)) s)
    end
  end.

Definition generateParticles (count : Z) (w : World) (s : System)
  : System * World * completion unit :=
  generate (Z.to_nat count) w s.

(** [activate()] *)
Definition activate (w : World) (s : System) : System * World * completion unit :=
  if active s then (s, w, Normal tt)
  else
    let s1 := set_active true s in
    if (length (particles s1) =? 0)%nat
    then generateParticles (particleLimit s1) w s1
    else (s1, w, Normal tt).

(** The callback of [this.particles.filter], run over the array:
    [p.update(delta); return !p.isExpired();].  The first component is
    the array as the calls leave its objects, the second the value of
    [filter] when no call throws. *)
Fixpoint filter_alive (delta : Q) (ps : list Particle3D.Particle)
  : list Particle3D.Particle * completion (list Particle3D.Particle) :=
  match ps with
  | [] => ([], Normal [])
  | p :: rest =>
    match Particle3D.update StateManager delta p with
    | (p1, Abrupt e) => (p1 :: rest, Abrupt e)
    | (p1, Normal _) =>
      match Particle3D.call_isExpired p1 with
      | Abrupt e => (p1 :: rest, Abrupt e)
      | Normal expired =>
        let (rest1, c) := filter_alive delta rest in
        (p1 :: rest1,
         match c with
         | Abrupt e => Abrupt e
         | Normal kept => Normal (if expired then kept else p1 :: kept)
         end)
      end
    end
  end.

(** [update(delta)] *)
Definition update (delta : Q) (w : World) (s : System)
  : System * World * completion unit :=
  if negb (active s) then (s, w, Normal tt)
  else
    match filter_alive delta (particles s) with
    | (touched, Abrupt e) => (set_particles touched s, w, Abrupt e)
    | (_, Normal kept) =>
      let s1 := set_particles kept s in
      let len := Z.of_nat (length kept) in
      let replenished :=
        if (len <? particleLimit s1)%Z
        then generateParticles (Z.min 10 (particleLimit s1 - len)) w s1
        else (s1, w, Normal tt) in
      match replenished with
      | (s2, w2, Abrupt e) => (s2, w2, Abrupt e)
      | (s2, w2, Normal _) =>
        (set_frameCount (frameCount s2 + 1) s2, w2, Normal tt)
      end
    end.

(** [dispose()]: every particle goes back to the pool, when there is one. *)
Definition dispose (w : World) (s : System) : System * World :=
  (set_particles [] s,
   match particlePool w with
   | Some pl =>
     {| particlePool :=
          Some (fold_left (fun acc p => ParticlePool.release p acc) (particles s) pl);
        draws := draws w |}
   | None => w
   end).

End WithEnvironment.

End ParticleSystem.

(** ** The spatial grid ([SpatialGrid]) *)

Module SpatialGrid.

(** A cell key.  The source builds the string [cellX + "," + cellY] from
    two integers; the pair of integers stands for that string. *)
Definition Key : Type := (Z * Z)%type.

Definition key_eqb (a b : Key) : bool :=
  (fst a =? fst b)%Z && (snd a =? snd b)%Z.

Record Bounds : Type := {
  left : Q;
  right : Q;
  top : Q;
  bottom : Q
}.

Record Metrics : Type := {
  particles : Z;
  activeCells : Z;
  culledParticles : Z
}.

(** [grid] is the [Map] from keys to arrays, in the order in which the
    keys were first set (the order [Map.prototype.forEach] follows);
    [visibleCells] is the [Set] of keys, without repetition. *)
Record Grid : Type := {
  cellSize : Q;
  grid : list (Key * list Particle3D.Particle);
  visibleCells : list Key;
  frameCount : Z;
  metrics : Metrics
}.

(** [new SpatialGrid(cellSize)] *)
Definition constructor (cellSize0 : Q) : Grid :=
  {| cellSize := cellSize0; grid := []; visibleCells := []; frameCount := 0;
     metrics := {| particles := 0; activeCells := 0; culledParticles := 0 |} |}.

(** [key(x, y)].  The quotient is taken exactly.  With a cell size of
    zero the source divides by zero and builds its key from [Infinity]
    or [NaN]; the statements on keys and queries are for a positive
    cell size. *)
Definition key (g : Grid) (x y : Q) : Key :=
  (Qfloor (x / cellSize g), Qfloor (y / cellSize g)).

(** [value || 0] *)
Definition or_zero (o : option Q) : Q :=
  match o with
  | Some q => q
  | None => 0
  end.

Definition cell_of (g : Grid) (p : Particle3D.Particle) : Key :=
  key g (or_zero (Particle3D.screenX p)) (or_zero (Particle3D.screenY p)).

(** [this.grid.get(cellKey).push(particle)], after [this.grid.set(cellKey, [])]
    for a key that is not in the map yet. *)
Fixpoint add_to_cell (k : Key) (p : Particle3D.Particle)
    (cells : list (Key * list Particle3D.Particle))
  : list (Key * list Particle3D.Particle) :=
  match cells with
  | [] => [(k, [p])]
  | (k', ps) :: rest =>
    if key_eqb k' k then (k', push ps p) :: rest
    else (k', ps) :: add_to_cell k p rest
  end.

(** [insert(particle)]; [None] is a call with [null] or [undefined]. *)
Definition insert (particle : option Particle3D.Particle) (g : Grid) : Grid :=
  match particle with
  | None => g
  | Some p =>
    match Particle3D.position p with
    | None => g
    | Some _ =>
      {| cellSize := cellSize g;
         grid := add_to_cell (cell_of g p) p (grid g);
         visibleCells := visibleCells g;
         frameCount := frameCount g;
         metrics :=
           {| particles := (particles (metrics g) + 1)%Z;
              activeCells := activeCells (metrics g);
              culledParticles := culledParticles (metrics g) |} |}
    end
  end.

(** [clear()]; every sixtieth frame [updateMetrics()] sets the frame
    counter back to zero. *)
Definition clear (g : Grid) : Grid :=
  let count := (frameCount g + 1)%Z in
  {| cellSize := cellSize g; grid := []; visibleCells := visibleCells g;
     frameCount := if (Z.rem count 60 =? 0)%Z then 0%Z else count;
     metrics := {| particles := 0; activeCells := 0; culledParticles := 0 |} |}.

(** The integers [lo, lo + 1, ..., hi] of a loop
    [for (i = lo; i <= hi; i++)]. *)
Definition interval (lo hi : Z) : list Z :=
  List.map (fun i => (lo + Z.of_nat i)%Z) (seq 0 (Z.to_nat (hi - lo + 1))).

(** [Set.prototype.add] *)
Definition set_add (k : Key) (s : list Key) : list Key :=
  if existsb (key_eqb k) s then s else s ++ [k].

(** [updateVisibleCells(bounds)]; [None] is a falsy argument.  The
    loops run over the integers from [floor(left / cellSize)] to
    [ceil(right / cellSize)]; with a cell size of zero these bounds are
    not finite in the source and its loop need not end, a case this
    definition does not describe. *)
Definition updateVisibleCells (bounds : option Bounds) (g : Grid) : Grid :=
  match bounds with
  | None =>
    {| cellSize := cellSize g; grid := grid g; visibleCells := [];
       frameCount := frameCount g; metrics := metrics g |}
  | Some b =>
    let minCellX := Qfloor (left b / cellSize g) in
    let maxCellX := Qceiling (right b / cellSize g) in
    let minCellY := Qfloor (top b / cellSize g) in
    let maxCellY := Qceiling (bottom b / cellSize g) in
    let visible :=
      fold_left
        (fun acc x =>
           fold_left
             (fun acc' y =>
                set_add (key g (inject_Z x * cellSize g) (inject_Z y * cellSize g))
                        acc')
             (interval minCellY maxCellY) acc)
        (interval minCellX maxCellX) [] in
    {| cellSize := cellSize g; grid := grid g; visibleCells := visible;
       frameCount := frameCount g;
       metrics :=
         {| particles := particles (metrics g);
            activeCells := Z.of_nat (length visible);
            culledParticles := culledParticles (metrics g) |} |}
  end.

Definition has (s : list Key) (k : Key) : bool := existsb (key_eqb k) s.

(** The body of [this.grid.forEach] in [query]: the particles of the
    visible cells, and the number of particles in the other cells. *)
Fixpoint collect (visible : list Key)
    (cells : list (Key * list Particle3D.Particle))
  : list Particle3D.Particle * Z :=
  match cells with
  | [] => ([], 0%Z)
  | (k, ps) :: rest =>
    let (result, culled) := collect visible rest in
    if has visible k then (ps ++ result, culled)
    else (result, (Z.of_nat (length ps) + culled)%Z)
  end.

(** [query(bounds)]: the grid after the call and the array returned. *)
Definition query (bounds : option Bounds) (g : Grid)
  : Grid * list Particle3D.Particle :=
  match bounds with
  | None => (g, [])
  | Some b =>
    let g1 := updateVisibleCells (Some b) g in
    let (result, culled) := collect (visibleCells g1) (grid g1) in
    ({| cellSize := cellSize g1; grid := grid g1;
        visibleCells := visibleCells g1; frameCount := frameCount g1;
        metrics :=
          {| particles := particles (metrics g1);
             activeCells := activeCells (metrics g1);
             culledParticles := (culledParticles (metrics g1) + culled)%Z |} |},
     result)
  end.

(** Inserting the particles of an array one after the other. *)
Definition insert_all (ps : list Particle3D.Particle) (g : Grid) : Grid :=
  fold_left (fun acc p => insert (Some p) acc) ps g.

(** The cell with indices [k] covers [k * cellSize <= x < (k + 1) * cellSize]
    on each axis; the viewport covers [left <= x <= right] and
    [top <= y <= bottom]. *)
Definition cell_intersects (cs : Q) (b : Bounds) (k : Key) : Prop :=
  inject_Z (fst k) * cs <= right b /\ left b < (inject_Z (fst k) + 1) * cs /\
  inject_Z (snd k) * cs <= bottom b /\ top b < (inject_Z (snd k) + 1) * cs.

(** The range of cell indices that [updateVisibleCells] scans. *)
Definition in_scanned_range (cs : Q) (b : Bounds) (k : Key) : bool :=
  (Qfloor (left b / cs) <=? fst k)%Z && (fst k <=? Qceiling (right b / cs))%Z &&
  (Qfloor (top b / cs) <=? snd k)%Z && (snd k <=? Qceiling (bottom b / cs))%Z.

(** The particles of the cells whose key satisfies [f], in the order of
    the map. *)
Fixpoint gather (f : Key -> bool) (cells : list (Key * list Particle3D.Particle))
  : list Particle3D.Particle :=
  match cells with
  | [] => []
  | (k, ps) :: rest => if f k then ps ++ gather f rest else gather f rest
  end.

(** Whether [insert] puts the particle into the grid. *)
Definition insertable (p : Particle3D.Particle) : bool :=
  match Particle3D.position p with
  | Some _ => true
  | None => false
  end.

End SpatialGrid.

(** ** The quality governor ([utils/QualityGovernor.js]) *)

Module QualityGovernor.

Record Settings : Type := {
  particleMultiplier : Q;
  maxParticles : Q;
  renderScale : Q;
  effectComplexity : Q;
  animationComplexity : Q;
  glowEffects : bool;
  postProcessing : bool;
  physicsIterations : Q;
  renderDistance : Q
}.

Definition minimal : Settings :=
  {| particleMultiplier := 0.2; maxParticles := 500; renderScale := 0.5;
     effectComplexity := 0.0; animationComplexity := 0.0;
     glowEffects := false; postProcessing := false;
     physicsIterations := 1; renderDistance := 0.4 |}.

Definition low : Settings :=
  {| particleMultiplier := 0.4; maxParticles := 1000; renderScale := 0.6;
     effectComplexity := 0.3; animationComplexity := 0.3;
     glowEffects := true; postProcessing := false;
     physicsIterations := 2; renderDistance := 0.6 |}.

Definition medium : Settings :=
  {| particleMultiplier := 0.7; maxParticles := 2000; renderScale := 0.8;
     effectComplexity := 0.6; animationComplexity := 0.6;
     glowEffects := true; postProcessing := true;
     physicsIterations := 3; renderDistance := 0.8 |}.

Definition high : Settings :=
  {| particleMultiplier := 1.0; maxParticles := 4000; renderScale := 1.0;
     effectComplexity := 0.8; animationComplexity := 0.8;
     glowEffects := true; postProcessing := true;
     physicsIterations := 4; renderDistance := 1.0 |}.

Definition ultra : Settings :=
  {| particleMultiplier := 1.5; maxParticles := 8000; renderScale := 1.2;
     effectComplexity := 1.0; animationComplexity := 1.0;
     glowEffects := true; postProcessing := true;
     physicsIterations := 5; renderDistance := 1.2 |}.

(** [QUALITY_PRESETS[level]], on the keys of the object literal. *)
Definition QUALITY_PRESETS (level : string) : option Settings :=
  if String.eqb level "minimal" then Some minimal
  else if String.eqb level "low" then Some low
  else if String.eqb level "medium" then Some medium
  else if String.eqb level "high" then Some high
  else if String.eqb level "ultra" then Some ultra
  else None.

Definition qualityLevels : list string :=
  ["ultra"; "high"; "medium"; "low"; "minimal"].

Inductive update_type : Type :=
| complete
| intermediate.

(** The object handed to every subscriber. *)
Record Notification : Type := {
  level : string;
  type : update_type;
  settings : option Settings
}.

(** The governor, together with what its methods write outside of it:
    [PERFORMANCE_THRESHOLDS.maxActiveParticles], and the notifications
    delivered to the subscribers so far, oldest first. *)
Record Governor : Type := {
  currentLevel : string;
  targetLevel : option string;
  transitionProgress : Q;
  transitionSpeed : Q;
  maxActiveParticles : Z;
  delivered : list Notification
}.

(** The fields as the constructor sets them, before it calls
    [setQualityLevel(deviceTier)]. *)
Definition initial (maxActive : Z) : Governor :=
  {| currentLevel := "high"; targetLevel := None;
     transitionProgress := 1.0; transitionSpeed := 0.05;
     maxActiveParticles := maxActive; delivered := [] |}.

(** [setQualityLevel(level)] *)
Definition setQualityLevel (lvl : string) (g : Governor) : Governor * bool :=
  match QUALITY_PRESETS lvl with
  | None => (g, false)
  | Some _ =>
    if String.eqb lvl (currentLevel g) then (g, true)
    else
      ({| currentLevel := currentLevel g; targetLevel := Some lvl;
          transitionProgress := 0.0; transitionSpeed := transitionSpeed g;
          maxActiveParticles := maxActiveParticles g;
          delivered := delivered g |}, true)
  end.

(** [notifySubscribers(type, settings)], with
    [settings || QUALITY_PRESETS[this.currentLevel]]. *)
Definition notifySubscribers (t : update_type) (s : option Settings)
    (g : Governor) : Governor :=
  let currentSettings :=
    match s with
    | Some v => Some v
    | None => QUALITY_PRESETS (currentLevel g)
    end in
  {| currentLevel := currentLevel g; targetLevel := targetLevel g;
     transitionProgress := transitionProgress g;
     transitionSpeed := transitionSpeed g;
     maxActiveParticles := maxActiveParticles g;
     delivered :=
       delivered g ++ [{| level := currentLevel g; type := t;
                          settings := currentSettings |}] |}.

(** The loop over the keys in [updateIntermediateSettings]: numbers are
    interpolated, the two booleans switch when the progress passes one
    half. *)
Definition interpolate (c t : Settings) (progress : Q) : Settings :=
  let num (f : Settings -> Q) := f c + (f t - f c) * progress in
  let other (f : Settings -> bool) := if Qgtb progress 0.5 then f t else f c in
  {| particleMultiplier := num particleMultiplier;
     maxParticles := num maxParticles;
     renderScale := num renderScale;
     effectComplexity := num effectComplexity;
     animationComplexity := num animationComplexity;
     glowEffects := other glowEffects;
     postProcessing := other postProcessing;
     physicsIterations := num physicsIterations;
     renderDistance := num renderDistance |}.

(** [applySettings(settings)]: the threshold and the notification; the
    particle systems and the canvases it also writes to, before it
    notifies, are not part of the governor, and these writes are taken
    to complete.  Numbers are exact: where the products and sums of the
    source round, its [Math.floor] can give one less than here. *)
Definition applySettings (s : Settings) (g : Governor) : Governor :=
  notifySubscribers intermediate (Some s)
    {| currentLevel := currentLevel g; targetLevel := targetLevel g;
       transitionProgress := transitionProgress g;
       transitionSpeed := transitionSpeed g;
       maxActiveParticles := Qfloor (maxParticles s);
       delivered := delivered g |}.

(** [updateIntermediateSettings()].  Both levels have presets whenever
    the method runs: [currentLevel] starts as ["high"] and only ever
    becomes a target that [setQualityLevel] has looked up. *)
Definition updateIntermediateSettings (g : Governor) : Governor :=
  match targetLevel g with
  | None => g
  | Some t =>
    match QUALITY_PRESETS (currentLevel g), QUALITY_PRESETS t with
    | Some cs, Some ts => applySettings (interpolate cs ts (transitionProgress g)) g
    | _, _ => g
    end
  end.

(** One run of the body of [transitionLoop()], which reschedules itself
    for every animation frame. *)
Definition transitionLoop (g : Governor) : Governor :=
  match targetLevel g with
  | Some t =>
    if negb (String.eqb t "") && Qltb (transitionProgress g) 1.0
    then
      let progress := transitionProgress g + transitionSpeed g in
      if Qgeb progress 1.0
      then
        notifySubscribers complete None
          {| currentLevel := t; targetLevel := None;
             transitionProgress := 1.0;
             transitionSpeed := transitionSpeed g;
             maxActiveParticles := maxActiveParticles g;
             delivered := delivered g |}
      else
        updateIntermediateSettings
          {| currentLevel := currentLevel g; targetLevel := Some t;
             transitionProgress := progress;
             transitionSpeed := transitionSpeed g;
             maxActiveParticles := maxActiveParticles g;
             delivered := delivered g |}
    else g
  | None => g
  end.

(** [k] animation frames. *)
Fixpoint frames (k : nat) (g : Governor) : Governor :=
  match k with
  | O => g
  | S k' => frames k' (transitionLoop g)
  end.

End QualityGovernor.

(** ** The particle optimizer ([utils/ParticleOptimizer.js]) *)

Module ParticleOptimizer.

(** [PERFORMANCE_THRESHOLDS] of [config/constants.js] *)
Record Thresholds : Type := {
  targetFPS : Q;
  lowFPS : Q;
  batchSize : Z;
  maxActiveParticles : Z;
  cullingDistance : Q;
  dynamicLOD : bool
}.

Definition PERFORMANCE_THRESHOLDS : Thresholds :=
  {| targetFPS := 60; lowFPS := 30; batchSize := 100;
     maxActiveParticles := 2000; cullingDistance := 5000;
     dynamicLOD := true |}.

(** The two switches of the optimizer and the shared thresholds object. *)
Record Optimizer : Type := {
  frustumCulling : bool;
  optimizerDynamicLOD : bool;
  thresholds : Thresholds
}.

Definition constructor (t : Thresholds) : Optimizer :=
  {| frustumCulling := true; optimizerDynamicLOD := dynamicLOD t;
     thresholds := t |}.

Definition set_cullingDistance (d : Q) (t : Thresholds) : Thresholds :=
  {| targetFPS := targetFPS t; lowFPS := lowFPS t; batchSize := batchSize t;
     maxActiveParticles := maxActiveParticles t; cullingDistance := d;
     dynamicLOD := dynamicLOD t |}.

(** [Math.min] on two numbers *)
Definition Qmin (a b : Q) : Q := if Qle_bool a b then a else b.

(** [adaptToPerformance(fps)] *)
Definition adaptToPerformance (fps : Q) (o : Optimizer) : Optimizer :=
  let t := thresholds o in
  if Qltb fps (lowFPS t)
  then
    {| frustumCulling := true; optimizerDynamicLOD := true;
       thresholds := set_cullingDistance (cullingDistance t * 0.8) t |}
  else if Qgtb fps (targetFPS t * 0.9)
  then
    if Qltb (cullingDistance t) 5000
    then
      {| frustumCulling := frustumCulling o;
         optimizerDynamicLOD := optimizerDynamicLOD o;
         thresholds :=
           set_cullingDistance (Qmin 5000 (cullingDistance t * 1.1)) t |}
    else o
  else o.

(** A sequence of calls, one per sampled frame rate. *)
Definition adapt_all (samples : list Q) (o : Optimizer) : Optimizer :=
  fold_left (fun acc fps => adaptToPerformance fps acc) samples o.

End ParticleOptimizer.

(** ** The per-frame driver ([updateParticleSystems] of the entry script) *)

Module FrameDriver.

(** What the driver works on: the particle systems in the order of the
    [StateManager.particleSystems] map, the pool and the draws, the
    spatial grid, and whether the driver has asked for the next
    animation frame. *)
Record Frame : Type := {
  systems : list ParticleSystem.System;
  world : ParticleSystem.World;
  spatialGrid : SpatialGrid.Grid;
  nextFrameRequested : bool
}.

Section WithEnvironment.

Variable M : MathObject.
Variable StateManager : Particle3D.StateManager_binding.

(** The callback of [StateManager.particleSystems.forEach], run over the
    systems: [system.update(delta)], then the particles of an active
    system go into the grid.  The first component is the systems as the
    calls leave them. *)
Fixpoint update_systems (delta : Q) (ss : list ParticleSystem.System)
    (w : ParticleSystem.World) (g : SpatialGrid.Grid)
  : list ParticleSystem.System * ParticleSystem.World * SpatialGrid.Grid
    * completion unit :=
  match ss with
  | [] => ([], w, g, Normal tt)
  | s :: rest =>
    match ParticleSystem.update M StateManager delta w s with
    | (s1, w1, Abrupt e) => (s1 :: rest, w1, g, Abrupt e)
    | (s1, w1, Normal _) =>
      let g1 :=
        if ParticleSystem.active s1
        then SpatialGrid.insert_all (ParticleSystem.particles s1) g
        else g in
      match update_systems delta rest w1 g1 with
      | (rest1, w2, g2, c) => (s1 :: rest1, w2, g2, c)
      end
    end
  end.

(** [system.particles.slice(0, Math.floor(system.particles.length * 0.8))] *)
Definition thin_out (s : ParticleSystem.System) : ParticleSystem.System :=
  let len := Z.of_nat (length (ParticleSystem.particles s)) in
  ParticleSystem.set_particles
    (firstn (Z.to_nat (Qfloor (inject_Z len * 0.8))) (ParticleSystem.particles s)) s.

(** One call of [updateParticleSystems()].  [delta] is what
    [perfMonitor.update()] returns and [lowPerformance] what
    [perfMonitor.isLowPerformance()] returns; no sacred-lake enhancer is
    attached.  The request for the next animation frame is the last
    statement. *)
Definition updateParticleSystems (delta : Q) (lowPerformance : bool) (f : Frame)
  : Frame * completion unit :=
  let g0 := SpatialGrid.clear (spatialGrid f) in
  match update_systems delta (systems f) (world f) g0 with
  | (ss, w, g, Abrupt e) =>
    ({| systems := ss; world := w; spatialGrid := g;
        nextFrameRequested := false |}, Abrupt e)
  | (ss, w, g, Normal _) =>
    ({| systems := if lowPerformance then List.map thin_out ss else ss;
        world := w; spatialGrid := g;
        nextFrameRequested := true |}, Normal tt)
  end.

End WithEnvironment.

End FrameDriver.

(** ** Concrete runs used in the statements below *)

Module Scenarios.

(** An oracle whose draws are all [r].  The trigonometric functions are
    the first terms of their series; no property below depends on
    them. *)
Definition constant_draws (r : Q) : MathObject :=
  {| random := fun _ => r;
     PI := 3.14159;
     cos := fun a => 1 - a * a / 2;
     sin := fun a => a |}.

Definition Math0 : MathObject := constant_draws 0.

(** A map whose projection scales degrees to pixels. *)
Definition flat_map : Particle3D.MapLibre :=
  {| Particle3D.project := fun lngLat => (fst lngLat * 100, snd lngLat * 100) |}.

Definition pushkar : ParticleSystem.LakeData :=
  {| ParticleSystem.type := "Sacred Lake";
     ParticleSystem.center := (74.5550, 26.4850) |}.

Definition sambhar : ParticleSystem.LakeData :=
  {| ParticleSystem.type := "Salt Lake";
     ParticleSystem.center := (75.0, 26.9) |}.

Definition wular : ParticleSystem.LakeData :=
  {| ParticleSystem.type := "Freshwater Lake";
     ParticleSystem.center := (74.55, 34.35) |}.

(** An object without any of the properties. *)
Definition blank : Particle3D.Particle :=
  {| Particle3D.map := None; Particle3D.position := None;
     Particle3D.velocity := Particle3D.ObjectLiteral Particle3D.zero;
     Particle3D.acceleration := None; Particle3D.lifespan := 0;
     Particle3D.age := 0; Particle3D.color := None; Particle3D.opacity := 1;
     Particle3D.size := 1; Particle3D.flowPattern := None;
     Particle3D.phaseOffset := None; Particle3D.orbitalRadius := None;
     Particle3D.orbitalSpeed := None; Particle3D.orbitalAngle := None;
     Particle3D.isExpired := Particle3D.PrototypeMethod;
     Particle3D.x := None; Particle3D.y := None; Particle3D.z := None;
     Particle3D.lngLat := None; Particle3D.lakeType := None;
     Particle3D.lakeCenter := None; Particle3D.mass := None;
     Particle3D.id := None; Particle3D.isFrozen := None;
     Particle3D.frozenTime := None; Particle3D.frozenDuration := None;
     Particle3D.originalVelocity := None; Particle3D.swirling := None;
     Particle3D.glowIntensity := None; Particle3D.sparkle := None;
     Particle3D.crystalline := None; Particle3D.screenX := None;
     Particle3D.screenY := None |}.

(** [new Particle3D(map, center, type)] for a lake, with draws all zero;
    the constructor completes for a lake that has a centre and a type,
    so [blank] is never the result. *)
Definition constructed (lake : ParticleSystem.LakeData) : Particle3D.Particle :=
  match Particle3D.constructor Math0 (Some flat_map)
          (Some (ParticleSystem.center lake)) (Some (ParticleSystem.type lake)) 0 with
  | (Normal p, _) => p
  | (Abrupt _, _) => blank
  end.

(** A particle made by the constructor for the sacred lake. *)
Definition sacred_particle : Particle3D.Particle := constructed pushkar.

(** A pool built with size 0, resized to 2000, to which
    [sacred_particle] has been released. *)
Definition pool_with_one : ParticlePool.Pool :=
  match ParticlePool.constructor Math0 0 0 with
  | (Normal pl, _) =>
    ParticlePool.release sacred_particle (fst (ParticlePool.resize 2000 pl))
  | (Abrupt _, _) =>
    {| ParticlePool.pool := []; ParticlePool.maxSize := 0;
       ParticlePool.activeCount := 0; ParticlePool.totalCreated := 0;
       ParticlePool.totalReused := 0 |}
  end.

(** The particle [pool.acquire(map, center, 'Sacred Lake')] returns from
    that pool. *)
Definition pooled_particle : Particle3D.Particle :=
  match ParticlePool.acquire Math0 (Some flat_map)
          (Some (ParticleSystem.center pushkar))
          (Some (ParticleSystem.type pushkar)) 0 pool_with_one with
  | (_, Normal p, _) => p
  | (_, Abrupt _, _) => blank
  end.

Definition world_with_pool : ParticleSystem.World :=
  {| ParticleSystem.particlePool := Some pool_with_one; ParticleSystem.draws := 0 |}.

Definition world_without_pool : ParticleSystem.World :=
  {| ParticleSystem.particlePool := None; ParticleSystem.draws := 0 |}.

(** An active system of the sacred lake after [generateParticles(1)] in
    the world whose pool holds one particle, and that world after the
    call. *)
Definition sacred_generation
  : ParticleSystem.System * ParticleSystem.World * completion unit :=
  ParticleSystem.generateParticles Math0 1 world_with_pool
    (ParticleSystem.set_active true
       (ParticleSystem.constructor (Some flat_map) "pushkar" pushkar)).

Definition sacred_system : ParticleSystem.System := fst (fst sacred_generation).

Definition sacred_world : ParticleSystem.World := snd (fst sacred_generation).

(** The frame in which the sacred system is the only system. *)
Definition sacred_frame : FrameDriver.Frame :=
  {| FrameDriver.systems := [sacred_system];
     FrameDriver.world := sacred_world;
     FrameDriver.spatialGrid := SpatialGrid.constructor 100;
     FrameDriver.nextFrameRequested := true |}.

(** An active system whose limit is 1 and which holds two particles made
    by the constructor. *)
Definition crowded_system : ParticleSystem.System :=
  {| ParticleSystem.map := Some flat_map;
     ParticleSystem.lakeId := "wular";
     ParticleSystem.lakeData := wular;
     ParticleSystem.active := true;
     ParticleSystem.particles := [constructed wular; constructed wular];
     ParticleSystem.particleLimit := 1;
     ParticleSystem.flowPattern := "gentle-ripple";
     ParticleSystem.frameCount := 0 |}.

(** An active system of a freshwater lake (limit 1000) that holds two
    particles made by the constructor. *)
Definition calm_system : ParticleSystem.System :=
  ParticleSystem.set_active true
    (ParticleSystem.set_particles
       [constructed wular; constructed wular]
       (ParticleSystem.constructor (Some flat_map) "wular" wular)).

(** A particle released by a salt-lake system after [customizeParticle],
    and one that never belonged to such a system. *)
Definition salt_particle : Particle3D.Particle :=
  ParticleSystem.customizeParticle
    (ParticleSystem.constructor (Some flat_map) "sambhar" sambhar)
    (constructed sambhar).

Definition fresh_particle : Particle3D.Particle := constructed wular.

(** A particle that carries the properties which the freezing branch of
    [FlowController.applyFreezeBoundary] assigns: [isFrozen = true],
    [frozenTime = 0], [frozenDuration = 2000 + (id % 6) * 500],
    [originalVelocity] and a velocity of zero. *)
Definition frozen_particle : Particle3D.Particle :=
  {| Particle3D.map := Particle3D.map fresh_particle;
     Particle3D.position := Particle3D.position fresh_particle;
     Particle3D.velocity := Particle3D.ObjectLiteral Particle3D.zero;
     Particle3D.acceleration := Particle3D.acceleration fresh_particle;
     Particle3D.lifespan := Particle3D.lifespan fresh_particle;
     Particle3D.age := 120; Particle3D.color := Particle3D.color fresh_particle;
     Particle3D.opacity := Particle3D.opacity fresh_particle;
     Particle3D.size := Particle3D.size fresh_particle;
     Particle3D.flowPattern := Particle3D.flowPattern fresh_particle;
     Particle3D.phaseOffset := Particle3D.phaseOffset fresh_particle;
     Particle3D.orbitalRadius := None; Particle3D.orbitalSpeed := None;
     Particle3D.orbitalAngle := None;
     Particle3D.isExpired := Particle3D.OwnBoolean false;
     Particle3D.x := Some 10; Particle3D.y := Some 10; Particle3D.z := Some 0;
     Particle3D.lngLat := None; Particle3D.lakeType := Some "High Altitude";
     Particle3D.lakeCenter := None; Particle3D.mass := Some 0.5;
     Particle3D.id := Some 7%Z; Particle3D.isFrozen := Some true;
     Particle3D.frozenTime := Some 0; Particle3D.frozenDuration := Some 2500;
     Particle3D.originalVelocity := Some (0.1, 0.2);
     Particle3D.swirling := None;
     Particle3D.glowIntensity := None; Particle3D.sparkle := None;
     Particle3D.crystalline := None; Particle3D.screenX := None;
     Particle3D.screenY := None |}.

(** A particle with screen coordinates, for the grid. *)
Definition on_screen (sx sy : Q) : Particle3D.Particle :=
  {| Particle3D.map := Particle3D.map fresh_particle;
     Particle3D.position := Particle3D.position fresh_particle;
     Particle3D.velocity := Particle3D.velocity fresh_particle;
     Particle3D.acceleration := Particle3D.acceleration fresh_particle;
     Particle3D.lifespan := Particle3D.lifespan fresh_particle;
     Particle3D.age := Particle3D.age fresh_particle;
     Particle3D.color := Particle3D.color fresh_particle;
     Particle3D.opacity := Particle3D.opacity fresh_particle;
     Particle3D.size := Particle3D.size fresh_particle;
     Particle3D.flowPattern := Particle3D.flowPattern fresh_particle;
     Particle3D.phaseOffset := Particle3D.phaseOffset fresh_particle;
     Particle3D.orbitalRadius := None; Particle3D.orbitalSpeed := None;
     Particle3D.orbitalAngle := None;
     Particle3D.isExpired := Particle3D.PrototypeMethod;
     Particle3D.x := None; Particle3D.y := None; Particle3D.z := None;
     Particle3D.lngLat := None; Particle3D.lakeType := None;
     Particle3D.lakeCenter := None; Particle3D.mass := None;
     Particle3D.id := None; Particle3D.isFrozen := None;
     Particle3D.frozenTime := None; Particle3D.frozenDuration := None;
     Particle3D.originalVelocity := None; Particle3D.swirling := None;
     Particle3D.glowIntensity := None; Particle3D.sparkle := None;
     Particle3D.crystalline := None; Particle3D.screenX := Some sx;
     Particle3D.screenY := Some sy |}.

Definition viewport : SpatialGrid.Bounds :=
  {| SpatialGrid.left := 0; SpatialGrid.right := 150;
     SpatialGrid.top := 0; SpatialGrid.bottom := 150 |}.

End Scenarios.

(** ** Functions of [Math] on numbers *)

Module JsMath.

(** [Math.abs] *)
Definition abs (q : Q) : Q := if Qltb q 0 then - q else q.

(** [Math.round]: to the nearest integer, halves upwards. *)
Definition round (q : Q) : Z := Qfloor (q + (1 # 2)).

End JsMath.

(** ** Level of detail ([Particle3D.setLODLevel] and the rest of
    [utils/ParticleOptimizer.js]) *)

Module LevelOfDetail.

(** A number that may be [NaN]. *)
Inductive js_number : Type :=
| Num (q : Q)
| NaN.

(** The display properties that the level-of-detail methods put on a
    particle object, kept beside the record of its other properties. *)
Record Display : Type := {
  lodLevel : option Q;
  displaySize : option Q;
  displayOpacity : option Q;
  displayGlowStrength : option js_number;
  physicsComplexity : option Q;
  physicsUpdateInterval : option Z;
  visible : option bool
}.

Definition no_display : Display :=
  {| lodLevel := None; displaySize := None; displayOpacity := None;
     displayGlowStrength := None; physicsComplexity := None;
     physicsUpdateInterval := None; visible := None |}.

Record Rendered : Type := {
  particle : Particle3D.Particle;
  display : Display
}.

(** [setPhysicsComplexity(complexity)] *)
Definition setPhysicsComplexity (complexity : Q) (d : Display) : Display :=
  {| lodLevel := lodLevel d; displaySize := displaySize d;
     displayOpacity := displayOpacity d;
     displayGlowStrength := displayGlowStrength d;
     physicsComplexity := Some complexity;
     physicsUpdateInterval :=
       Some (if Qltb complexity 0.3 then 4%Z
             else if Qltb complexity 0.7 then 2%Z else 1%Z);
     visible := visible d |}.

(** [updateLODAppearance()].  The class has a [setPhysicsComplexity]
    method, so the test for it succeeds; no code assigns [glowStrength],
    so [this.glowStrength * this.lodLevel] is [undefined] times a
    number. *)
Definition updateLODAppearance (r : Rendered) : Rendered :=
  match lodLevel (display r) with
  | None => r
  | Some level =>
    let p := particle r in
    let d := display r in
    let d1 :=
      {| lodLevel := lodLevel d;
         displaySize := Some (Particle3D.size p * level);
         displayOpacity :=
           Some (if Qltb level 0.5 then Particle3D.opacity p * (0.5 + level)
                 else Particle3D.opacity p);
         displayGlowStrength := displayGlowStrength d;
         physicsComplexity := physicsComplexity d;
         physicsUpdateInterval := physicsUpdateInterval d;
         visible := visible d |} in
    let d2 := setPhysicsComplexity level d1 in
    {| particle := p;
       display :=
         {| lodLevel := lodLevel d2; displaySize := displaySize d2;
            displayOpacity := displayOpacity d2;
            displayGlowStrength :=
              Some (if Qltb level 0.3 then Num 0 else NaN);
            physicsComplexity := physicsComplexity d2;
            physicsUpdateInterval := physicsUpdateInterval d2;
            visible := visible d2 |} |}
  end.

(** [this.lodLevel === level] *)
Definition same_level (stored : option Q) (level : Q) : bool :=
  match stored with
  | Some l => Qeq_bool l level
  | None => false
  end.

(** [setLODLevel(level)] *)
Definition setLODLevel (level : Q) (r : Rendered) : Rendered :=
  if same_level (lodLevel (display r)) level then r
  else
    let d := display r in
    updateLODAppearance
      {| particle := particle r;
         display :=
           {| lodLevel := Some level; displaySize := displaySize d;
              displayOpacity := displayOpacity d;
              displayGlowStrength := displayGlowStrength d;
              physicsComplexity := physicsComplexity d;
              physicsUpdateInterval := physicsUpdateInterval d;
              visible := visible d |} |}.

Definition set_visible (b : bool) (r : Rendered) : Rendered :=
  let d := display r in
  {| particle := particle r;
     display :=
       {| lodLevel := lodLevel d; displaySize := displaySize d;
          displayOpacity := displayOpacity d;
          displayGlowStrength := displayGlowStrength d;
          physicsComplexity := physicsComplexity d;
          physicsUpdateInterval := physicsUpdateInterval d;
          visible := Some b |} |}.

(** An entry of [lodDistanceThresholds]. *)
Record Threshold : Type := {
  distance : Q;
  detail : Q
}.

Definition default_thresholds : list Threshold :=
  [ {| distance := 1000; detail := 1.0 |};
    {| distance := 2000; detail := 0.75 |};
    {| distance := 3000; detail := 0.5 |};
    {| distance := 4000; detail := 0.25 |};
    {| distance := 5000; detail := 0.1 |} ].

(** The loop of [calculateLODLevel] from index 1 on: [prev] is the entry
    before the one under test.  The division is only reached with
    [prev.distance < distance <= threshold.distance]. *)
Fixpoint interpolate_from (prev : Threshold) (ts : list Threshold) (d : Q) : Q :=
  match ts with
  | [] => detail prev
  | t :: rest =>
    if Qle_bool d (distance t)
    then
      let f := (d - distance prev) / (distance t - distance prev) in
      detail prev + f * (detail t - detail prev)
    else interpolate_from t rest d
  end.

(** [calculateLODLevel(distance)].  With [NaN] every comparison fails
    and the detail of the last entry is returned; on an empty table the
    last statement reads [detail] of [undefined]. *)
Definition calculateLODLevel (ts : list Threshold) (d : js_number) : completion Q :=
  match ts with
  | [] => Abrupt TypeError
  | t0 :: rest =>
    match d with
    | Num q =>
      Normal (if Qle_bool q (distance t0) then detail t0
              else interpolate_from t0 rest q)
    | NaN => Normal (detail (last rest t0))
    end
  end.

Record LodParticles : Type := {
  full : Z;
  high : Z;
  medium : Z;
  low : Z;
  minimal : Z
}.

(** [this.metrics], without the [lastUpdateTime] that only the
    logging uses. *)
Record Metrics : Type := {
  culledParticles : Z;
  lodParticles : LodParticles
}.

(** [resetMetrics()] leaves these values. *)
Definition no_metrics : Metrics :=
  {| culledParticles := 0;
     lodParticles := {| full := 0; high := 0; medium := 0; low := 0; minimal := 0 |} |}.

(** The optimizer: its two switches and the shared thresholds as
    before, the distance table and the metrics. *)
Record Optimizer : Type := {
  switches : ParticleOptimizer.Optimizer;
  lodDistanceThresholds : list Threshold;
  metrics : Metrics
}.

Definition constructor (t : ParticleOptimizer.Thresholds) : Optimizer :=
  {| switches := ParticleOptimizer.constructor t;
     lodDistanceThresholds := default_thresholds;
     metrics := no_metrics |}.

Definition set_metrics (m : Metrics) (o : Optimizer) : Optimizer :=
  {| switches := switches o; lodDistanceThresholds := lodDistanceThresholds o;
     metrics := m |}.

(** [updateLODMetrics(lodLevel)] *)
Definition updateLODMetrics (level : Q) (m : Metrics) : Metrics :=
  let c := lodParticles m in
  {| culledParticles := culledParticles m;
     lodParticles :=
       if Qgtb level 0.9
       then {| full := (full c + 1)%Z; high := high c; medium := medium c;
               low := low c; minimal := minimal c |}
       else if Qgtb level 0.6
       then {| full := full c; high := (high c + 1)%Z; medium := medium c;
               low := low c; minimal := minimal c |}
       else if Qgtb level 0.4
       then {| full := full c; high := high c; medium := (medium c + 1)%Z;
               low := low c; minimal := minimal c |}
       else if Qgtb level 0.2
       then {| full := full c; high := high c; medium := medium c;
               low := (low c + 1)%Z; minimal := minimal c |}
       else {| full := full c; high := high c; medium := medium c;
               low := low c; minimal := (minimal c + 1)%Z |} |}.

(** [setLODThresholds(thresholds)]: an empty array is refused. *)
Definition setLODThresholds (ts : list Threshold) (o : Optimizer) : Optimizer :=
  match ts with
  | [] => o
  | _ :: _ =>
    {| switches := switches o; lodDistanceThresholds := ts; metrics := metrics o |}
  end.

Record Camera : Type := {
  cameraX : Q;
  cameraY : Q;
  cameraZ : option Q
}.

(** [a - b] where [a] may be missing. *)
Definition minus (a : option Q) (b : Q) : js_number :=
  match a with
  | Some q => Num (q - b)
  | None => NaN
  end.

Section WithMath.

Variable M : MathObject.

(** [Math.sqrt]; of a negative number it is [NaN]. *)
Variable sqrt : Q -> js_number.

(** [tempVec.set(dx, dy, dz)] followed by [tempVec.lengthSquared()].
    The class of [tempVec] is imported from [utils/Vector3D.js], which
    is not among the sources, so the two calls are a parameter; they
    may throw (the [Vector3D] of [config/performance.js] has neither
    method: with that class the first call is a [TypeError]). *)
Variable lengthSquared : js_number -> js_number -> js_number -> completion js_number.

Definition distanceSquared (p : Particle3D.Particle) (cam : Camera)
  : completion js_number :=
  lengthSquared
    (minus (Particle3D.x p) (cameraX cam))
    (minus (Particle3D.y p) (cameraY cam))
    (Num (SpatialGrid.or_zero (Particle3D.z p) - SpatialGrid.or_zero (cameraZ cam))).

(** [shouldRender(particle, cameraPosition)]: the optimizer with its
    metrics after the call, the returned pair [(shouldRender, lodLevel)]
    and the number of draws.  [Math.random()] is only called for a
    level below 0.99. *)
Definition shouldRender (p : Particle3D.Particle) (cam : Camera) (n : nat)
    (o : Optimizer) : Optimizer * completion (bool * Q) * nat :=
  let sw := switches o in
  let frustum := ParticleOptimizer.frustumCulling sw in
  let dynamic := ParticleOptimizer.optimizerDynamicLOD sw in
  let cd := ParticleOptimizer.cullingDistance (ParticleOptimizer.thresholds sw) in
  if negb frustum && negb dynamic then (o, Normal (true, 1.0), n)
  else
    match distanceSquared p cam with
    | Abrupt e => (o, Abrupt e, n)
    | Normal d2 =>
      let beyond :=
        match d2 with
        | Num q => Qgtb q (cd * cd)
        | NaN => false
        end in
      if frustum && beyond
      then
        (set_metrics
           {| culledParticles := (culledParticles (metrics o) + 1)%Z;
              lodParticles := lodParticles (metrics o) |} o,
         Normal (false, 0), n)
      else if dynamic
      then
        let level :=
          calculateLODLevel (lodDistanceThresholds o)
            match d2 with
            | Num q => sqrt q
            | NaN => NaN
            end in
        match level with
        | Abrupt e => (o, Abrupt e, n)
        | Normal l =>
          let o1 := set_metrics (updateLODMetrics l (metrics o)) o in
          if Qltb l 0.99
          then
            if Qgtb (random M n) l then (o1, Normal (false, l), S n)
            else (o1, Normal (true, l), S n)
          else (o1, Normal (true, l), n)
        end
      else (o, Normal (true, 1.0), n)
    end.

(** The callback of [particleSystem.particles.forEach] in
    [optimizeParticleSystem], run over the array; every [Particle3D]
    has a [setLODLevel] method. *)
Fixpoint optimize_each (cam : Camera) (rs : list Rendered) (n : nat)
    (o : Optimizer) : list Rendered * Optimizer * completion unit * nat :=
  match rs with
  | [] => ([], o, Normal tt, n)
  | r :: rest =>
    match shouldRender (particle r) cam n o with
    | (o1, Abrupt e, n1) => (r :: rest, o1, Abrupt e, n1)
    | (o1, Normal (render, level), n1) =>
      let r1 := set_visible render r in
      let r2 := if render then setLODLevel level r1 else r1 in
      match optimize_each cam rest n1 o1 with
      | (rest', o2, c, n2) => (r2 :: rest', o2, c, n2)
      end
    end
  end.

(** [optimizeParticleSystem(particleSystem, cameraPosition)] on the
    particles of a system that has some; the logging that ends the
    method writes to the console only. *)
Definition optimizeParticleSystem (cam : Camera) (rs : list Rendered) (n : nat)
    (o : Optimizer) : list Rendered * Optimizer * completion unit * nat :=
  optimize_each cam rs n (set_metrics no_metrics o).

End WithMath.

Definition square (q : Q) : Q := q * q.

(** What the optimizer is to leave on a particle: a [visible] flag,
    which is [false] beyond the culling distance when frustum culling
    is on. *)
Definition settled
    (lengthSquared : js_number -> js_number -> js_number -> completion js_number)
    (o : Optimizer) (cam : Camera) (r : Rendered) : Prop :=
  visible (display r) <> None /\
  (ParticleOptimizer.frustumCulling (switches o) = true ->
   forall q : Q,
     distanceSquared lengthSquared (particle r) cam = Normal (Num q) ->
     square (ParticleOptimizer.cullingDistance
               (ParticleOptimizer.thresholds (switches o))) < q ->
     visible (display r) = Some false).

Definition counted (m : Metrics) : Z :=
  let c := lodParticles m in
  (culledParticles m + full c + high c + medium c + low c + minimal c)%Z.

(** Whether every entry has at most the detail of the entry before it. *)
Fixpoint details_descend (prev : Threshold) (ts : list Threshold) : Prop :=
  match ts with
  | [] => True
  | t :: rest => detail t <= detail prev /\ details_descend t rest
  end.

End LevelOfDetail.

(** ** The statistics of the pool ([ParticlePool.getStats]) *)

Module PoolStatistics.

Record Stats : Type := {
  poolSize : Z;
  maxSize : Z;
  activeCount : Z;
  totalCreated : Z;
  totalReused : Z;
  reuseRatio : Q
}.

(** [getStats()] *)
Definition getStats (pl : ParticlePool.Pool) : Stats :=
  {| poolSize := Z.of_nat (length (ParticlePool.pool pl));
     maxSize := ParticlePool.maxSize pl;
     activeCount := ParticlePool.activeCount pl;
     totalCreated := ParticlePool.totalCreated pl;
     totalReused := ParticlePool.totalReused pl;
     reuseRatio :=
       if (0 <? ParticlePool.totalCreated pl)%Z
       then inject_Z (ParticlePool.totalReused pl)
            / inject_Z (ParticlePool.totalCreated pl + ParticlePool.totalReused pl)
       else 0 |}.

End PoolStatistics.

(** ** Further methods of the particle system *)

Module SystemCalls.

(** [deactivate()] *)
Definition deactivate (s : ParticleSystem.System) : ParticleSystem.System :=
  if negb (ParticleSystem.active s) then s
  else ParticleSystem.set_active false s.

(** [getActiveParticles()] *)
Definition getActiveParticles (s : ParticleSystem.System) : list Particle3D.Particle :=
  if ParticleSystem.active s then ParticleSystem.particles s else [].

(** [applyForce(x, y, intensity)] *)
Definition applyForce (x y intensity : Q) (s : ParticleSystem.System)
  : ParticleSystem.System :=
  if negb (ParticleSystem.active s) then s
  else
    ParticleSystem.set_particles
      (List.map
         (fun p =>
            Particle3D.set_velocity
              (Particle3D.map_components
                 (fun v =>
                    {| Particle3D.vx := Particle3D.vx v + x * intensity;
                       Particle3D.vy := Particle3D.vy v + y * intensity;
                       Particle3D.vz := Particle3D.vz v |})
                 (Particle3D.velocity p))
              p)
         (ParticleSystem.particles s))
      s.

Section WithEnvironment.

Variable M : MathObject.
Variable StateManager : Particle3D.StateManager_binding.

(** One call [update(delta)] per element of [deltas], as long as no
    call throws. *)
Fixpoint updates (deltas : list Q) (w : ParticleSystem.World)
    (s : ParticleSystem.System)
  : ParticleSystem.System * ParticleSystem.World * completion unit :=
  match deltas with
  | [] => (s, w, Normal tt)
  | delta :: rest =>
    match ParticleSystem.update M StateManager delta w s with
    | (s1, w1, Abrupt e) => (s1, w1, Abrupt e)
    | (s1, w1, Normal _) => updates rest w1 s1
    end
  end.

End WithEnvironment.

(** A particle as [new Particle3D(...)] leaves it: it has not aged and
    its [isExpired] is still the method of the class. *)
Definition as_constructed (p : Particle3D.Particle) : Prop :=
  Particle3D.isExpired p = Particle3D.PrototypeMethod /\ Particle3D.age p = 0.

(** What [generateParticles(count)] appends to the particles of [s] when
    there is no pool. *)
Definition made_without_pool (M : MathObject) (s s' : ParticleSystem.System)
    (count : nat) : Prop :=
  exists made : list Particle3D.Particle,
    ParticleSystem.particles s' = ParticleSystem.particles s ++ made /\
    length made = count /\
    Forall as_constructed made /\
    (unit_interval M -> Forall (fun p => 0 < Particle3D.lifespan p) made).

(** A system that [update] handles without an error: active, within
    its limit, all particles as the constructor made them. *)
Definition standing (s : ParticleSystem.System) : Prop :=
  ParticleSystem.active s = true /\
  Forall as_constructed (ParticleSystem.particles s) /\
  Forall (fun p => 0 < Particle3D.lifespan p) (ParticleSystem.particles s) /\
  (Z.of_nat (length (ParticleSystem.particles s)) <= ParticleSystem.particleLimit s)%Z.

End SystemCalls.

(** ** The contents of the spatial grid *)

Module GridContents.

(** The number of particles held by the cells of the map. *)
Fixpoint stored (cells : list (SpatialGrid.Key * list Particle3D.Particle)) : Z :=
  match cells with
  | [] => 0%Z
  | (_, ps) :: rest => (Z.of_nat (length ps) + stored rest)%Z
  end.

(** A cell of the map of [g] is well formed when it is not empty and
    each of its particles has a position and falls, by its screen
    coordinates, into the cell of that key. *)
Definition well_formed_cell (g : SpatialGrid.Grid)
    (cell : SpatialGrid.Key * list Particle3D.Particle) : Prop :=
  snd cell <> [] /\
  Forall (fun p => SpatialGrid.insertable p = true /\ SpatialGrid.cell_of g p = fst cell)
         (snd cell).

End GridContents.

(** ** The colours of a lake ([getLakeColors]) *)

Module LakeColors.

(** [s.replace(pattern, replacement)] with a string pattern: the first
    occurrence only. *)
Fixpoint replace (s pattern replacement : string) : string :=
  if String.prefix pattern s
  then replacement ++ String.substring (String.length pattern)
                        (String.length s - String.length pattern) s
  else
    match s with
    | EmptyString => EmptyString
    | String c rest => String c (replace rest pattern replacement)
    end.

Record Colors : Type := {
  base : string;
  glow : string;
  pulse : Q
}.

Section WithNumberToString.

(** The string that a number becomes when it is added to a string. *)
Variable toString : Q -> string.

(** [getLakeColors(lakeType)]; reading [color] of a missing
    configuration would throw. *)
Definition getLakeColors (lakeType : string) : completion Colors :=
  let configType := Lakes.getLakeConfigType lakeType in
  match Lakes.LAKE_CONFIG configType with
  | None => Abrupt TypeError
  | Some config =>
    Normal
      {| base := Lakes.color config;
         glow :=
           replace
             (replace (Lakes.color config) ")"
                (", " ++ toString (Lakes.glowIntensity config) ++ ")"))
             "rgb" "rgba";
         pulse := Lakes.pulseFrequency config |}
  end.

End WithNumberToString.

End LakeColors.

(** ** Device tier and single quality steps ([utils/QualityGovernor.js]) *)

Module QualitySteps.

(** What [detectDeviceTier] reads from the browser: the renderer string
    that [getGPUInfo] reports (["unknown"] when there is none),
    [navigator.deviceMemory], [navigator.hardwareConcurrency] and
    [navigator.userAgent]. *)
Record Device : Type := {
  renderer : string;
  deviceMemory : option Q;
  hardwareConcurrency : option Q;
  userAgent : string
}.

(** [value || 4]: a missing value and 0 give 4. *)
Definition or_four (o : option Q) : Q :=
  match o with
  | Some q => if Qeq_bool q 0 then 4 else q
  | None => 4
  end.

(** [/Android|webOS|iPhone|iPad|iPod|BlackBerry|IEMobile|Opera Mini/i.test(ua)] *)
Definition isMobile (ua : string) : bool :=
  existsb (fun word => Lakes.includes (Lakes.toLowerCase ua) (Lakes.toLowerCase word))
          ["Android"; "webOS"; "iPhone"; "iPad"; "iPod"; "BlackBerry"; "IEMobile";
           "Opera Mini"].

Definition gpuScore (r : string) : Q :=
  if Lakes.includes r "RTX" || Lakes.includes r "Radeon Pro" then 50
  else if Lakes.includes r "GTX" || Lakes.includes r "Radeon" then 30
  else if Lakes.includes r "Intel" && Lakes.includes r "Iris" then 20
  else if Lakes.includes r "Intel" then 10
  else 0.

(** The score before the tier is read off. *)
Definition score (d : Device) : Q :=
  let s := gpuScore (renderer d)
           + ParticleOptimizer.Qmin (or_four (deviceMemory d)) 8 * 5
           + ParticleOptimizer.Qmin (or_four (hardwareConcurrency d)) 8 * 5 in
  if isMobile (userAgent d) then inject_Z (Qfloor (s * 0.6)) else s.

(** [detectDeviceTier()] *)
Definition detectDeviceTier (d : Device) : string :=
  let s := score d in
  if Qgeb s 100 then "ultra"
  else if Qgeb s 70 then "high"
  else if Qgeb s 40 then "medium"
  else if Qgeb s 20 then "low"
  else "minimal".

(** [array.indexOf(x)]: [-1] when [x] is not an element. *)
Fixpoint indexOf (x : string) (arr : list string) : Z :=
  match arr with
  | [] => (-1)%Z
  | y :: rest =>
    if String.eqb y x then 0%Z
    else
      let i := indexOf x rest in
      if (i <? 0)%Z then (-1)%Z else (i + 1)%Z
  end.

(** [increaseQuality()] *)
Definition increaseQuality (g : QualityGovernor.Governor)
  : QualityGovernor.Governor * bool :=
  let currentIndex := indexOf (QualityGovernor.currentLevel g) QualityGovernor.qualityLevels in
  if (0 <? currentIndex)%Z
  then
    match nth_error QualityGovernor.qualityLevels (Z.to_nat (currentIndex - 1)) with
    | Some newLevel => QualityGovernor.setQualityLevel newLevel g
    | None => (g, false)
    end
  else (g, false).

(** [decreaseQuality()]; for a level that is not in the list the index
    is [-1] and the new level is the first of the list. *)
Definition decreaseQuality (g : QualityGovernor.Governor)
  : QualityGovernor.Governor * bool :=
  let currentIndex := indexOf (QualityGovernor.currentLevel g) QualityGovernor.qualityLevels in
  if (currentIndex <? Z.of_nat (length QualityGovernor.qualityLevels) - 1)%Z
  then
    match nth_error QualityGovernor.qualityLevels (Z.to_nat (currentIndex + 1)) with
    | Some newLevel => QualityGovernor.setQualityLevel newLevel g
    | None => (g, false)
    end
  else (g, false).

End QualitySteps.

(** ** Boundary conditions and flow states ([FlowController]) *)

Module FlowController.

Inductive boundary_type : Type :=
| reflect
| absorb
| freeze
| orbit
| turbulent.

Record BoundaryCondition : Type := {
  type : boundary_type;
  factor : Q
}.

(** What [this.boundaryConditions[lakeType]] finds: an entry of the
    object literal, a member inherited from [Object.prototype] (truthy,
    without a [type]), or nothing. *)
Inductive lookup : Type :=
| Own (b : BoundaryCondition)
| Inherited
| Missing.

Definition Object_prototype : list string :=
  ["constructor"; "hasOwnProperty"; "isPrototypeOf"; "propertyIsEnumerable";
   "toLocaleString"; "toString"; "valueOf"; "__defineGetter__";
   "__defineSetter__"; "__lookupGetter__"; "__lookupSetter__"; "__proto__"].

Definition boundaryConditions (lakeType : string) : lookup :=
  if String.eqb lakeType "Freshwater" then Own {| type := absorb; factor := 0.8 |}
  else if String.eqb lakeType "Salt Lake" then Own {| type := reflect; factor := 0.9 |}
  else if String.eqb lakeType "High Altitude" then Own {| type := freeze; factor := 0.95 |}
  else if String.eqb lakeType "Sacred Lake" then Own {| type := orbit; factor := 1.0 |}
  else if String.eqb lakeType "Brackish" then Own {| type := turbulent; factor := 0.85 |}
  else if existsb (String.eqb lakeType) Object_prototype then Inherited
  else Missing.

(** [this.boundaryConditions[lakeType] || { type: 'absorb', factor: 0.8 }]
    as the [switch] sees it: [None] when no case matches. *)
Definition selected (lakeType : string) : option BoundaryCondition :=
  match boundaryConditions lakeType with
  | Own b => Some b
  | Inherited => None
  | Missing => Some {| type := absorb; factor := 0.8 |}
  end.

Record Box : Type := {
  minX : Q;
  maxX : Q;
  minY : Q;
  maxY : Q
}.

(** The properties of a lake system that the controller reads. *)
Record LakeSystem : Type := {
  lakeData : option ParticleSystem.LakeData;
  boundary : option Box;
  center : option (Q * Q)
}.

(** A [ParticleSystem] as the controller sees it: its constructor
    assigns [boundaries] and [lakeCenter], and nothing assigns
    [boundary] or [center]. *)
Definition of_system (s : ParticleSystem.System) : LakeSystem :=
  {| lakeData := Some (ParticleSystem.lakeData s); boundary := None; center := None |}.

(** [particle.x = value] and [particle.y = value] *)
Definition set_x (value : Q) (p : Particle3D.Particle) : Particle3D.Particle :=
  {| Particle3D.map := Particle3D.map p; Particle3D.position := Particle3D.position p;
     Particle3D.velocity := Particle3D.velocity p;
     Particle3D.acceleration := Particle3D.acceleration p;
     Particle3D.lifespan := Particle3D.lifespan p; Particle3D.age := Particle3D.age p;
     Particle3D.color := Particle3D.color p;
     Particle3D.opacity := Particle3D.opacity p; Particle3D.size := Particle3D.size p;
     Particle3D.flowPattern := Particle3D.flowPattern p;
     Particle3D.phaseOffset := Particle3D.phaseOffset p;
     Particle3D.orbitalRadius := Particle3D.orbitalRadius p;
     Particle3D.orbitalSpeed := Particle3D.orbitalSpeed p;
     Particle3D.orbitalAngle := Particle3D.orbitalAngle p;
     Particle3D.isExpired := Particle3D.isExpired p; Particle3D.x := Some value;
     Particle3D.y := Particle3D.y p; Particle3D.z := Particle3D.z p;
     Particle3D.lngLat := Particle3D.lngLat p;
     Particle3D.lakeType := Particle3D.lakeType p;
     Particle3D.lakeCenter := Particle3D.lakeCenter p;
     Particle3D.mass := Particle3D.mass p; Particle3D.id := Particle3D.id p;
     Particle3D.isFrozen := Particle3D.isFrozen p;
     Particle3D.frozenTime := Particle3D.frozenTime p;
     Particle3D.frozenDuration := Particle3D.frozenDuration p;
     Particle3D.originalVelocity := Particle3D.originalVelocity p;
     Particle3D.swirling := Particle3D.swirling p;
     Particle3D.glowIntensity := Particle3D.glowIntensity p;
     Particle3D.sparkle := Particle3D.sparkle p;
     Particle3D.crystalline := Particle3D.crystalline p;
     Particle3D.screenX := Particle3D.screenX p;
     Particle3D.screenY := Particle3D.screenY p |}.

Definition set_y (value : Q) (p : Particle3D.Particle) : Particle3D.Particle :=
  {| Particle3D.map := Particle3D.map p; Particle3D.position := Particle3D.position p;
     Particle3D.velocity := Particle3D.velocity p;
     Particle3D.acceleration := Particle3D.acceleration p;
     Particle3D.lifespan := Particle3D.lifespan p; Particle3D.age := Particle3D.age p;
     Particle3D.color := Particle3D.color p;
     Particle3D.opacity := Particle3D.opacity p; Particle3D.size := Particle3D.size p;
     Particle3D.flowPattern := Particle3D.flowPattern p;
     Particle3D.phaseOffset := Particle3D.phaseOffset p;
     Particle3D.orbitalRadius := Particle3D.orbitalRadius p;
     Particle3D.orbitalSpeed := Particle3D.orbitalSpeed p;
     Particle3D.orbitalAngle := Particle3D.orbitalAngle p;
     Particle3D.isExpired := Particle3D.isExpired p; Particle3D.x := Particle3D.x p;
     Particle3D.y := Some value; Particle3D.z := Particle3D.z p;
     Particle3D.lngLat := Particle3D.lngLat p;
     Particle3D.lakeType := Particle3D.lakeType p;
     Particle3D.lakeCenter := Particle3D.lakeCenter p;
     Particle3D.mass := Particle3D.mass p; Particle3D.id := Particle3D.id p;
     Particle3D.isFrozen := Particle3D.isFrozen p;
     Particle3D.frozenTime := Particle3D.frozenTime p;
     Particle3D.frozenDuration := Particle3D.frozenDuration p;
     Particle3D.originalVelocity := Particle3D.originalVelocity p;
     Particle3D.swirling := Particle3D.swirling p;
     Particle3D.glowIntensity := Particle3D.glowIntensity p;
     Particle3D.sparkle := Particle3D.sparkle p;
     Particle3D.crystalline := Particle3D.crystalline p;
     Particle3D.screenX := Particle3D.screenX p;
     Particle3D.screenY := Particle3D.screenY p |}.

(** [particle.velocity.x = value] and [particle.velocity.y = value] *)
Definition set_velocity_x (value : Q) (p : Particle3D.Particle) : Particle3D.Particle :=
  Particle3D.set_velocity
    (Particle3D.map_components
       (fun v => {| Particle3D.vx := value; Particle3D.vy := Particle3D.vy v;
                    Particle3D.vz := Particle3D.vz v |})
       (Particle3D.velocity p))
    p.

Definition set_velocity_y (value : Q) (p : Particle3D.Particle) : Particle3D.Particle :=
  Particle3D.set_velocity
    (Particle3D.map_components
       (fun v => {| Particle3D.vx := Particle3D.vx v; Particle3D.vy := value;
                    Particle3D.vz := Particle3D.vz v |})
       (Particle3D.velocity p))
    p.

Definition velocity_x (p : Particle3D.Particle) : Q :=
  Particle3D.vx (Particle3D.components (Particle3D.velocity p)).

Definition velocity_y (p : Particle3D.Particle) : Q :=
  Particle3D.vy (Particle3D.components (Particle3D.velocity p)).

(** [a < b] where [a] may be [undefined]: the comparison is then false. *)
Definition lt_number (a : option Q) (b : Q) : bool :=
  match a with
  | Some q => Qltb q b
  | None => false
  end.

Definition gt_number (a : option Q) (b : Q) : bool :=
  match a with
  | Some q => Qgtb q b
  | None => false
  end.

(** [applyReflectBoundary(particle, lakeSystem, factor)]; no particle
    has a [triggerEffect] method. *)
Definition applyReflectBoundary (p : Particle3D.Particle) (ls : LakeSystem)
    (factor0 : Q) : Particle3D.Particle :=
  match boundary ls with
  | None => p
  | Some b =>
    let p1 :=
      if lt_number (Particle3D.x p) (minX b)
      then set_x (minX b + 1) (set_velocity_x (JsMath.abs (velocity_x p) * factor0) p)
      else if gt_number (Particle3D.x p) (maxX b)
      then set_x (maxX b - 1) (set_velocity_x (- JsMath.abs (velocity_x p) * factor0) p)
      else p in
    if lt_number (Particle3D.y p1) (minY b)
    then set_y (minY b + 1) (set_velocity_y (JsMath.abs (velocity_y p1) * factor0) p1)
    else if gt_number (Particle3D.y p1) (maxY b)
    then set_y (maxY b - 1) (set_velocity_y (- JsMath.abs (velocity_y p1) * factor0) p1)
    else p1
  end.

Section WithBodies.

(** What the other four methods do once they have found a [boundary]
    (and, for the orbit, a [center]). *)
Variable absorb_body : Box -> Q -> Particle3D.Particle
                       -> Particle3D.Particle * completion unit.
Variable freeze_body : Box -> Q -> Particle3D.Particle
                       -> Particle3D.Particle * completion unit.
Variable orbit_body : Box -> Q * Q -> Q -> Particle3D.Particle
                      -> Particle3D.Particle * completion unit.
Variable turbulent_body : Box -> Q -> Particle3D.Particle
                          -> Particle3D.Particle * completion unit.

Definition applyAbsorbBoundary (p : Particle3D.Particle) (ls : LakeSystem)
    (factor0 : Q) : Particle3D.Particle * completion unit :=
  match boundary ls with
  | None => (p, Normal tt)
  | Some b => absorb_body b factor0 p
  end.

Definition applyFreezeBoundary (p : Particle3D.Particle) (ls : LakeSystem)
    (factor0 : Q) : Particle3D.Particle * completion unit :=
  match boundary ls with
  | None => (p, Normal tt)
  | Some b => freeze_body b factor0 p
  end.

Definition applyOrbitBoundary (p : Particle3D.Particle) (ls : LakeSystem)
    (factor0 : Q) : Particle3D.Particle * completion unit :=
  match boundary ls, center ls with
  | Some b, Some c => orbit_body b c factor0 p
  | _, _ => (p, Normal tt)
  end.

Definition applyTurbulentBoundary (p : Particle3D.Particle) (ls : LakeSystem)
    (factor0 : Q) : Particle3D.Particle * completion unit :=
  match boundary ls with
  | None => (p, Normal tt)
  | Some b => turbulent_body b factor0 p
  end.

(** [applyBoundaryCondition(particle, lakeSystem)]; [None] is a missing
    lake system. *)
Definition applyBoundaryCondition (p : Particle3D.Particle) (ls : option LakeSystem)
  : Particle3D.Particle * completion unit :=
  match ls with
  | None => (p, Normal tt)
  | Some l =>
    match lakeData l with
    | None => (p, Normal tt)
    | Some data =>
      match selected (ParticleSystem.type data) with
      | None => (p, Normal tt)
      | Some b =>
        match type b with
        | reflect => (applyReflectBoundary p l (factor b), Normal tt)
        | absorb => applyAbsorbBoundary p l (factor b)
        | freeze => applyFreezeBoundary p l (factor b)
        | orbit => applyOrbitBoundary p l (factor b)
        | turbulent => applyTurbulentBoundary p l (factor b)
        end
      end
    end
  end.

End WithBodies.

(** The transition between flow states. *)
Record Transition : Type := {
  from : string;
  to : string;
  startTime : Q;
  progress : Q
}.

Record States : Type := {
  current : string;
  transition : option Transition;
  duration : Q
}.

(** [this.states] as the constructor leaves it. *)
Definition states0 : States :=
  {| current := "calm"; transition := None; duration := 5000 |}.

(** [transitionState(newState)] at time [now] of [performance.now()]. *)
Definition transitionState (newState : string) (now : Q) (st : States) : States :=
  if String.eqb newState (current st) then st
  else
    {| current := newState;
       transition := Some {| from := current st; to := newState;
                             startTime := now; progress := 0 |};
       duration := duration st |}.

(** [updateStateTransition()] at time [now]. *)
Definition updateStateTransition (now : Q) (st : States) : States :=
  match transition st with
  | None => st
  | Some t =>
    let elapsed := now - startTime t in
    let progress1 := ParticleOptimizer.Qmin 1.0 (elapsed / duration st) in
    {| current := current st;
       transition :=
         if Qgeb progress1 1.0 then None
         else Some {| from := from t; to := to t; startTime := startTime t;
                      progress := progress1 |};
       duration := duration st |}
  end.

(** [getCurrentStateBlend()]: the entries of the object returned, in
    the order of its keys; a repeated key keeps its first place and
    takes the later value. *)
Definition getCurrentStateBlend (st : States) : list (string * Q) :=
  match transition st with
  | None => [(current st, 1.0)]
  | Some t =>
    if String.eqb (from t) (to t) then [(to t, progress t)]
    else [(from t, 1.0 - progress t); (to t, progress t)]
  end.

(** A call of one of the two state methods, [elapsed] milliseconds of
    [performance.now()] after the call before it. *)
Inductive call : Type :=
| TransitionState (elapsed : Q) (newState : string)
| UpdateStateTransition (elapsed : Q).

Definition elapsed_of (c : call) : Q :=
  match c with
  | TransitionState e _ => e
  | UpdateStateTransition e => e
  end.

Fixpoint run (calls : list call) (now : Q) (st : States) : Q * States :=
  match calls with
  | [] => (now, st)
  | TransitionState e s :: rest => run rest (now + e) (transitionState s (now + e) st)
  | UpdateStateTransition e :: rest => run rest (now + e) (updateStateTransition (now + e) st)
  end.

Definition total (blend : list (string * Q)) : Q :=
  fold_right (fun kv acc => snd kv + acc) 0 blend.

End FlowController.

(** ** Objects for the flow controller *)

Module Flows.

Definition box : FlowController.Box :=
  {| FlowController.minX := 10; FlowController.maxX := 20;
     FlowController.minY := 10; FlowController.maxY := 20 |}.

Definition boxed : FlowController.LakeSystem :=
  {| FlowController.lakeData := Some Scenarios.sambhar;
     FlowController.boundary := Some box;
     FlowController.center := None |}.

(** A particle at the screen origin, left of and above the box. *)
Definition stray : Particle3D.Particle := Particle3D.reset Scenarios.fresh_particle.

End Flows.

(** ** The fluid grid: indexing and quality ([FluidSimulation]) *)

Module FluidSimulation.

(** The fields that [IX], [setQuality] and the head of [update] use. *)
Record Simulation : Type := {
  width : Z;
  height : Z;
  iterations : Z;
  simulationQuality : Q;
  lastUpdateTime : Q;
  updateInterval : Q
}.

(** [value || fallback] on a number option of the constructor. *)
Definition or_default (o : option Z) (fallback : Z) : Z :=
  match o with
  | Some v => if (v =? 0)%Z then fallback else v
  | None => fallback
  end.

(** [new FluidSimulation(options)] *)
Definition constructor (width0 height0 iterations0 : option Z) : Simulation :=
  {| width := or_default width0 32; height := or_default height0 32;
     iterations := or_default iterations0 4;
     simulationQuality := 1.0; lastUpdateTime := 0; updateInterval := 16 |}.

(** [IX(x, y)] *)
Definition IX (s : Simulation) (x y : Z) : Z :=
  (Z.max 0 (Z.min (width s - 1) x) + Z.max 0 (Z.min (height s - 1) y) * width s)%Z.

(** [Math.max(lo, Math.min(hi, q))] *)
Definition clamp (lo hi q : Q) : Q :=
  let m := if Qle_bool hi q then hi else q in
  if Qle_bool m lo then lo else m.

(** [setQuality(quality)] *)
Definition setQuality (quality : Q) (s : Simulation) : Simulation :=
  {| width := width s; height := height s; iterations := iterations s;
     simulationQuality := clamp 0.2 1.0 quality;
     lastUpdateTime := lastUpdateTime s;
     updateInterval := if Qltb quality 0.5 then 32 else 16 |}.

(** The number of solver passes of one [update]:
    [Math.max(1, Math.round(this.iterations * this.simulationQuality))]. *)
Definition steps (s : Simulation) : Z :=
  Z.max 1 (JsMath.round (inject_Z (iterations s) * simulationQuality s)).

(** *** The arrays and the pressure projection *)

(** A field is one of the [Float32Array]s of [width * height] numbers.
    Its numbers are kept exactly, in lowest terms: the rounding of a
    store to single precision is not modelled. *)
Definition Field : Type := list Q.

(** [x[i]] for an index of the array ([IX] returns no other). *)
Definition get (x : Field) (i : Z) : Q := nth (Z.to_nat i) x 0.

Fixpoint set_nat (x : Field) (i : nat) (v : Q) : Field :=
  match x, i with
  | [], _ => []
  | _ :: rest, O => v :: rest
  | q :: rest, S k => q :: set_nat rest k v
  end.

(** [x[i] = v]; a typed array ignores a store outside its bounds. *)
Definition set (x : Field) (i : Z) (v : Q) : Field :=
  set_nat x (Z.to_nat i) (Qred v).

(** The integers [lo, lo + 1, ..., hi - 1] of a loop
    [for (k = lo; k < hi; k++)]. *)
Definition range (lo hi : Z) : list Z :=
  List.map (fun k => (lo + Z.of_nat k)%Z) (seq 0 (Z.to_nat (hi - lo))).

(** The cells [(i, j)] that the two nested loops
    [for (j = 1; j < height - 1; j++) for (i = 1; i < width - 1; i++)]
    visit, in their order. *)
Definition interior (s : Simulation) : list (Z * Z) :=
  flat_map (fun j => List.map (fun i => (i, j)) (range 1 (width s - 1)))
           (range 1 (height s - 1)).

(** [b === k ? -v : v] *)
Definition mirrored (b k : Z) (v : Q) : Q := if (b =? k)%Z then - v else v.

(** [setBoundary(b, x)] *)
Definition setBoundary (s : Simulation) (b : Z) (x : Field) : Field :=
  let W := width s in
  let H := height s in
  let x1 :=
    fold_left
      (fun x i =>
         let x' := set x (IX s i 0) (mirrored b 2 (get x (IX s i 1))) in
         set x' (IX s i (H - 1)) (mirrored b 2 (get x' (IX s i (H - 2)))))
      (range 1 (W - 1)) x in
  let x2 :=
    fold_left
      (fun x j =>
         let x' := set x (IX s 0 j) (mirrored b 1 (get x (IX s 1 j))) in
         set x' (IX s (W - 1) j) (mirrored b 1 (get x' (IX s (W - 2) j))))
      (range 1 (H - 1)) x1 in
  let x3 := set x2 (IX s 0 0) (0.5 * (get x2 (IX s 1 0) + get x2 (IX s 0 1))) in
  let x4 := set x3 (IX s 0 (H - 1))
              (0.5 * (get x3 (IX s 1 (H - 1)) + get x3 (IX s 0 (H - 2)))) in
  let x5 := set x4 (IX s (W - 1) 0)
              (0.5 * (get x4 (IX s (W - 2) 0) + get x4 (IX s (W - 1) 1))) in
  set x5 (IX s (W - 1) (H - 1))
      (0.5 * (get x5 (IX s (W - 2) (H - 1)) + get x5 (IX s (W - 1) (H - 2)))).

(** One pass of the two inner loops of [linearSolve] over [x], in
    place. *)
Definition relax (s : Simulation) (x0 : Field) (a invC : Q) (x : Field) : Field :=
  fold_left
    (fun x ij =>
       let i := fst ij in
       let j := snd ij in
       set x (IX s i j)
           ((get x0 (IX s i j)
             + a * (get x (IX s (i + 1) j) + get x (IX s (i - 1) j)
                    + get x (IX s i (j + 1)) + get x (IX s i (j - 1))))
            * invC))
    (interior s) x.

Fixpoint repeat_pass (k : nat) (pass : Field -> Field) (x : Field) : Field :=
  match k with
  | O => x
  | S k' => repeat_pass k' pass (pass x)
  end.

(** [linearSolve(b, x, x0, a, c)]: the array [x] after the call; [x0]
    is another array. *)
Definition linearSolve (s : Simulation) (b : Z) (x x0 : Field) (a c : Q) : Field :=
  let invC := 1 / c in
  repeat_pass (Z.to_nat (iterations s))
              (fun x => setBoundary s b (relax s x0 a invC x)) x.

(** The sum of central differences that [project] takes at the cell
    [(i, j)]; its [div] is [-0.5 / width] times this number. *)
Definition divergence (s : Simulation) (velocX velocY : Field) (ij : Z * Z) : Q :=
  let i := fst ij in
  let j := snd ij in
  get velocX (IX s (i + 1) j) - get velocX (IX s (i - 1) j)
  + get velocY (IX s i (j + 1)) - get velocY (IX s i (j - 1)).

Record Projected : Type := {
  velocX : Field;
  velocY : Field;
  pressure : Field;
  div : Field
}.

(** [project(velocX, velocY, p, div)] on four different arrays: the
    four arrays after the call.  Each of the two loops of the source
    that store into two arrays is written as one loop per array; no
    store of the one is read by the other. *)
Definition project (s : Simulation) (velocX0 velocY0 p0 div0 : Field) : Projected :=
  let W := inject_Z (width s) in
  let H := inject_Z (height s) in
  let div1 :=
    fold_left
      (fun d ij => set d (IX s (fst ij) (snd ij))
                       (-0.5 * divergence s velocX0 velocY0 ij / W))
      (interior s) div0 in
  let p1 := fold_left (fun p ij => set p (IX s (fst ij) (snd ij)) 0) (interior s) p0 in
  let div2 := setBoundary s 0 div1 in
  let p2 := setBoundary s 0 p1 in
  let p3 := linearSolve s 0 p2 div2 1 6 in
  let vx1 :=
    fold_left
      (fun vx ij =>
         let i := fst ij in
         let j := snd ij in
         set vx (IX s i j)
             (get vx (IX s i j)
              - 0.5 * (get p3 (IX s (i + 1) j) - get p3 (IX s (i - 1) j)) * W))
      (interior s) velocX0 in
  let vy1 :=
    fold_left
      (fun vy ij =>
         let i := fst ij in
         let j := snd ij in
         set vy (IX s i j)
             (get vy (IX s i j)
              - 0.5 * (get p3 (IX s i (j + 1)) - get p3 (IX s i (j - 1))) * H))
      (interior s) velocY0 in
  {| velocX := setBoundary s 1 vx1; velocY := setBoundary s 2 vy1;
     pressure := p3; div := div2 |}.













End FluidSimulation.

(** ** The frame-rate history ([components/PerformanceMonitor.js]) *)

Module PerformanceMonitor.

(** The fields behind the frame rate; the memory history, the timers and
    the page elements that [update] also writes are left out. *)
Record Monitor : Type := {
  fps : Z;
  frameCount : Z;
  lastTime : Q;
  lastFpsUpdate : Q;
  fpsHistory : list Z;
  fpsHistoryIndex : nat
}.

(** [new PerformanceMonitor()] at time [now] of [performance.now()]. *)
Definition constructor (now : Q) : Monitor :=
  {| fps := 0; frameCount := 0; lastTime := now; lastFpsUpdate := now;
     fpsHistory := repeat 60%Z 60; fpsHistoryIndex := 0 |}.

(** [array[i] = v] for an index below the length, which is the only
    case that arises: the index is always taken modulo the length. *)
Fixpoint assign (i : nat) (v : Z) (arr : list Z) : list Z :=
  match arr, i with
  | [], _ => []
  | _ :: rest, O => v :: rest
  | a :: rest, S j => a :: assign j v rest
  end.

(** [update()] at time [now]: the monitor afterwards and the value
    returned. *)
Definition update (now : Q) (m : Monitor) : Monitor * Q :=
  let delta := now - lastTime m in
  let count := (frameCount m + 1)%Z in
  let sinceUpdate := now - lastFpsUpdate m in
  if Qgeb sinceUpdate 1000
  then
    let fps1 := JsMath.round (inject_Z count * 1000 / sinceUpdate) in
    ({| fps := fps1; frameCount := 0; lastTime := now; lastFpsUpdate := now;
        fpsHistory := assign (fpsHistoryIndex m) fps1 (fpsHistory m);
        fpsHistoryIndex := (fpsHistoryIndex m + 1) mod length (fpsHistory m) |},
     delta / 1000)
  else
    ({| fps := fps m; frameCount := count; lastTime := now;
        lastFpsUpdate := lastFpsUpdate m; fpsHistory := fpsHistory m;
        fpsHistoryIndex := fpsHistoryIndex m |},
     delta / 1000).

(** [getAverageFps()] *)
Definition getAverageFps (m : Monitor) : Q :=
  inject_Z (fold_left Z.add (fpsHistory m) 0%Z) / inject_Z (Z.of_nat (length (fpsHistory m))).

(** [isLowPerformance()] *)
Definition isLowPerformance (t : ParticleOptimizer.Thresholds) (m : Monitor) : bool :=
  Qltb (getAverageFps m) (ParticleOptimizer.lowFPS t).

(** One [update()] per frame, at the given times. *)
Fixpoint updates (times : list Q) (m : Monitor) : Monitor :=
  match times with
  | [] => m
  | now :: rest => updates rest (fst (update now m))
  end.

End PerformanceMonitor.

(** ** Quality adaptation of the visualisation
    ([LakeVisualizationSystem] in [components/LakeVisualizationSystem.js]) *)

Module LakeVisualization.

(** The values that [currentQuality] takes: it starts as ['high'] and
    [adaptQualityBasedOnPerformance] moves it between these three. *)
Inductive quality : Type :=
| high
| medium
| low.

Definition name (q : quality) : string :=
  match q with
  | high => "high"
  | medium => "medium"
  | low => "low"
  end.

Record QualitySetting : Type := {
  particleMultiplier : Q;
  glowEffects : bool;
  animationComplexity : Q;
  renderDistance : Q
}.

(** [this.qualitySettings[quality]] *)
Definition qualitySettings (q : quality) : QualitySetting :=
  match q with
  | high => {| particleMultiplier := 1.0; glowEffects := true;
               animationComplexity := 1.0; renderDistance := 1.0 |}
  | medium => {| particleMultiplier := 0.7; glowEffects := true;
                 animationComplexity := 0.7; renderDistance := 0.8 |}
  | low => {| particleMultiplier := 0.4; glowEffects := false;
              animationComplexity := 0.4; renderDistance := 0.5 |}
  end.

(** A particle system with the two properties that
    [applyQualitySettings] puts on it. *)
Record Visual : Type := {
  system : ParticleSystem.System;
  effectComplexity : option Q;
  systemGlowEffects : option bool
}.

(** What [StateManager.setQualityLevel] writes: its own level and the
    governor, when there is one.  Its listeners are called inside
    [try]/[catch] and are not part of this state. *)
Record Manager : Type := {
  qualityLevel : string;
  qualityGovernor : option QualityGovernor.Governor
}.

(** [StateManager.setQualityLevel(level)] without an event emitter. *)
Definition manager_setQualityLevel (level : string) (sm : Manager) : Manager :=
  {| qualityLevel := level;
     qualityGovernor :=
       match qualityGovernor sm with
       | None => None
       | Some g => Some (fst (QualityGovernor.setQualityLevel level g))
       end |}.

(** [QUALITY_PRESETS[quality].particleMultiplier]; the three levels are
    keys of [QUALITY_PRESETS]. *)
Definition preset_multiplier (q : quality) : Q :=
  match QualityGovernor.QUALITY_PRESETS (name q) with
  | Some preset => QualityGovernor.particleMultiplier preset
  | None => 0
  end.

(** The callback of [StateManager.particleSystems.forEach] in
    [applyQualitySettings]; [splice(targetCount, length - targetCount)]
    keeps the first [targetCount] particles. *)
Definition apply_to_system (q : quality) (v : Visual) : Visual :=
  let s := system v in
  if negb (ParticleSystem.active s) then v
  else
    let len := length (ParticleSystem.particles s) in
    let targetCount := Qfloor (preset_multiplier q * inject_Z (Z.of_nat len)) in
    {| system :=
         if (targetCount <? Z.of_nat len)%Z
         then ParticleSystem.set_particles
                (firstn (Z.to_nat targetCount) (ParticleSystem.particles s)) s
         else s;
       effectComplexity := Some (animationComplexity (qualitySettings q));
       systemGlowEffects := Some (glowEffects (qualitySettings q)) |}.

(** The visualisation system with what it reaches through
    [StateManager]: the particle systems in the order of their map, and
    the manager's own state. *)
Record State : Type := {
  currentQuality : quality;
  particleSystems : list Visual;
  manager : Manager
}.

(** [applyQualitySettings()] *)
Definition applyQualitySettings (st : State) : State :=
  {| currentQuality := currentQuality st;
     particleSystems := List.map (apply_to_system (currentQuality st)) (particleSystems st);
     manager := manager_setQualityLevel (name (currentQuality st)) (manager st) |}.

(** The level that [adaptQualityBasedOnPerformance] chooses from the
    frame rate and the memory in use, in megabytes. *)
Definition newQuality (currentFPS memoryUsage : Q) (q : quality) : quality :=
  if Qltb currentFPS 25 || Qgtb memoryUsage 150
  then match q with
       | high => medium
       | medium => low
       | low => low
       end
  else if Qgtb currentFPS 55 && Qltb memoryUsage 100
  then match q with
       | low => medium
       | medium => high
       | high => high
       end
  else q.

Definition quality_eqb (a b : quality) : bool :=
  match a, b with
  | high, high | medium, medium | low, low => true
  | _, _ => false
  end.

(** [adaptQualityBasedOnPerformance()] with a performance monitor whose
    metrics read [fps] and [memoryUsage] bytes. *)
Definition adaptQualityBasedOnPerformance (fps memoryUsage : Q) (st : State) : State :=
  let chosen := newQuality fps (memoryUsage / (1024 * 1024)) (currentQuality st) in
  if quality_eqb chosen (currentQuality st) then st
  else
    applyQualitySettings
      {| currentQuality := chosen; particleSystems := particleSystems st;
         manager := manager st |}.

(** The place of a level, from the best down. *)
Definition rank (q : quality) : Z :=
  match q with
  | high => 0%Z
  | medium => 1%Z
  | low => 2%Z
  end.

End LakeVisualization.

(** ** Further concrete objects *)

Module Displays.

(** A particle of a freshwater lake that has received no level yet. *)
Definition plain : LevelOfDetail.Rendered :=
  {| LevelOfDetail.particle := Scenarios.fresh_particle;
     LevelOfDetail.display := LevelOfDetail.no_display |}.

Definition camera : LevelOfDetail.Camera :=
  {| LevelOfDetail.cameraX := 0; LevelOfDetail.cameraY := 0;
     LevelOfDetail.cameraZ := None |}.

(** A square root that is right on the squares used here. *)
Definition sqrt (q : Q) : LevelOfDetail.js_number :=
  if Qeq_bool q 0 then LevelOfDetail.Num 0 else LevelOfDetail.Num 1500.

(** A vector class whose calls return: [x * x + y * y + z * z], with
    [NaN] as soon as one of them is. *)
Definition lengthSquared (a b c : LevelOfDetail.js_number)
  : completion LevelOfDetail.js_number :=
  match a, b, c with
  | LevelOfDetail.Num x, LevelOfDetail.Num y, LevelOfDetail.Num z =>
    Normal (LevelOfDetail.Num (x * x + y * y + z * z))
  | _, _, _ => Normal LevelOfDetail.NaN
  end.

(** A vector class without a [set] method. *)
Definition no_set (a b c : LevelOfDetail.js_number)
  : completion LevelOfDetail.js_number :=
  Abrupt TypeError.

End Displays.

Module Visuals.

(** The calm system before any quality change. *)
Definition calm : LakeVisualization.Visual :=
  {| LakeVisualization.system := Scenarios.calm_system;
     LakeVisualization.effectComplexity := None;
     LakeVisualization.systemGlowEffects := None |}.

End Visuals.

Module Fields.

(** The grid of [new FluidSimulation()]: 32 by 32 cells, four solver
    passes. *)
Definition grid : FluidSimulation.Simulation :=
  FluidSimulation.constructor None None None.




End Fields.

(** Short names for the modules above. *)
Module P := Particle3D.
Module Pool := ParticlePool.
Module PS := ParticleSystem.
Module SG := SpatialGrid.
Module QG := QualityGovernor.
Module PO := ParticleOptimizer.
Module LOD := LevelOfDetail.
Module QS := QualitySteps.
Module FC := FlowController.
Module Fluid := FluidSimulation.
Module PM := PerformanceMonitor.
Module LV := LakeVisualization.

(** * Properties *)

(** ** Numbers and arrays *)

Lemma Qltb_lt (a b : Q) : Qltb a b = true <-> a < b.
Proof.
  unfold Qltb. rewrite negb_true_iff. split; intro H.
  - apply Qnot_le_lt. intro Hle. apply Qle_bool_iff in Hle. congruence.
  - destruct (Qle_bool b a) eqn:E; [|reflexivity].
    apply Qle_bool_iff in E. exfalso. exact (Qlt_not_le _ _ H E).
Qed.

Lemma Qltb_ge (a b : Q) : Qltb a b = false <-> b <= a.
Proof.
  unfold Qltb. rewrite negb_false_iff. apply Qle_bool_iff.
Qed.

Lemma Qgeb_ge (a b : Q) : Qgeb a b = true <-> b <= a.
Proof. unfold Qgeb. apply Qle_bool_iff. Qed.

Lemma length_push {A : Type} (arr : list A) (a : A) :
  length (push arr a) = S (length arr).
Proof. unfold push. rewrite length_app. simpl. lia. Qed.

Lemma pop_push {A : Type} (arr : list A) (a : A) :
  pop (push arr a) = (Some a, arr).
Proof.
  unfold push. induction arr as [|b arr IH]; [reflexivity|].
  change ((b :: arr) ++ [a]) with (b :: (arr ++ [a])).
  cbn [pop]. rewrite IH. destruct (arr ++ [a]) eqn:E; [|reflexivity].
  destruct arr; discriminate.
Qed.

Lemma pop_length {A : Type} (arr : list A) :
  length (snd (pop arr)) = Nat.pred (length arr).
Proof.
  induction arr as [|a [|b rest] IH]; [reflexivity|reflexivity|].
  change (pop (a :: b :: rest))
    with (let (r, rest') := pop (b :: rest) in (r, a :: rest')).
  destruct (pop (b :: rest)) as [r rest'].
  simpl in *. rewrite IH. reflexivity.
Qed.

Lemma pop_none {A : Type} (arr : list A) :
  fst (pop arr) = None <-> arr = [].
Proof.
  induction arr as [|a [|b rest] IH]; [tauto|split; discriminate|].
  change (pop (a :: b :: rest))
    with (let (r, rest') := pop (b :: rest) in (r, a :: rest')).
  destruct (pop (b :: rest)) as [r rest'].
  simpl in *. split; [|discriminate].
  intro H. apply IH in H. discriminate.
Qed.

(** ** Lake types *)

Example getLakeConfigType_sacred : Lakes.getLakeConfigType "Sacred Lake" = "Sacred Lake".
Proof. reflexivity. Qed.

Example getLakeConfigType_glacial :
  Lakes.getLakeConfigType "Glacial tarn" = "High Altitude Lake".
Proof. reflexivity. Qed.

Example getLakeConfigType_default : Lakes.getLakeConfigType "Oxbow" = "Freshwater Lake".
Proof. reflexivity. Qed.

(** ** Particle lifecycle *)

Section Lifecycle.

Variable SM : P.StateManager_binding.

Lemma update_flagged (dt : Q) (p : P.Particle) :
  P.truthy (P.isExpired p) = true ->
  P.update SM dt p = (p, Normal false).
Proof. intro H. unfold P.update. rewrite H. reflexivity. Qed.

(** What one call does to a particle whose flag is the boolean [false]:
    the age grows by [dt], the lifespan stays, and the flag records
    whether the new age exceeds the lifespan. *)
Lemma update_unflagged (dt : Q) (p : P.Particle) :
  P.isExpired p = P.OwnBoolean false ->
  let q := fst (P.update SM dt p) in
  P.age q = P.age p + dt /\
  P.lifespan q = P.lifespan p /\
  P.isExpired q = P.OwnBoolean (Qgtb (P.age p + dt) (P.lifespan p)).
Proof.
  intro H. unfold P.update. rewrite H. cbn [P.truthy].
  cbn [P.set_age P.age P.lifespan].
  destruct (Qgtb (P.age p + dt) (P.lifespan p)) eqn:E.
  - cbn. auto.
  - destruct SM as [|fc]; [cbn; auto|].
    destruct (fc && _ && _).
    + cbn. destruct (P.velocity p); cbn; auto.
    + unfold P.integrate_position. cbn.
      destruct (P.position p); [|cbn; auto].
      cbn. destruct (P.velocity p); cbn; auto.
Qed.

Lemma updates_flagged (dts : list Q) (p : P.Particle) :
  P.truthy (P.isExpired p) = true ->
  P.updates SM dts p = p.
Proof.
  induction dts as [|dt rest IH]; intro H; [reflexivity|].
  cbn [P.updates]. rewrite (update_flagged dt p H). cbn [fst]. exact (IH H).
Qed.

Lemma elapsed_cons (dt : Q) (dts : list Q) :
  P.elapsed (dt :: dts) = dt + P.elapsed dts.
Proof. reflexivity. Qed.

(** C1, as the code has it.  Take a particle whose expiry flag is the
    boolean [false] (as [reset] and [init] leave it) and whose age does
    not exceed its lifespan, and call [update] with positive time steps
    [dts].  Either the particle is still unflagged and its age has grown
    by every step; or it is flagged, and then there is a call [k] such
    that the age stayed within the lifespan before each of the calls
    [0..k], exceeded it after call [k], and has not moved since. *)
Theorem update_lifecycle (dts : list Q) (p : P.Particle) :
  Forall (fun dt => 0 < dt) dts ->
  P.isExpired p = P.OwnBoolean false ->
  P.age p <= P.lifespan p ->
  let q := P.updates SM dts p in
  P.lifespan q = P.lifespan p /\
  ((P.isExpired q = P.OwnBoolean false /\
    P.age q == P.age p + P.elapsed dts /\
    P.age q <= P.lifespan p)
   \/
   (P.isExpired q = P.OwnBoolean true /\
    exists k : nat,
      (k < length dts)%nat /\
      (forall j : nat, (j <= k)%nat ->
         P.age p + P.elapsed (firstn j dts) <= P.lifespan p) /\
      P.lifespan p < P.age p + P.elapsed (firstn (S k) dts) /\
      P.age q == P.age p + P.elapsed (firstn (S k) dts))).
Proof.
  revert p. induction dts as [|dt rest IH]; intros p Hpos Hflag Hage.
  - cbn. split; [reflexivity|]. left. repeat split; auto; lra.
  - inversion Hpos as [|? ? Hdt Hrest]; subst.
    destruct (update_unflagged dt p Hflag) as (Ha & Hl & Hf).
    cbn [P.updates]. set (p1 := fst (P.update SM dt p)) in *.
    destruct (Qgtb (P.age p + dt) (P.lifespan p)) eqn:E.
    + rewrite (updates_flagged rest p1) by (rewrite Hf; reflexivity).
      split; [exact Hl|]. right. split; [exact Hf|].
      exists 0%nat. apply Qltb_lt in E. cbn [length firstn P.elapsed fold_right].
      repeat split.
      * lia.
      * intros j Hj. assert (j = 0%nat) by lia. subst j. cbn. lra.
      * lra.
      * rewrite Ha. lra.
    + apply Qltb_ge in E.
      assert (Hage1 : P.age p1 <= P.lifespan p1) by (rewrite Ha, Hl; exact E).
      destruct (IH p1 Hrest Hf Hage1) as (Hl' & [(Hf' & Ha' & Hb') | (Hf' & k & Hk & Hbefore & Hafter & Ha')]).
      * split; [congruence|]. left. rewrite Hl in Hb'.
        repeat split; auto. rewrite Ha', Ha, elapsed_cons. lra.
      * split; [congruence|]. right. split; [exact Hf'|].
        exists (S k). rewrite Ha, Hl in *. cbn [length].
        repeat split.
        -- lia.
        -- intros [|j] Hj; [cbn; lra|].
           cbn [firstn]. rewrite elapsed_cons.
           specialize (Hbefore j ltac:(lia)). lra.
        -- change (firstn (S (S k)) (dt :: rest)) with (dt :: firstn (S k) rest).
           rewrite elapsed_cons. lra.
        -- change (firstn (S (S k)) (dt :: rest)) with (dt :: firstn (S k) rest).
           rewrite Ha', elapsed_cons. lra.
Qed.

(** A particle whose lifespan is zero is flagged by its first update. *)
Lemma lifespan_zero_expires_on_first_update (dt : Q) (p : P.Particle) :
  P.isExpired p = P.OwnBoolean false ->
  P.lifespan p == 0 -> P.age p == 0 -> 0 < dt ->
  P.isExpired (fst (P.update SM dt p)) = P.OwnBoolean true.
Proof.
  intros Hflag Hl Ha Hdt.
  destruct (update_unflagged dt p Hflag) as (_ & _ & Hf).
  rewrite Hf. f_equal. apply Qltb_lt. lra.
Qed.

(** A particle that only the constructor has touched carries the method
    in place of the flag, which is truthy: [update] returns at once. *)
Lemma update_of_constructed (dt : Q) (p : P.Particle) :
  P.isExpired p = P.PrototypeMethod ->
  P.update SM dt p = (p, Normal false).
Proof. intro H. apply update_flagged. rewrite H. reflexivity. Qed.

End Lifecycle.

(** The steps [1000, 1000, 2000] on a particle that [init] gave a
    lifespan of 3000. *)
Lemma update_lifecycle_witness :
  let p := Scenarios.pooled_particle in
  let dts := [1000; 1000; 2000] in
  let q := P.updates P.Undeclared dts p in
  P.lifespan q = P.lifespan p /\
  ((P.isExpired q = P.OwnBoolean false /\
    P.age q == P.age p + P.elapsed dts /\
    P.age q <= P.lifespan p)
   \/
   (P.isExpired q = P.OwnBoolean true /\
    exists k : nat,
      (k < length dts)%nat /\
      (forall j : nat, (j <= k)%nat ->
         P.age p + P.elapsed (firstn j dts) <= P.lifespan p) /\
      P.lifespan p < P.age p + P.elapsed (firstn (S k) dts) /\
      P.age q == P.age p + P.elapsed (firstn (S k) dts))).
Proof.
  apply (update_lifecycle P.Undeclared [1000; 1000; 2000] Scenarios.pooled_particle).
  - repeat constructor.
  - reflexivity.
  - vm_compute. discriminate.
Defined.

(** C1, as stated, fails where the age equals the lifespan: the particle
    is not flagged, and the next call still advances its age. *)
Lemma update_at_lifespan_still_advances :
  ~ (forall (SM : P.StateManager_binding) (p : P.Particle) (dt : Q),
        0 < dt -> P.lifespan p <= P.age p ->
        P.age (fst (P.update SM dt p)) == P.age p).
Proof.
  intro H.
  pose (p1 := fst (P.update P.Undeclared 3000 Scenarios.pooled_particle)).
  specialize (H P.Undeclared p1 16).
  assert (Hdt : 0 < 16) by reflexivity.
  assert (Hle : P.lifespan p1 <= P.age p1) by (vm_compute; discriminate).
  specialize (H Hdt Hle). vm_compute in H. discriminate.
Qed.

Example at_lifespan_not_flagged :
  let p1 := fst (P.update P.Undeclared 3000 Scenarios.pooled_particle) in
  P.age p1 == P.lifespan p1 /\ P.isExpired p1 = P.OwnBoolean false /\
  P.isExpired (fst (P.update P.Undeclared 16 p1)) = P.OwnBoolean true.
Proof. vm_compute. auto. Qed.

(** ** Initialisation and recycling of particles *)

Section Initialisation.

Variable M : MathObject.

Lemma init_lifespan (m : P.MapLibre) (c : Q * Q) (t : option string)
    (n : nat) (p : P.Particle) :
  let q := fst (fst (P.init M (Some m) (Some c) t n p)) in
  P.lifespan q = 3000 + random M (n + 3) * (4500 - 3000) /\
  P.size q = 0.5 + random M (n + 4) * (2.0 - 0.5) /\
  P.opacity q = random M (n + 5) * 0.5 + 0.3.
Proof. destruct c. cbn. auto. Qed.

(** The ranges that [init] draws from are those of [getTypeConfig],
    whatever the lake type. *)
Lemma init_ranges (m : P.MapLibre) (c : Q * Q) (t : option string)
    (n : nat) (p : P.Particle) :
  unit_interval M ->
  let q := fst (fst (P.init M (Some m) (Some c) t n p)) in
  let cfg := P.getTypeConfig t in
  Lakes.min (P.particleLifespan cfg) <= P.lifespan q <= Lakes.max (P.particleLifespan cfg) /\
  Lakes.min (P.particleSize cfg) <= P.size q <= Lakes.max (P.particleSize cfg) /\
  0.3 <= P.opacity q <= 0.8.
Proof.
  intros HM q cfg.
  destruct (init_lifespan m c t n p) as (Hl & Hs & Ho).
  fold q in Hl, Hs, Ho. rewrite Hl, Hs, Ho. cbn.
  pose proof (HM (n + 3)%nat). pose proof (HM (n + 4)%nat).
  pose proof (HM (n + 5)%nat). repeat split; lra.
Qed.

Lemma config_range_ordered (key : string) :
  let cfg := Lakes.config_or_default key in
  Lakes.min (Lakes.particleLifespan cfg) <= Lakes.max (Lakes.particleLifespan cfg) /\
  Lakes.min (Lakes.particleSize cfg) <= Lakes.max (Lakes.particleSize cfg).
Proof.
  unfold Lakes.config_or_default, Lakes.LAKE_CONFIG.
  repeat (match goal with
          | |- context [if ?b then _ else _] => destruct b
          end); cbn; split; lra.
Qed.

(** The constructor does read [LAKE_CONFIG]: its lifespan and size lie
    in the ranges of the configuration the lake type resolves to. *)
Lemma constructor_ranges (m : option P.MapLibre) (c : Q * Q) (t : string)
    (n n' : nat) (p : P.Particle) :
  unit_interval M ->
  P.constructor M m (Some c) (Some t) n = (Normal p, n') ->
  let cfg := Lakes.config_or_default (Lakes.getLakeConfigType t) in
  Lakes.min (Lakes.particleLifespan cfg) <= P.lifespan p <= Lakes.max (Lakes.particleLifespan cfg) /\
  Lakes.min (Lakes.particleSize cfg) <= P.size p <= Lakes.max (Lakes.particleSize cfg).
Proof.
  intros HM H cfg. destruct c as [c0 c1]. cbn in H.
  injection H as Hp _. subst p. cbn [P.lifespan P.size]. fold cfg.
  destruct (config_range_ordered (Lakes.getLakeConfigType t)) as (H1 & H2).
  fold cfg in H1, H2.
  pose proof (HM (n + 2)%nat) as [? ?]. pose proof (HM (n + 4)%nat) as [? ?].
  repeat split; nra.
Qed.

(** C4, as the code has it.  Whatever two particles were before,
    [reset()] followed by an [init] that is given a map and a centre
    completes normally and, with the same arguments and the same draws,
    leaves them equal on every property that [reset] or [init] assigns
    (size, opacity, lifespan, age, expiry flag, velocity, acceleration,
    mass, screen position, coordinates, lake type, map, colour).  The
    behaviour flags are not among them: each particle keeps its own. *)
Theorem recycle_seeded_state (m : P.MapLibre) (c : Q * Q)
    (lakeType0 : option string) (n : nat) (p1 p2 : P.Particle) :
  let r1 := P.recycle M (Some m) (Some c) lakeType0 n p1 in
  let r2 := P.recycle M (Some m) (Some c) lakeType0 n p2 in
  snd (fst r1) = Normal tt /\
  snd (fst r2) = Normal tt /\
  snd r1 = snd r2 /\
  P.seeded_state (fst (fst r1)) = P.seeded_state (fst (fst r2)) /\
  P.behaviour_flags (fst (fst r1)) = P.behaviour_flags p1 /\
  P.behaviour_flags (fst (fst r2)) = P.behaviour_flags p2.
Proof.
  unfold P.recycle, P.init. destruct c as [c0 c1].
  cbn. repeat split; reflexivity.
Qed.

(** When [init] is given no map or no centre it throws, after two draws,
    and the particle stays as [reset] left it. *)
Lemma recycle_without_map_or_centre (map0 : option P.MapLibre)
    (lakeCenter0 : option (Q * Q)) (lakeType0 : option string) (n : nat)
    (p : P.Particle) :
  map0 = None \/ lakeCenter0 = None ->
  P.recycle M map0 lakeCenter0 lakeType0 n p
  = (P.reset p, Abrupt TypeError, (n + 2)%nat).
Proof.
  unfold P.recycle, P.init.
  intros [H | H]; subst; [destruct lakeCenter0 as [[c0 c1]|]|]; reflexivity.
Qed.

End Initialisation.

(** C3 at a sacred lake: with a lifespan draw of 0, [init] gives the
    lifespan 3000, below the range 4000..5000 that [LAKE_CONFIG] has for
    the type the lake resolves to. *)
Theorem init_sacred_lifespan_outside_config :
  let cfg := Lakes.config_or_default (Lakes.getLakeConfigType "Sacred Lake") in
  let q := fst (fst (P.init Scenarios.Math0 (Some Scenarios.flat_map)
                       (Some (74.5550, 26.4850)) (Some "Sacred Lake") 0
                       Scenarios.sacred_particle)) in
  cfg = Lakes.Sacred_Lake /\
  Lakes.min (Lakes.particleLifespan cfg) == 4000 /\
  Lakes.max (Lakes.particleLifespan cfg) == 5000 /\
  P.lifespan q == 3000 /\
  P.lifespan q < Lakes.min (Lakes.particleLifespan cfg).
Proof. vm_compute. repeat split; reflexivity. Qed.

(** C4, as stated, fails on the behaviour flags: a particle that a
    salt-lake system marked [crystalline], or that a freeze boundary
    froze, is still so after [reset()] and [init], where a particle
    without that history is not. *)
Lemma recycled_particles_keep_their_flags :
  ~ (forall (M : MathObject) (map0 : option P.MapLibre)
            (lakeCenter0 : option (Q * Q)) (lakeType0 : option string)
            (n : nat) (p1 p2 : P.Particle),
        P.public_state (fst (fst (P.recycle M map0 lakeCenter0 lakeType0 n p1)))
        = P.public_state (fst (fst (P.recycle M map0 lakeCenter0 lakeType0 n p2)))).
Proof.
  intro H.
  specialize (H Scenarios.Math0 (Some Scenarios.flat_map) (Some (74.55, 34.35))
                (Some "Freshwater Lake") 0%nat
                Scenarios.salt_particle Scenarios.fresh_particle).
  vm_compute in H. discriminate.
Qed.

Example frozen_particle_stays_frozen :
  let q := fst (fst (P.recycle Scenarios.Math0 (Some Scenarios.flat_map)
                       (Some (74.55, 34.35)) (Some "Freshwater Lake") 0
                       Scenarios.frozen_particle)) in
  P.isFrozen q = Some true /\ P.frozenDuration q = Some 2500 /\
  P.isFrozen (fst (fst (P.recycle Scenarios.Math0 (Some Scenarios.flat_map)
                          (Some (74.55, 34.35)) (Some "Freshwater Lake") 0
                          Scenarios.fresh_particle))) = None.
Proof. vm_compute. auto. Qed.

(** ** The pool counters *)

Section PoolCounters.

Variable M : MathObject.

Lemma acquire_counters (map0 : option P.MapLibre) (c : option (Q * Q))
    (t : option string) (n : nat) (pl : Pool.Pool) :
  let pl' := fst (fst (Pool.acquire M map0 c t n pl)) in
  Pool.activeCount pl' = (Pool.activeCount pl + 1)%Z /\
  Pool.maxSize pl' = Pool.maxSize pl /\
  length (Pool.pool pl') = Nat.pred (length (Pool.pool pl)).
Proof.
  unfold Pool.acquire.
  pose proof (pop_length (Pool.pool pl)) as Hlen.
  destruct (pop (Pool.pool pl)) as [popped rest]. cbn [snd] in Hlen.
  destruct popped as [p|].
  - destruct (P.init M map0 c t n p) as [[p' [u|e]] n2]; cbn; auto.
  - cbn [P.constructor]. cbn. auto.
Qed.

Lemma release_counters (particle : P.Particle) (pl : Pool.Pool) :
  let pl' := Pool.release particle pl in
  Pool.activeCount pl' = (Pool.activeCount pl - 1)%Z /\
  Pool.maxSize pl' = Pool.maxSize pl /\
  (Z.of_nat (length (Pool.pool pl'))
   <= Z.max (Z.of_nat (length (Pool.pool pl))) (Pool.maxSize pl))%Z /\
  (length (Pool.pool pl) <= length (Pool.pool pl'))%nat.
Proof.
  unfold Pool.release. cbn.
  destruct (Z.of_nat (length (Pool.pool pl)) <? Pool.maxSize pl)%Z eqn:E.
  - rewrite length_push. apply Z.ltb_lt in E. repeat split; lia.
  - repeat split; lia.
Qed.

(** A release made when the free list is full leaves the free list as
    it is. *)
Lemma release_on_full_pool (particle : P.Particle) (pl : Pool.Pool) :
  Z.of_nat (length (Pool.pool pl)) = Pool.maxSize pl ->
  Pool.pool (Pool.release particle pl) = Pool.pool pl.
Proof.
  intro H. unfold Pool.release. cbn. rewrite H, Z.ltb_irrefl. reflexivity.
Qed.

(** C5, as the code has it.  Over any sequence of [acquire] and
    [release] calls, from any state of the pool, [activeCount] moves by
    the number of acquires minus the number of releases (so from a new
    pool it is that difference, and it is non-negative exactly as long
    as no more particles were released than acquired); [maxSize] stays;
    and the free list never grows beyond the larger of its initial
    length and [maxSize], so that a release on a full free list does
    not enlarge it. *)
Theorem pool_counters (calls : list Pool.call) (pl : Pool.Pool) (n : nat) :
  let pl' := fst (Pool.run M calls (pl, n)) in
  Pool.activeCount pl'
  = (Pool.activeCount pl + Pool.acquires calls - Pool.releases calls)%Z /\
  Pool.maxSize pl' = Pool.maxSize pl /\
  (Z.of_nat (length (Pool.pool pl'))
   <= Z.max (Z.of_nat (length (Pool.pool pl))) (Pool.maxSize pl))%Z.
Proof.
  revert pl n. induction calls as [|c rest IH]; intros pl n.
  - cbn. unfold Pool.acquires, Pool.releases. cbn. repeat split; lia.
  - cbn [Pool.run Pool.step].
    destruct c as [map0 c0 t0 | particle].
    + pose proof (acquire_counters map0 c0 t0 n pl) as (Ha & Hm & Hl).
      destruct (Pool.acquire M map0 c0 t0 n pl) as [[pl1 c1] n1].
      cbn [fst] in Ha, Hm, Hl.
      specialize (IH pl1 n1). cbn zeta in IH. destruct IH as (IHa & IHm & IHl).
      unfold Pool.acquires, Pool.releases in *. cbn [filter Pool.is_acquire negb length].
      rewrite IHa, IHm, Ha, Hm. repeat split; lia.
    + pose proof (release_counters particle pl) as (Ha & Hm & Hl & _).
      cbn zeta in Ha, Hm, Hl.
      specialize (IH (Pool.release particle pl) n). cbn zeta in IH.
      destruct IH as (IHa & IHm & IHl).
      unfold Pool.acquires, Pool.releases in *. cbn [filter Pool.is_acquire negb length].
      rewrite IHa, IHm, Ha, Hm. repeat split; lia.
Qed.

(** A pool can only be constructed with an empty free list: the
    preallocation of a positive size calls [new Particle3D()], which
    throws. *)
Lemma constructor_new_pool (size0 : Z) (n n' : nat) (pl : Pool.Pool) :
  Pool.constructor M size0 n = (Normal pl, n') ->
  Pool.pool pl = [] /\ Pool.maxSize pl = size0 /\ Pool.activeCount pl = 0%Z /\
  (size0 <= 0)%Z.
Proof.
  unfold Pool.constructor.
  destruct (Z.to_nat (Z.min size0 500)) as [|k] eqn:E.
  - cbn. intro H. injection H as H _. subst pl. cbn. repeat split; lia.
  - cbn. discriminate.
Qed.

(** What [acquire] hands out went through [init]: it carries the
    boolean expiry flag [false]. *)
Lemma acquire_gives_own_flag (map0 : option P.MapLibre) (c : option (Q * Q))
    (t : option string) (n : nat) (pl : Pool.Pool) (p : P.Particle) :
  snd (fst (Pool.acquire M map0 c t n pl)) = Normal p ->
  P.isExpired p = P.OwnBoolean false.
Proof.
  unfold Pool.acquire.
  destruct (pop (Pool.pool pl)) as [[p0|] rest]; [|cbn; discriminate].
  unfold P.init.
  destruct c as [[c0 c1]|]; [|cbn; discriminate].
  destruct map0 as [m|]; [|cbn; discriminate].
  cbn. intro H. injection H as H. subst p. reflexivity.
Qed.

End PoolCounters.

(** C5, as stated, fails on its first half: a release on a new pool
    takes [activeCount] to -1. *)
Lemma release_on_new_pool_goes_negative :
  ~ (forall (M : MathObject) (size0 : Z) (n n' : nat) (pl : Pool.Pool)
            (calls : list Pool.call),
        Pool.constructor M size0 n = (Normal pl, n') ->
        (0 <= Pool.activeCount (fst (Pool.run M calls (pl, n'))))%Z).
Proof.
  intro H.
  destruct (Pool.constructor Scenarios.Math0 0 0) as [c n'] eqn:E.
  vm_compute in E. injection E as Hc Hn. subst c n'.
  specialize (H Scenarios.Math0 0%Z 0%nat 0%nat _
                [Pool.Release Scenarios.sacred_particle] eq_refl).
  vm_compute in H. apply H. reflexivity.
Qed.

Example acquire_on_empty_pool_throws :
  snd (fst (Pool.acquire Scenarios.Math0 (Some Scenarios.flat_map)
              (Some (74.55, 34.35)) (Some "Freshwater Lake") 0
              {| Pool.pool := []; Pool.maxSize := 2000; Pool.activeCount := 0;
                 Pool.totalCreated := 0; Pool.totalReused := 0 |}))
  = Abrupt TypeError.
Proof. reflexivity. Qed.

(** ** The update step of a particle system *)

Section SystemUpdate.

Variable M : MathObject.
Variable SM : P.StateManager_binding.

Lemma filter_alive_lengths (delta : Q) (ps : list P.Particle) :
  length (fst (PS.filter_alive SM delta ps)) = length ps /\
  match snd (PS.filter_alive SM delta ps) with
  | Normal kept => (length kept <= length ps)%nat
  | Abrupt _ => True
  end.
Proof.
  induction ps as [|p rest IH]; [cbn; auto|].
  cbn [PS.filter_alive].
  destruct (P.update SM delta p) as [p1 [b|e]]; [|cbn; auto].
  destruct (P.call_isExpired p1) as [expired|e]; [|cbn; auto].
  destruct (PS.filter_alive SM delta rest) as [rest1 [kept|e]];
    cbn [fst snd length] in *; destruct IH as [IH1 IH2]; split; auto.
  destruct expired; cbn [length]; lia.
Qed.

(** A particle whose expiry flag is an own boolean makes the callback of
    [filter] throw: either [update] throws on its way to
    [_calculateOpacity], or it returns and [p.isExpired()] calls a
    boolean. *)
Lemma filter_alive_own_flag_throws (delta : Q) (p : P.Particle)
    (rest : list P.Particle) (b : bool) :
  P.isExpired p = P.OwnBoolean b ->
  is_abrupt (snd (PS.filter_alive SM delta (p :: rest))) = true.
Proof.
  intro H. cbn [PS.filter_alive]. unfold P.update. rewrite H.
  destruct b; cbn [P.truthy].
  - unfold P.call_isExpired. rewrite H. reflexivity.
  - destruct (Qgtb _ _); [reflexivity|].
    destruct SM as [|fc]; [reflexivity|].
    destruct (fc && _ && _).
    + cbn. destruct (P.velocity p); reflexivity.
    + unfold P.integrate_position. cbn.
      destruct (P.position p); [|reflexivity].
      cbn. destruct (P.velocity p); reflexivity.
Qed.

(** When the filter completes, every particle of the array carries the
    method [isExpired] of the prototype, [update] has left each of them
    as it was, and the particles kept are those whose age is below
    their lifespan. *)
Lemma filter_alive_normal (delta : Q) (ps kept : list P.Particle) :
  snd (PS.filter_alive SM delta ps) = Normal kept ->
  Forall (fun p => P.isExpired p = P.PrototypeMethod) ps /\
  fst (PS.filter_alive SM delta ps) = ps /\
  kept = filter (fun p => negb (Qgeb (P.age p) (P.lifespan p))) ps.
Proof.
  revert kept. induction ps as [|p rest IH]; intros kept H.
  - cbn in *. injection H as <-. auto.
  - cbn [PS.filter_alive] in *.
    destruct (P.isExpired p) as [|b] eqn:E.
    + rewrite (update_of_constructed SM delta p E) in *.
      unfold P.call_isExpired in *. rewrite E in *.
      destruct (PS.filter_alive SM delta rest) as [rest1 [kept1|e]];
        cbn [fst snd] in *; [|discriminate].
      destruct (IH kept1 eq_refl) as (H1 & H2 & H3).
      injection H as <-. subst rest1 kept1.
      split; [constructor; assumption|]. split; [reflexivity|].
      cbn [filter]. destruct (Qgeb (P.age p) (P.lifespan p)); reflexivity.
    + exfalso.
      pose proof (filter_alive_own_flag_throws delta p rest b E) as Ht.
      cbn [PS.filter_alive] in Ht.
      destruct (P.update SM delta p) as [p1 [r|e]]; [|discriminate].
      destruct (P.call_isExpired p1) as [expired|e]; [|discriminate].
      destruct (PS.filter_alive SM delta rest) as [rest1 [kept1|e]];
        cbn [snd] in *; discriminate.
Qed.

Lemma update_own_flag_throws (delta : Q) (w : PS.World) (s : PS.System)
    (p : P.Particle) (rest : list P.Particle) (b : bool) :
  PS.active s = true ->
  PS.particles s = p :: rest ->
  P.isExpired p = P.OwnBoolean b ->
  is_abrupt (snd (PS.update M SM delta w s)) = true.
Proof.
  intros Ha Hp Hb. unfold PS.update. rewrite Ha, Hp. cbn [negb].
  pose proof (filter_alive_own_flag_throws delta p rest b Hb) as H.
  destruct (PS.filter_alive SM delta (p :: rest)) as [touched [kept|e]];
    [discriminate|reflexivity].
Qed.

Lemma generate_particles (count : nat) (w : PS.World) (s : PS.System) :
  let r := PS.generate M count w s in
  PS.particleLimit (fst (fst r)) = PS.particleLimit s /\
  PS.active (fst (fst r)) = PS.active s /\
  (length (PS.particles s) <= length (PS.particles (fst (fst r))))%nat /\
  (length (PS.particles (fst (fst r))) <= length (PS.particles s) + count)%nat /\
  (snd r = Normal tt ->
   length (PS.particles (fst (fst r))) = (length (PS.particles s) + count)%nat).
Proof.
  revert w s. induction count as [|k IH]; intros w s.
  - cbn. repeat split; auto; lia.
  - cbn [PS.generate].
    destruct (PS.obtainParticle M w s) as [w1 [p|e]].
    + specialize (IH w1 (PS.set_particles (push (PS.particles s) (PS.customizeParticle s p)) s)).
      cbn zeta in IH. cbn [PS.set_particles PS.particleLimit PS.active PS.particles] in IH.
      rewrite length_push in IH. destruct IH as (H1 & H2 & H3 & H4 & H5).
      repeat split; auto; try lia. intro Hn. rewrite (H5 Hn). lia.
    + cbn. repeat split; auto; try lia. discriminate.
Qed.

(** [generateParticles] only appends to the array. *)
Lemma generate_appends (count : nat) (w : PS.World) (s : PS.System) :
  exists made : list P.Particle,
    PS.particles (fst (fst (PS.generate M count w s))) = PS.particles s ++ made.
Proof.
  revert w s. induction count as [|k IH]; intros w s.
  - exists []. cbn. rewrite app_nil_r. reflexivity.
  - cbn [PS.generate].
    destruct (PS.obtainParticle M w s) as [w1 [p|e]].
    + destruct (IH w1 (PS.set_particles (push (PS.particles s) (PS.customizeParticle s p)) s))
        as [made Hmade].
      exists (PS.customizeParticle s p :: made). rewrite Hmade.
      cbn [PS.set_particles PS.particles]. unfold push.
      rewrite <- app_assoc. reflexivity.
    + exists []. cbn. rewrite app_nil_r. reflexivity.
Qed.

(** When the filter completes, the particles it keeps are those for
    which [isExpired()] returned false. *)
Lemma filter_alive_kept (delta : Q) (ps kept : list P.Particle) :
  snd (PS.filter_alive SM delta ps) = Normal kept ->
  kept = filter (fun p => match P.call_isExpired p with
                          | Normal false => true
                          | _ => false
                          end) ps.
Proof.
  intro H. destruct (filter_alive_normal delta ps kept H) as (Hall & _ & ->).
  apply filter_ext_in. intros p Hin.
  rewrite Forall_forall in Hall. unfold P.call_isExpired. rewrite (Hall p Hin).
  destruct (Qgeb (P.age p) (P.lifespan p)); reflexivity.
Qed.

(** C6, as the code has it.  A tick that starts with at most
    [particleLimit] particles ends with at most [particleLimit]
    particles, whether it completes or throws; the limit itself is not
    changed.  When the filter completes, the array after the tick is
    made of the particles for which [isExpired()] returned false, in
    their order, followed by the new particles: at most
    [min(10, particleLimit - kept)] of them, exactly that many when the
    tick completes.  Nothing is removed besides expired particles. *)
Theorem update_keeps_limit (delta : Q) (w : PS.World) (s : PS.System) :
  (Z.of_nat (length (PS.particles s)) <= PS.particleLimit s)%Z ->
  let r := PS.update M SM delta w s in
  let len' := Z.of_nat (length (PS.particles (fst (fst r)))) in
  PS.particleLimit (fst (fst r)) = PS.particleLimit s /\
  (len' <= PS.particleLimit s)%Z /\
  (PS.active s = true ->
   match snd (PS.filter_alive SM delta (PS.particles s)) with
   | Abrupt _ => len' = Z.of_nat (length (PS.particles s))
   | Normal kept =>
     let shortfall := (PS.particleLimit s - Z.of_nat (length kept))%Z in
     kept = filter (fun p => match P.call_isExpired p with
                             | Normal false => true
                             | _ => false
                             end) (PS.particles s) /\
     exists made : list P.Particle,
       PS.particles (fst (fst r)) = kept ++ made /\
       (Z.of_nat (length made) <= Z.max 0 (Z.min 10 shortfall))%Z /\
       (snd r = Normal tt ->
        Z.of_nat (length made) = Z.max 0 (Z.min 10 shortfall))
   end).
Proof.
  intros Hlim. unfold PS.update.
  destruct (PS.active s) eqn:Hact; cbn [negb].
  2:{ cbn. split; [reflexivity|]. split; [exact Hlim|]. discriminate. }
  pose proof (filter_alive_lengths delta (PS.particles s)) as [Hlen Hkept].
  pose proof (filter_alive_kept delta (PS.particles s)) as Hfilter.
  destruct (PS.filter_alive SM delta (PS.particles s)) as [touched [kept|e]];
    cbn [fst snd] in *.
  2:{ cbn. rewrite Hlen. split; [reflexivity|]. split; [exact Hlim|].
      intros _. reflexivity. }
  specialize (Hfilter kept eq_refl).
  cbn [PS.set_particles PS.particleLimit].
  destruct (Z.of_nat (length kept) <? PS.particleLimit s)%Z eqn:E.
  - apply Z.ltb_lt in E. unfold PS.generateParticles.
    pose proof (generate_particles
                  (Z.to_nat (Z.min 10 (PS.particleLimit s - Z.of_nat (length kept))))
                  w (PS.set_particles kept s)) as H.
    destruct (generate_appends
                (Z.to_nat (Z.min 10 (PS.particleLimit s - Z.of_nat (length kept))))
                w (PS.set_particles kept s)) as [made Hmade].
    cbn zeta in H. cbn [PS.set_particles PS.particleLimit PS.active PS.particles] in H, Hmade.
    destruct (PS.generate M _ w (PS.set_particles kept s)) as [[s2 w2] [u|e]];
      cbn [fst snd] in *; destruct H as (H1 & H2 & H3 & H4 & H5).
    + cbn [PS.set_frameCount PS.particleLimit PS.particles fst snd].
      specialize (H5 ltac:(destruct u; reflexivity)).
      pose proof (f_equal (@length _) Hmade) as Hl. rewrite length_app in Hl.
      split; [exact H1|]. split; [lia|]. intros _.
      split; [exact Hfilter|]. exists made.
      split; [exact Hmade|]. split; [lia|]. intros _. lia.
    + pose proof (f_equal (@length _) Hmade) as Hl. rewrite length_app in Hl.
      split; [exact H1|]. split; [lia|]. intros _.
      split; [exact Hfilter|]. exists made.
      split; [exact Hmade|]. split; [lia|]. discriminate.
  - apply Z.ltb_ge in E.
    cbn [PS.set_frameCount PS.set_particles PS.particleLimit PS.particles fst snd].
    split; [reflexivity|]. split; [lia|]. intros _.
    split; [exact Hfilter|]. exists [].
    split; [rewrite app_nil_r; reflexivity|]. cbn [length]. split; [lia|]. intros _. lia.
Qed.

Lemma update_systems_throws (delta : Q) (s : PS.System)
    (rest : list PS.System) (w : PS.World) (g : SG.Grid) :
  is_abrupt (snd (PS.update M SM delta w s)) = true ->
  is_abrupt (snd (FrameDriver.update_systems M SM delta (s :: rest) w g)) = true.
Proof.
  intro H. cbn [FrameDriver.update_systems].
  destruct (PS.update M SM delta w s) as [[s1 w1] [u|e]]; [discriminate|reflexivity].
Qed.

Lemma updateParticleSystems_stops (delta : Q) (low : bool) (f : FrameDriver.Frame) :
  is_abrupt (snd (FrameDriver.update_systems M SM delta (FrameDriver.systems f)
                    (FrameDriver.world f) (SG.clear (FrameDriver.spatialGrid f))))
  = true ->
  let r := FrameDriver.updateParticleSystems M SM delta low f in
  is_abrupt (snd r) = true /\ FrameDriver.nextFrameRequested (fst r) = false.
Proof.
  intro H. unfold FrameDriver.updateParticleSystems.
  destruct (FrameDriver.update_systems M SM delta _ _ _) as [[[ss w] g] [u|e]];
    [discriminate|]. cbn. auto.
Qed.

End SystemUpdate.

(** The calm system of the scenarios: two live particles, limit 1000;
    the tick keeps both and adds ten. *)
Lemma update_keeps_limit_witness :
  let s := Scenarios.calm_system in
  let r := PS.update Scenarios.Math0 P.Undeclared 16 Scenarios.world_without_pool s in
  let len' := Z.of_nat (length (PS.particles (fst (fst r)))) in
  PS.particleLimit (fst (fst r)) = PS.particleLimit s /\
  (len' <= PS.particleLimit s)%Z /\
  (PS.active s = true ->
   match snd (PS.filter_alive P.Undeclared 16 (PS.particles s)) with
   | Abrupt _ => len' = Z.of_nat (length (PS.particles s))
   | Normal kept =>
     let shortfall := (PS.particleLimit s - Z.of_nat (length kept))%Z in
     kept = filter (fun p => match P.call_isExpired p with
                             | Normal false => true
                             | _ => false
                             end) (PS.particles s) /\
     exists made : list P.Particle,
       PS.particles (fst (fst r)) = kept ++ made /\
       (Z.of_nat (length made) <= Z.max 0 (Z.min 10 shortfall))%Z /\
       (snd r = Normal tt ->
        Z.of_nat (length made) = Z.max 0 (Z.min 10 shortfall))
   end).
Proof.
  apply (update_keeps_limit Scenarios.Math0 P.Undeclared 16
           Scenarios.world_without_pool Scenarios.calm_system).
  vm_compute. discriminate.
Defined.

Example calm_system_replenished :
  let r := PS.update Scenarios.Math0 P.Undeclared 16
             Scenarios.world_without_pool Scenarios.calm_system in
  snd r = Normal tt /\ length (PS.particles (fst (fst r))) = 12%nat /\
  PS.particleLimit (fst (fst r)) = 1000%Z.
Proof. vm_compute. auto. Qed.

Example sacred_system_holds_pooled_particle :
  snd Scenarios.sacred_generation = Normal tt /\
  PS.active Scenarios.sacred_system = true /\
  length (PS.particles Scenarios.sacred_system) = 1%nat /\
  List.map P.isExpired (PS.particles Scenarios.sacred_system)
  = [P.OwnBoolean false] /\
  List.map P.glowIntensity (PS.particles Scenarios.sacred_system) = [Some 1.5].
Proof. vm_compute. auto. Qed.

(** C2 at an active system whose one particle came from
    [pool.acquire]: the tick throws, however [StateManager] resolves
    inside [Particle3D.js] and whatever the time step is; the driver
    [updateParticleSystems] passes the exception on and does not request
    the next animation frame. *)
Theorem pooled_particle_update_throws :
  forall (SM : P.StateManager_binding) (delta : Q) (low : bool),
    is_abrupt (snd (PS.update Scenarios.Math0 SM delta
                      Scenarios.sacred_world Scenarios.sacred_system))
    = true /\
    let r := FrameDriver.updateParticleSystems Scenarios.Math0 SM delta low
               Scenarios.sacred_frame in
    is_abrupt (snd r) = true /\ FrameDriver.nextFrameRequested (fst r) = false.
Proof.
  intros SM delta low.
  assert (H : is_abrupt (snd (PS.update Scenarios.Math0 SM delta
                                Scenarios.sacred_world Scenarios.sacred_system))
              = true).
  { apply (update_own_flag_throws Scenarios.Math0 SM delta
             Scenarios.sacred_world Scenarios.sacred_system
             (hd Scenarios.blank (PS.particles Scenarios.sacred_system))
             (tl (PS.particles Scenarios.sacred_system)) false);
      vm_compute; reflexivity. }
  split; [exact H|].
  apply updateParticleSystems_stops.
  apply (update_systems_throws Scenarios.Math0 SM delta Scenarios.sacred_system []).
  exact H.
Qed.

Example pooled_particle_update_errors :
  snd (PS.update Scenarios.Math0 P.Undeclared 16.67
         Scenarios.sacred_world Scenarios.sacred_system)
  = Abrupt ReferenceError /\
  snd (PS.update Scenarios.Math0 (P.Declared false) 16.67
         Scenarios.sacred_world Scenarios.sacred_system)
  = Abrupt TypeError /\
  snd (PS.update Scenarios.Math0 (P.Declared false) 5000
         Scenarios.sacred_world Scenarios.sacred_system)
  = Abrupt TypeError.
Proof. vm_compute. auto. Qed.

(** C6, as stated, fails on the overflow: a system that holds more live
    particles than its limit keeps all of them. *)
Lemma overflow_is_not_trimmed :
  ~ (forall (M : MathObject) (SM : P.StateManager_binding) (delta : Q)
            (w : PS.World) (s : PS.System),
        (Z.of_nat (length (PS.particles (fst (fst (PS.update M SM delta w s)))))
         <= PS.particleLimit (fst (fst (PS.update M SM delta w s))))%Z).
Proof.
  intro H.
  specialize (H Scenarios.Math0 P.Undeclared 16
                Scenarios.world_without_pool Scenarios.crowded_system).
  vm_compute in H. apply H. reflexivity.
Qed.

Example crowded_system_completes :
  let r := PS.update Scenarios.Math0 P.Undeclared 16
             Scenarios.world_without_pool Scenarios.crowded_system in
  snd r = Normal tt /\ length (PS.particles (fst (fst r))) = 2%nat /\
  PS.particleLimit (fst (fst r)) = 1%Z.
Proof. vm_compute. auto. Qed.

(** ** Queries on the spatial grid *)

Lemma key_eqb_eq (a b : SG.Key) : SG.key_eqb a b = true <-> a = b.
Proof.
  destruct a as [a1 a2], b as [b1 b2]. unfold SG.key_eqb. cbn.
  rewrite andb_true_iff, !Z.eqb_eq. split.
  - intros [-> ->]. reflexivity.
  - intro H. injection H as -> ->. auto.
Qed.

Lemma key_eqb_refl (a : SG.Key) : SG.key_eqb a a = true.
Proof. apply key_eqb_eq. reflexivity. Qed.

Lemma has_In (s : list SG.Key) (k : SG.Key) : SG.has s k = true <-> In k s.
Proof.
  unfold SG.has. rewrite existsb_exists. split.
  - intros (a & Ha & E). apply key_eqb_eq in E. subst. exact Ha.
  - intro H. exists k. split; [exact H|apply key_eqb_refl].
Qed.

Lemma set_add_In (a k : SG.Key) (s : list SG.Key) :
  In k (SG.set_add a s) <-> k = a \/ In k s.
Proof.
  unfold SG.set_add. destruct (existsb (SG.key_eqb a) s) eqn:E.
  - split; [auto|]. intros [-> | H]; [|exact H].
    apply has_In. exact E.
  - rewrite in_app_iff. cbn. intuition.
Qed.

Lemma interval_In (lo hi z : Z) : In z (SG.interval lo hi) <-> (lo <= z <= hi)%Z.
Proof.
  unfold SG.interval. rewrite in_map_iff. split.
  - intros (i & <- & Hi). apply in_seq in Hi. lia.
  - intro H. exists (Z.to_nat (z - lo)). split; [lia|].
    apply in_seq. lia.
Qed.

(** The keys that the two loops of [updateVisibleCells] add: the key of
    the corner [(x * cellSize, y * cellSize)] for every pair of
    indices. *)
Lemma scan_row_keys (g : SG.Grid) (x : Z) (ys : list Z) (acc : list SG.Key)
    (k : SG.Key) :
  In k (fold_left
          (fun acc' y =>
             SG.set_add (SG.key g (inject_Z x * SG.cellSize g)
                                  (inject_Z y * SG.cellSize g)) acc')
          ys acc)
  <-> In k acc \/
      exists y : Z,
        In y ys /\
        k = SG.key g (inject_Z x * SG.cellSize g) (inject_Z y * SG.cellSize g).
Proof.
  revert acc. induction ys as [|y ys IH]; intro acc; cbn [fold_left].
  - cbn. split; [auto | intros [H | (y & [] & _)]; exact H].
  - rewrite IH, set_add_In. cbn [In]. split.
    + intros [[H | H] | (y' & Hy & H)]; auto.
      * right. exists y. auto.
      * right. exists y'. auto.
    + intros [H | (y' & [Hy | Hy] & H)]; auto.
      * subst y'. auto.
      * right. exists y'. auto.
Qed.

Lemma scan_rows_keys (g : SG.Grid) (xs ys : list Z) (acc : list SG.Key)
    (k : SG.Key) :
  In k (fold_left
          (fun acc x =>
             fold_left
               (fun acc' y =>
                  SG.set_add (SG.key g (inject_Z x * SG.cellSize g)
                                       (inject_Z y * SG.cellSize g)) acc')
               ys acc)
          xs acc)
  <-> In k acc \/
      exists x y : Z,
        In x xs /\ In y ys /\
        k = SG.key g (inject_Z x * SG.cellSize g) (inject_Z y * SG.cellSize g).
Proof.
  revert acc. induction xs as [|x xs IH]; intro acc; cbn [fold_left].
  - cbn. split; [auto | intros [H | (x & y & [] & _)]; exact H].
  - rewrite IH, scan_row_keys. cbn [In]. split.
    + intros [[H | (y & Hy & H)] | (x' & y & Hx & Hy & H)]; auto.
      * right. exists x, y. auto.
      * right. exists x', y. auto.
    + intros [H | (x' & y & [Hx | Hx] & Hy & H)]; auto.
      * subst x'. left. right. exists y. auto.
      * right. exists x', y. auto.
Qed.

Lemma visible_cells_keys (g : SG.Grid) (b : SG.Bounds) (k : SG.Key) :
  In k (SG.visibleCells (SG.updateVisibleCells (Some b) g))
  <-> exists x y : Z,
        (Qfloor (SG.left b / SG.cellSize g) <= x
         <= Qceiling (SG.right b / SG.cellSize g))%Z /\
        (Qfloor (SG.top b / SG.cellSize g) <= y
         <= Qceiling (SG.bottom b / SG.cellSize g))%Z /\
        k = SG.key g (inject_Z x * SG.cellSize g) (inject_Z y * SG.cellSize g).
Proof.
  cbn [SG.updateVisibleCells SG.visibleCells].
  rewrite scan_rows_keys. cbn [In]. split.
  - intros [[] | (x & y & Hx & Hy & H)].
    apply interval_In in Hx. apply interval_In in Hy. exists x, y. auto.
  - intros (x & y & Hx & Hy & H). right. exists x, y.
    rewrite !interval_In. auto.
Qed.

Section GridQueries.

Variable g : SG.Grid.
Hypothesis cell_positive : 0 < SG.cellSize g.

(** The corner of the cell with indices [(x, y)] lies in that cell. *)
Lemma key_of_corner (x y : Z) :
  SG.key g (inject_Z x * SG.cellSize g) (inject_Z y * SG.cellSize g) = (x, y).
Proof.
  unfold SG.key.
  assert (Hnz : ~ SG.cellSize g == 0) by lra.
  rewrite (Qfloor_comp _ _ (Qdiv_mult_l (inject_Z x) _ Hnz)).
  rewrite (Qfloor_comp _ _ (Qdiv_mult_l (inject_Z y) _ Hnz)).
  rewrite !Qfloor_Z. reflexivity.
Qed.

Lemma scan_row (x : Z) (ys : list Z) (acc : list SG.Key) (k : SG.Key) :
  In k (fold_left
          (fun acc' y =>
             SG.set_add (SG.key g (inject_Z x * SG.cellSize g)
                                  (inject_Z y * SG.cellSize g)) acc')
          ys acc)
  <-> In k acc \/ (fst k = x /\ In (snd k) ys).
Proof.
  revert acc. induction ys as [|y ys IH]; intro acc; cbn [fold_left].
  - cbn. tauto.
  - rewrite IH, key_of_corner, set_add_In. destruct k as [k1 k2]. cbn.
    split.
    + intros [[H | H] | [H1 H2]]; auto.
      injection H as -> ->. auto.
    + intros [H | [H1 [H2 | H2]]]; subst; auto.
Qed.

Lemma scan_rows (xs ys : list Z) (acc : list SG.Key) (k : SG.Key) :
  In k (fold_left
          (fun acc x =>
             fold_left
               (fun acc' y =>
                  SG.set_add (SG.key g (inject_Z x * SG.cellSize g)
                                       (inject_Z y * SG.cellSize g)) acc')
               ys acc)
          xs acc)
  <-> In k acc \/ (In (fst k) xs /\ In (snd k) ys).
Proof.
  revert acc. induction xs as [|x xs IH]; intro acc; cbn [fold_left].
  - cbn. tauto.
  - rewrite IH, scan_row. cbn. split.
    + intros [[H | [H1 H2]] | [H1 H2]]; auto.
    + intros [H | [[H1 | H1] H2]]; auto.
Qed.

(** The visible set is the scanned range of cell indices. *)
Lemma visible_cells_scanned (b : SG.Bounds) (k : SG.Key) :
  SG.has (SG.visibleCells (SG.updateVisibleCells (Some b) g)) k
  = SG.in_scanned_range (SG.cellSize g) b k.
Proof.
  apply eq_true_iff_eq. rewrite has_In.
  cbn [SG.updateVisibleCells SG.visibleCells].
  rewrite scan_rows, !interval_In. unfold SG.in_scanned_range.
  rewrite !andb_true_iff, !Z.leb_le. cbn. tauto.
Qed.

End GridQueries.

Lemma collect_gather (visible : list SG.Key)
    (cells : list (SG.Key * list P.Particle)) :
  fst (SG.collect visible cells) = SG.gather (SG.has visible) cells.
Proof.
  induction cells as [|[k ps] rest IH]; [reflexivity|].
  cbn [SG.collect SG.gather].
  destruct (SG.collect visible rest) as [result culled]. cbn [fst] in IH.
  destruct (SG.has visible k); cbn [fst]; rewrite IH; reflexivity.
Qed.

Lemma gather_add_to_cell (f : SG.Key -> bool) (k : SG.Key) (p : P.Particle)
    (cells : list (SG.Key * list P.Particle)) :
  Permutation (SG.gather f (SG.add_to_cell k p cells))
              (if f k then p :: SG.gather f cells else SG.gather f cells).
Proof.
  induction cells as [|[k' ps] rest IH]; cbn [SG.add_to_cell SG.gather].
  - destruct (f k); reflexivity.
  - destruct (SG.key_eqb k' k) eqn:E.
    + apply key_eqb_eq in E. subst k'. cbn [SG.gather].
      destruct (f k); [|reflexivity].
      unfold push. rewrite <- app_assoc. cbn.
      symmetry. apply Permutation_middle.
    + cbn [SG.gather]. destruct (f k'), (f k); auto.
      * rewrite IH. symmetry. apply Permutation_middle.
      * apply Permutation_app_head. exact IH.
Qed.

Lemma insert_cellSize (o : option P.Particle) (g : SG.Grid) :
  SG.cellSize (SG.insert o g) = SG.cellSize g.
Proof.
  destruct o as [p|]; [|reflexivity]. cbn.
  destruct (P.position p); reflexivity.
Qed.

Lemma cell_of_cellSize (g g' : SG.Grid) (p : P.Particle) :
  SG.cellSize g = SG.cellSize g' -> SG.cell_of g p = SG.cell_of g' p.
Proof. unfold SG.cell_of, SG.key. intros ->. reflexivity. Qed.

Lemma gather_insert_all (f : SG.Key -> bool) (ps : list P.Particle) (g : SG.Grid) :
  SG.cellSize (SG.insert_all ps g) = SG.cellSize g /\
  Permutation
    (SG.gather f (SG.grid (SG.insert_all ps g)))
    (SG.gather f (SG.grid g)
     ++ filter (fun p => SG.insertable p && f (SG.cell_of g p)) ps).
Proof.
  revert g. induction ps as [|p ps IH]; intro g.
  - cbn. rewrite app_nil_r. split; reflexivity.
  - change (SG.insert_all (p :: ps) g) with (SG.insert_all ps (SG.insert (Some p) g)).
    destruct (IH (SG.insert (Some p) g)) as [Hc Hp].
    rewrite insert_cellSize in Hc. split; [exact Hc|].
    rewrite Hp. clear Hp IH.
    rewrite (filter_ext
               (fun q => SG.insertable q && f (SG.cell_of (SG.insert (Some p) g) q))
               (fun q => SG.insertable q && f (SG.cell_of g q)))
      by (intro q; rewrite (cell_of_cellSize _ g q (insert_cellSize (Some p) g));
          reflexivity).
    cbn [filter]. unfold SG.insertable at 2. cbn [SG.insert].
    destruct (P.position p) as [pos|]; cbn [andb SG.grid]; [|reflexivity].
    pose proof (gather_add_to_cell f (SG.cell_of g p) p (SG.grid g)) as H.
    destruct (f (SG.cell_of g p)).
    + rewrite H. cbn. apply Permutation_middle.
    + rewrite H. reflexivity.
Qed.

Lemma query_gathers (b : SG.Bounds) (ps : list P.Particle) (cs : Q) :
  let g := SG.constructor cs in
  Permutation
    (snd (SG.query (Some b) (SG.insert_all ps g)))
    (filter (fun p => SG.insertable p
                      && SG.has (SG.visibleCells (SG.updateVisibleCells (Some b) g))
                                (SG.cell_of g p))
            ps).
Proof.
  intros g0. set (g := SG.insert_all ps g0).
  destruct (gather_insert_all
              (SG.has (SG.visibleCells (SG.updateVisibleCells (Some b) g)))
              ps g0) as [Hc Hp].
  fold g in Hc, Hp. subst g0.
  cbn [SG.constructor SG.cellSize SG.grid SG.gather app] in Hc, Hp.
  unfold SG.query.
  pose proof (collect_gather (SG.visibleCells (SG.updateVisibleCells (Some b) g))
                (SG.grid (SG.updateVisibleCells (Some b) g))) as Hg.
  destruct (SG.collect _ _) as [result culled]. cbn [fst snd] in *.
  rewrite Hg. change (SG.grid (SG.updateVisibleCells (Some b) g)) with (SG.grid g).
  rewrite Hp.
  assert (Hvis : SG.visibleCells (SG.updateVisibleCells (Some b) g)
                 = SG.visibleCells (SG.updateVisibleCells (Some b) (SG.constructor cs))).
  { cbn [SG.updateVisibleCells SG.visibleCells]. unfold SG.key. rewrite Hc.
    reflexivity. }
  rewrite Hvis. reflexivity.
Qed.

(** C7, as the code has it.  After the particles [ps] have been inserted
    into a new grid with a positive cell size, [query(bounds)] returns,
    each as often as it was inserted, exactly the inserted particles
    whose cell key is among the keys that [updateVisibleCells] stored:
    the keys of the corners [(x * c, y * c)] of the index pairs of the
    scanned range
    [floor(left/c) .. ceil(right/c)] x [floor(top/c) .. ceil(bottom/c)].
    For an integer cell size, such as the default of 100, where the
    key of such a corner is the pair [(x, y)] itself, these are the
    particles whose cell indices lie in the scanned range, and every
    cell that intersects the viewport lies in that range. *)
Theorem query_scanned_range (cs : Q) (b : SG.Bounds) (ps : list P.Particle) :
  0 < cs ->
  let g := SG.constructor cs in
  let visible := SG.visibleCells (SG.updateVisibleCells (Some b) g) in
  let result := snd (SG.query (Some b) (SG.insert_all ps g)) in
  Permutation result
    (filter (fun p => SG.insertable p && SG.has visible (SG.cell_of g p)) ps) /\
  (forall k : SG.Key,
     In k visible <->
     exists x y : Z,
       (Qfloor (SG.left b / cs) <= x <= Qceiling (SG.right b / cs))%Z /\
       (Qfloor (SG.top b / cs) <= y <= Qceiling (SG.bottom b / cs))%Z /\
       k = SG.key g (inject_Z x * cs) (inject_Z y * cs)) /\
  ((exists c : Z, cs == inject_Z c) ->
   Permutation result
     (filter (fun p => SG.insertable p && SG.in_scanned_range cs b (SG.cell_of g p))
             ps) /\
   forall k : SG.Key, SG.cell_intersects cs b k -> SG.in_scanned_range cs b k = true).
Proof.
  intros Hcs g visible result.
  assert (Hperm : Permutation result
            (filter (fun p => SG.insertable p && SG.has visible (SG.cell_of g p)) ps))
    by apply query_gathers.
  split; [exact Hperm |]. split; [intro k; apply (visible_cells_keys g b k) |].
  intros _. split.
  - rewrite Hperm.
    rewrite (filter_ext _
               (fun p => SG.insertable p && SG.in_scanned_range cs b (SG.cell_of g p)));
      [reflexivity|].
    intro p. subst visible. rewrite (visible_cells_scanned g Hcs b). reflexivity.
  - intros [k1 k2] (H1 & H2 & H3 & H4). cbn [fst snd] in *.
    unfold SG.in_scanned_range. cbn [fst snd].
    rewrite !andb_true_iff, !Z.leb_le.
    assert (Hx1 : (Qfloor (SG.left b / cs) < k1 + 1)%Z).
    { rewrite Zlt_Qlt. apply Qle_lt_trans with (SG.left b / cs); [apply Qfloor_le|].
      rewrite inject_Z_plus. apply Qlt_shift_div_r; assumption. }
    assert (Hx2 : (k1 <= Qceiling (SG.right b / cs))%Z).
    { rewrite Zle_Qle. apply Qle_trans with (SG.right b / cs); [|apply Qle_ceiling].
      apply Qle_shift_div_l; assumption. }
    assert (Hy1 : (Qfloor (SG.top b / cs) < k2 + 1)%Z).
    { rewrite Zlt_Qlt. apply Qle_lt_trans with (SG.top b / cs); [apply Qfloor_le|].
      rewrite inject_Z_plus. apply Qlt_shift_div_r; assumption. }
    assert (Hy2 : (k2 <= Qceiling (SG.bottom b / cs))%Z).
    { rewrite Zle_Qle. apply Qle_trans with (SG.bottom b / cs); [|apply Qle_ceiling].
      apply Qle_shift_div_l; assumption. }
    repeat split; lia.
Qed.

(** Three particles in a grid of 100-pixel cells and the viewport
    [0..150] x [0..150]. *)
Lemma query_scanned_range_witness :
  let cs := 100 in
  let b := Scenarios.viewport in
  let ps := [Scenarios.on_screen 50 50; Scenarios.on_screen 250 50;
             Scenarios.on_screen 350 50] in
  let g := SG.constructor cs in
  let result := snd (SG.query (Some b) (SG.insert_all ps g)) in
  Permutation result
    (filter (fun p => SG.insertable p && SG.in_scanned_range cs b (SG.cell_of g p))
            ps) /\
  forall k : SG.Key, SG.cell_intersects cs b k -> SG.in_scanned_range cs b k = true.
Proof.
  refine (proj2 (proj2 (query_scanned_range 100 Scenarios.viewport
           [Scenarios.on_screen 50 50; Scenarios.on_screen 250 50;
            Scenarios.on_screen 350 50] _)) _).
  - reflexivity.
  - exists 100%Z. reflexivity.
Defined.

(** C7, as stated, fails on its second half: with cells of 100 pixels
    and a viewport that ends at 150, the particle at x = 250 is returned
    although its cell, which starts at 200, does not meet the
    viewport. *)
Lemma query_returns_particle_outside_viewport :
  ~ (forall (cs : Q) (b : SG.Bounds) (ps : list P.Particle) (p : P.Particle),
        0 < cs ->
        In p (snd (SG.query (Some b) (SG.insert_all ps (SG.constructor cs)))) ->
        SG.cell_intersects cs b (SG.cell_of (SG.constructor cs) p)).
Proof.
  intro H.
  specialize (H 100 Scenarios.viewport [Scenarios.on_screen 250 50]
                (Scenarios.on_screen 250 50) eq_refl).
  assert (Hin : In (Scenarios.on_screen 250 50)
                  (snd (SG.query (Some Scenarios.viewport)
                          (SG.insert_all [Scenarios.on_screen 250 50]
                             (SG.constructor 100))))).
  { vm_compute. left. reflexivity. }
  destruct (H Hin) as (H1 & _). vm_compute in H1. apply H1. reflexivity.
Qed.

Example query_on_three_particles :
  snd (SG.query (Some Scenarios.viewport)
         (SG.insert_all [Scenarios.on_screen 50 50; Scenarios.on_screen 250 50;
                         Scenarios.on_screen 350 50] (SG.constructor 100)))
  = [Scenarios.on_screen 50 50; Scenarios.on_screen 250 50].
Proof. vm_compute. reflexivity. Qed.

(** A particle on a cell boundary belongs to the cell that starts
    there. *)
Example boundary_belongs_to_higher_cell :
  SG.key (SG.constructor 100) 200 0 = (2, 0)%Z.
Proof. reflexivity. Qed.

(** ** Quality transitions *)

Lemma tier_has_preset (B : string) :
  In B QG.qualityLevels ->
  B <> "" /\ exists preset : QG.Settings, QG.QUALITY_PRESETS B = Some preset.
Proof.
  cbn. intros [<- | [<- | [<- | [<- | [<- | []]]]]];
    (split; [discriminate|eexists; reflexivity]).
Qed.

Lemma notifySubscribers_state (t : QG.update_type) (s : option QG.Settings)
    (g : QG.Governor) :
  let g' := QG.notifySubscribers t s g in
  QG.currentLevel g' = QG.currentLevel g /\
  QG.targetLevel g' = QG.targetLevel g /\
  QG.transitionProgress g' = QG.transitionProgress g /\
  QG.transitionSpeed g' = QG.transitionSpeed g.
Proof. cbn. auto. Qed.

Lemma updateIntermediateSettings_state (g : QG.Governor) :
  let g' := QG.updateIntermediateSettings g in
  QG.currentLevel g' = QG.currentLevel g /\
  QG.targetLevel g' = QG.targetLevel g /\
  QG.transitionProgress g' = QG.transitionProgress g /\
  QG.transitionSpeed g' = QG.transitionSpeed g.
Proof.
  unfold QG.updateIntermediateSettings.
  destruct (QG.targetLevel g) as [t|] eqn:Et; [|cbn; auto].
  destruct (QG.QUALITY_PRESETS (QG.currentLevel g)); [|cbn; auto].
  destruct (QG.QUALITY_PRESETS t); cbn; auto.
Qed.

Section Transition.

Variable B : string.
Hypothesis B_named : B <> "".

(** A frame on which the progress stays below one. *)
Lemma transitionLoop_pending (g : QG.Governor) :
  QG.targetLevel g = Some B ->
  QG.transitionProgress g < 1 ->
  QG.transitionProgress g + QG.transitionSpeed g < 1 ->
  let g' := QG.transitionLoop g in
  QG.currentLevel g' = QG.currentLevel g /\
  QG.targetLevel g' = Some B /\
  QG.transitionProgress g' = QG.transitionProgress g + QG.transitionSpeed g /\
  QG.transitionSpeed g' = QG.transitionSpeed g.
Proof.
  intros Ht Hp Hs. unfold QG.transitionLoop. rewrite Ht.
  replace (String.eqb B "") with false
    by (symmetry; apply String.eqb_neq; exact B_named).
  replace (Qltb (QG.transitionProgress g) 1.0) with true
    by (symmetry; apply Qltb_lt; lra).
  cbn [negb andb].
  replace (Qgeb (QG.transitionProgress g + QG.transitionSpeed g) 1.0) with false.
  2:{ symmetry. destruct (Qgeb _ _) eqn:E; [|reflexivity].
      apply Qgeb_ge in E. lra. }
  match goal with
  | |- context [QG.updateIntermediateSettings ?h] =>
    pose proof (updateIntermediateSettings_state h) as H
  end.
  cbn zeta in H. cbn [QG.currentLevel QG.targetLevel QG.transitionProgress QG.transitionSpeed] in H.
  exact H.
Qed.

(** The frame on which the progress reaches one. *)
Lemma transitionLoop_completes (g : QG.Governor) :
  QG.targetLevel g = Some B ->
  QG.transitionProgress g < 1 ->
  1 <= QG.transitionProgress g + QG.transitionSpeed g ->
  QG.transitionLoop g
  = {| QG.currentLevel := B; QG.targetLevel := None;
       QG.transitionProgress := 1.0;
       QG.transitionSpeed := QG.transitionSpeed g;
       QG.maxActiveParticles := QG.maxActiveParticles g;
       QG.delivered :=
         QG.delivered g
         ++ [{| QG.level := B; QG.type := QG.complete;
                QG.settings := QG.QUALITY_PRESETS B |}] |}.
Proof.
  intros Ht Hp Hs. unfold QG.transitionLoop. rewrite Ht.
  replace (String.eqb B "") with false
    by (symmetry; apply String.eqb_neq; exact B_named).
  replace (Qltb (QG.transitionProgress g) 1.0) with true
    by (symmetry; apply Qltb_lt; lra).
  cbn [negb andb].
  replace (Qgeb (QG.transitionProgress g + QG.transitionSpeed g) 1.0) with true
    by (symmetry; apply Qgeb_ge; lra).
  reflexivity.
Qed.

Lemma frames_succ (k : nat) (g : QG.Governor) :
  QG.frames (S k) g = QG.transitionLoop (QG.frames k g).
Proof.
  revert g. induction k as [|k IH]; intro g; [reflexivity|].
  change (QG.frames (S (S k)) g) with (QG.frames (S k) (QG.transitionLoop g)).
  rewrite IH. reflexivity.
Qed.

(** While fewer than twenty steps of one twentieth have been made, the
    transition is pending and the progress is the number of steps
    times the speed. *)
Lemma frames_pending (k : nat) (g : QG.Governor) :
  QG.targetLevel g = Some B ->
  QG.transitionSpeed g == 0.05 ->
  QG.transitionProgress g == 0 ->
  (k <= 19)%nat ->
  let g' := QG.frames k g in
  QG.currentLevel g' = QG.currentLevel g /\
  QG.targetLevel g' = Some B /\
  QG.transitionProgress g' == inject_Z (Z.of_nat k) * 0.05 /\
  QG.transitionSpeed g' = QG.transitionSpeed g.
Proof.
  intros Ht Hs Hp. induction k as [|k IH]; intro Hk.
  - cbn. repeat split; auto. rewrite Hp. reflexivity.
  - destruct (IH ltac:(lia)) as (Hc & Ht' & Hp' & Hs'). clear IH.
    cbn zeta. rewrite frames_succ.
    assert (Hk' : inject_Z (Z.of_nat k) <= 18).
    { change 18 with (inject_Z 18). rewrite <- Zle_Qle. lia. }
    destruct (transitionLoop_pending (QG.frames k g) Ht') as (Hc2 & Ht2 & Hp2 & Hs2).
    + rewrite Hp'. lra.
    + rewrite Hp', Hs', Hs. lra.
    + repeat split; try congruence.
      rewrite Hp2, Hp', Hs', Hs, Nat2Z.inj_succ.
      unfold Z.succ. rewrite inject_Z_plus. change (inject_Z 1) with 1. lra.
Qed.

End Transition.

(** C8.  From any state of the governor whose current tier is [A] and
    whose speed is the constructor's 0.05, [setQualityLevel(B)] for a
    different tier [B] starts a transition that is pending for the
    first nineteen frames and completes on the twentieth: the current
    tier is then [B], the target is [null], and the last notification
    the subscribers received is the complete one, carrying
    [QUALITY_PRESETS[B]] itself. *)
Theorem transition_converges (g : QG.Governor) (A B : string) :
  In A QG.qualityLevels -> In B QG.qualityLevels -> A <> B ->
  QG.currentLevel g = A ->
  QG.transitionSpeed g == 0.05 ->
  let g1 := fst (QG.setQualityLevel B g) in
  (forall k : nat, (k < 20)%nat ->
     QG.currentLevel (QG.frames k g1) = A /\
     QG.targetLevel (QG.frames k g1) = Some B /\
     QG.transitionProgress (QG.frames k g1) < 1) /\
  QG.currentLevel (QG.frames 20 g1) = B /\
  QG.targetLevel (QG.frames 20 g1) = None /\
  1 <= QG.transitionProgress (QG.frames 20 g1) /\
  exists (preset : QG.Settings) (earlier : list QG.Notification),
    QG.QUALITY_PRESETS B = Some preset /\
    QG.delivered (QG.frames 20 g1)
    = earlier ++ [{| QG.level := B; QG.type := QG.complete;
                     QG.settings := Some preset |}].
Proof.
  intros HA HB Hneq Hcur Hspeed g1.
  destruct (tier_has_preset B HB) as (Hname & preset & Hpreset).
  assert (Hg1 : QG.currentLevel g1 = A /\ QG.targetLevel g1 = Some B /\
                QG.transitionProgress g1 == 0 /\
                QG.transitionSpeed g1 == 0.05).
  { subst g1. unfold QG.setQualityLevel. rewrite Hpreset.
    replace (String.eqb B (QG.currentLevel g)) with false.
    2:{ symmetry. apply String.eqb_neq. congruence. }
    cbn. repeat split; auto. }
  destruct Hg1 as (Hc1 & Ht1 & Hp1 & Hs1).
  assert (Hpending : forall k : nat, (k <= 19)%nat ->
            QG.currentLevel (QG.frames k g1) = A /\
            QG.targetLevel (QG.frames k g1) = Some B /\
            QG.transitionProgress (QG.frames k g1) == inject_Z (Z.of_nat k) * 0.05 /\
            QG.transitionSpeed (QG.frames k g1) == 0.05).
  { intros k Hk.
    destruct (frames_pending B Hname k g1 Ht1 Hs1 Hp1 Hk) as (H1 & H2 & H3 & H4).
    repeat split; auto; [congruence|rewrite H4; exact Hs1]. }
  split.
  { intros k Hk. destruct (Hpending k ltac:(lia)) as (H1 & H2 & H3 & _).
    repeat split; auto. rewrite H3.
    assert (inject_Z (Z.of_nat k) <= 19).
    { change 19 with (inject_Z 19). rewrite <- Zle_Qle. lia. }
    lra. }
  destruct (Hpending 19%nat ltac:(lia)) as (H1 & H2 & H3 & H4).
  change (inject_Z (Z.of_nat 19)) with 19 in H3.
  rewrite (frames_succ 19 g1).
  rewrite (transitionLoop_completes B Hname (QG.frames 19 g1) H2)
    by (rewrite ?H3, ?H4; lra).
  cbn [QG.currentLevel QG.targetLevel QG.transitionProgress QG.delivered].
  repeat split; auto; [lra|].
  exists preset, (QG.delivered (QG.frames 19 g1)). rewrite Hpreset. auto.
Qed.

(** The transition from the constructor's tier [high] to [low]. *)
Lemma transition_converges_witness :
  let g := QG.initial 2000 in
  let A := "high" in
  let B := "low" in
  let g1 := fst (QG.setQualityLevel B g) in
  (forall k : nat, (k < 20)%nat ->
     QG.currentLevel (QG.frames k g1) = A /\
     QG.targetLevel (QG.frames k g1) = Some B /\
     QG.transitionProgress (QG.frames k g1) < 1) /\
  QG.currentLevel (QG.frames 20 g1) = B /\
  QG.targetLevel (QG.frames 20 g1) = None /\
  1 <= QG.transitionProgress (QG.frames 20 g1) /\
  exists (preset : QG.Settings) (earlier : list QG.Notification),
    QG.QUALITY_PRESETS B = Some preset /\
    QG.delivered (QG.frames 20 g1)
    = earlier ++ [{| QG.level := B; QG.type := QG.complete;
                     QG.settings := Some preset |}].
Proof.
  apply (transition_converges (QG.initial 2000) "high" "low").
  - cbn. auto.
  - cbn. auto 6.
  - discriminate.
  - reflexivity.
  - reflexivity.
Defined.

Example transition_high_to_low :
  let g20 := QG.frames 20 (fst (QG.setQualityLevel "low" (QG.initial 2000))) in
  QG.currentLevel g20 = "low" /\ QG.targetLevel g20 = None /\
  length (QG.delivered g20) = 20%nat /\
  last (QG.delivered g20)
       {| QG.level := ""; QG.type := QG.intermediate; QG.settings := None |}
  = {| QG.level := "low"; QG.type := QG.complete; QG.settings := Some QG.low |}.
Proof. vm_compute. auto. Qed.

(** ** The culling distance *)

Lemma Qmin_spec (a b : Q) :
  (a <= b /\ PO.Qmin a b = a) \/ (b < a /\ PO.Qmin a b = b).
Proof.
  unfold PO.Qmin. destruct (Qle_bool a b) eqn:E.
  - left. apply Qle_bool_iff in E. auto.
  - right. split; [|reflexivity]. apply Qnot_le_lt. intro H.
    apply Qle_bool_iff in H. congruence.
Qed.

(** What one call does to the culling distance; the two frame-rate
    thresholds stay as they are. *)
Lemma adaptToPerformance_distance (fps : Q) (o : PO.Optimizer) :
  let t := PO.thresholds o in
  let t' := PO.thresholds (PO.adaptToPerformance fps o) in
  PO.lowFPS t' = PO.lowFPS t /\ PO.targetFPS t' = PO.targetFPS t /\
  PO.cullingDistance t'
  = if Qltb fps (PO.lowFPS t) then PO.cullingDistance t * 0.8
    else if Qgtb fps (PO.targetFPS t * 0.9) && Qltb (PO.cullingDistance t) 5000
         then PO.Qmin 5000 (PO.cullingDistance t * 1.1)
         else PO.cullingDistance t.
Proof.
  unfold PO.adaptToPerformance.
  destruct (Qltb fps _); [cbn; auto|].
  destruct (Qgtb fps _); [|cbn; auto].
  destruct (Qltb (PO.cullingDistance _) 5000); cbn; auto.
Qed.

Lemma adaptToPerformance_bounds (fps : Q) (o : PO.Optimizer) :
  0 < PO.cullingDistance (PO.thresholds o) <= 5000 ->
  0 < PO.cullingDistance (PO.thresholds (PO.adaptToPerformance fps o)) <= 5000.
Proof.
  intros [Hpos Hle].
  destruct (adaptToPerformance_distance fps o) as (_ & _ & Hd).
  cbn zeta in Hd. rewrite Hd.
  destruct (Qltb fps _); [lra|].
  destruct (Qgtb fps _ && Qltb _ 5000); [|lra].
  destruct (Qmin_spec 5000 (PO.cullingDistance (PO.thresholds o) * 1.1))
    as [[? ->] | [? ->]]; lra.
Qed.

Lemma adapt_all_bounds (samples : list Q) (o : PO.Optimizer) :
  0 < PO.cullingDistance (PO.thresholds o) <= 5000 ->
  0 < PO.cullingDistance (PO.thresholds (PO.adapt_all samples o)) <= 5000.
Proof.
  revert o. induction samples as [|fps rest IH]; intros o H; [exact H|].
  cbn [PO.adapt_all fold_left]. apply IH, adaptToPerformance_bounds, H.
Qed.

(** [n] calls with 10 frames per second: the distance times [k + n + 4]
    stays below 20000 when the distance times [k + 4] was. *)
Lemma low_fps_decay (n : nat) (k : Q) (o : PO.Optimizer) :
  PO.lowFPS (PO.thresholds o) = 30 ->
  0 <= k ->
  0 <= PO.cullingDistance (PO.thresholds o) ->
  PO.cullingDistance (PO.thresholds o) * (k + 4) <= 20000 ->
  let o' := PO.adapt_all (repeat 10 n) o in
  0 <= PO.cullingDistance (PO.thresholds o') /\
  PO.cullingDistance (PO.thresholds o') * (k + inject_Z (Z.of_nat n) + 4) <= 20000.
Proof.
  revert k o. induction n as [|n IH]; intros k o Hlow Hk Hd Hb.
  - cbn. split; [exact Hd|]. change (inject_Z 0) with 0. lra.
  - cbn [repeat PO.adapt_all fold_left].
    destruct (adaptToPerformance_distance 10 o) as (Hl & _ & Hd1).
    cbn zeta in Hl, Hd1. rewrite Hlow in Hd1. cbn [Qltb Qle_bool] in Hd1.
    change (Qltb 10 30) with true in Hd1. cbn iota in Hd1.
    set (o1 := PO.adaptToPerformance 10 o) in *.
    assert (H1 : 0 <= PO.cullingDistance (PO.thresholds o1)) by (rewrite Hd1; lra).
    assert (H2 : PO.cullingDistance (PO.thresholds o1) * (k + 1 + 4) <= 20000).
    { rewrite Hd1. nra. }
    destruct (IH (k + 1) o1 ltac:(congruence) ltac:(lra) H1 H2) as (H3 & H4).
    split; [exact H3|].
    rewrite Nat2Z.inj_succ. unfold Z.succ. rewrite inject_Z_plus.
    change (inject_Z 1) with 1.
    setoid_replace (k + (inject_Z (Z.of_nat n) + 1) + 4)
      with (k + 1 + inject_Z (Z.of_nat n) + 4) by ring.
    exact H4.
Qed.

Lemma low_fps_decay_from_default (n : nat) :
  let o := PO.adapt_all (repeat 10 n) (PO.constructor PO.PERFORMANCE_THRESHOLDS) in
  PO.cullingDistance (PO.thresholds o) * (inject_Z (Z.of_nat n) + 4) <= 20000.
Proof.
  assert (H0 : 0 <= 0) by lra.
  assert (Hd : 0 <= PO.cullingDistance
                      (PO.thresholds (PO.constructor PO.PERFORMANCE_THRESHOLDS)))
    by (cbn; lra).
  assert (Hb : PO.cullingDistance
                 (PO.thresholds (PO.constructor PO.PERFORMANCE_THRESHOLDS))
               * (0 + 4) <= 20000) by (cbn; lra).
  destruct (low_fps_decay n 0 (PO.constructor PO.PERFORMANCE_THRESHOLDS)
              eq_refl H0 Hd Hb) as (_ & H).
  cbn zeta. lra.
Qed.

(** C9, as the code has it.  From the configured distance 5000, over
    any sequence of calls the culling distance stays positive and at
    most 5000; a call with a frame rate below [lowFPS] multiplies it by
    0.8, a call with a frame rate above 90% of [targetFPS] multiplies a
    distance below 5000 by 1.1 and caps it at 5000, any other call
    leaves it; and there is no floor: after [n] calls at 10 frames per
    second the distance is at most [20000 / (n + 4)]. *)
Theorem culling_distance_bounds :
  (forall samples : list Q,
     let o := PO.adapt_all samples (PO.constructor PO.PERFORMANCE_THRESHOLDS) in
     0 < PO.cullingDistance (PO.thresholds o) <= 5000) /\
  (forall (fps : Q) (o : PO.Optimizer),
     let t := PO.thresholds o in
     PO.cullingDistance (PO.thresholds (PO.adaptToPerformance fps o))
     = if Qltb fps (PO.lowFPS t) then PO.cullingDistance t * 0.8
       else if Qgtb fps (PO.targetFPS t * 0.9) && Qltb (PO.cullingDistance t) 5000
            then PO.Qmin 5000 (PO.cullingDistance t * 1.1)
            else PO.cullingDistance t) /\
  (forall n : nat,
     let o := PO.adapt_all (repeat 10 n) (PO.constructor PO.PERFORMANCE_THRESHOLDS) in
     PO.cullingDistance (PO.thresholds o) * (inject_Z (Z.of_nat n) + 4) <= 20000).
Proof.
  split; [|split].
  - intro samples. apply adapt_all_bounds. cbn. lra.
  - intros fps o. apply adaptToPerformance_distance.
  - exact low_fps_decay_from_default.
Qed.

(** C9, as stated, fails on the floor: whatever positive floor is
    proposed, enough calls with a low frame rate take the culling
    distance below it. *)
Lemma culling_distance_has_no_floor :
  ~ (exists floor : Q,
        0 < floor /\
        forall samples : list Q,
          floor <= PO.cullingDistance
                     (PO.thresholds
                        (PO.adapt_all samples
                           (PO.constructor PO.PERFORMANCE_THRESHOLDS)))).
Proof.
  intros (floor & Hpos & Hfloor).
  pose proof low_fps_decay_from_default as Hdecay.
  set (c := Qceiling (20000 / floor)).
  assert (Hc : 20000 / floor <= inject_Z c) by apply Qle_ceiling.
  assert (Hq : 0 < 20000 / floor).
  { apply Qlt_shift_div_l; [exact Hpos|lra]. }
  assert (Hc0 : (0 <= c)%Z).
  { rewrite Zle_Qle. change (inject_Z 0) with 0. lra. }
  specialize (Hdecay (Z.to_nat c)). cbn zeta in Hdecay.
  specialize (Hfloor (repeat 10 (Z.to_nat c))).
  rewrite Z2Nat.id in Hdecay by exact Hc0.
  set (d := PO.cullingDistance _) in *.
  assert (H1 : 20000 <= inject_Z c * floor).
  { assert (He : 20000 / floor * floor == 20000) by (field; lra).
    rewrite <- He. apply Qmult_le_compat_r; [exact Hc|lra]. }
  assert (H2 : floor * (inject_Z c + 4) <= d * (inject_Z c + 4)).
  { apply Qmult_le_compat_r; [exact Hfloor|]. lra. }
  nra.
Qed.

Example forty_low_fps_calls :
  PO.cullingDistance
    (PO.thresholds
       (PO.adapt_all (repeat 10 40) (PO.constructor PO.PERFORMANCE_THRESHOLDS)))
  < 1.
Proof. vm_compute. reflexivity. Qed.

(** ** Level of detail *)

Lemma Qle_bool_false (a b : Q) : Qle_bool a b = false -> b < a.
Proof.
  intros H. apply Qnot_le_lt. intros Hle.
  apply Qle_bool_iff in Hle. congruence.
Qed.

Lemma fraction_bounds (a b d : Q) :
  a < d -> d <= b -> 0 <= (d - a) / (b - a) /\ (d - a) / (b - a) <= 1.
Proof.
  intros Had Hdb.
  assert (Hpos : 0 < b - a) by lra.
  split.
  - apply Qle_shift_div_l; [exact Hpos | lra].
  - apply Qle_shift_div_r; [exact Hpos | lra].
Qed.

Lemma fraction_monotone (a b d1 d2 : Q) :
  a < d1 -> d1 <= d2 -> d2 <= b -> (d1 - a) / (b - a) <= (d2 - a) / (b - a).
Proof.
  intros Ha H12 Hb.
  assert (Hpos : 0 < b - a) by lra.
  unfold Qdiv. apply Qmult_le_compat_r; [lra |].
  apply Qlt_le_weak, Qinv_lt_0_compat, Hpos.
Qed.

Lemma last_cons {A : Type} (rest : list A) :
  forall t prev : A, last (t :: rest) prev = last rest t.
Proof.
  induction rest as [| u r IH]; intros t prev; [reflexivity |].
  change (last (t :: u :: r) prev) with (last (u :: r) prev).
  rewrite (IH u prev), (IH u t). reflexivity.
Qed.

Lemma last_detail_le (rest : list LOD.Threshold) :
  forall t0 : LOD.Threshold,
    LOD.details_descend t0 rest ->
    LOD.detail (last rest t0) <= LOD.detail t0.
Proof.
  induction rest as [| u r IH]; intros t0 Hdesc.
  - cbn. lra.
  - destruct Hdesc as [Hu Hr]. rewrite last_cons.
    specialize (IH u Hr). lra.
Qed.

Lemma interpolate_from_upper (ts : list LOD.Threshold) :
  forall (prev : LOD.Threshold) (d : Q),
    LOD.distance prev < d ->
    LOD.details_descend prev ts ->
    LOD.interpolate_from prev ts d <= LOD.detail prev.
Proof.
  induction ts as [| t rest IH]; intros prev d Hd Hdesc; cbn [LOD.interpolate_from].
  - lra.
  - destruct Hdesc as [Ht Hrest].
    destruct (Qle_bool d (LOD.distance t)) eqn:E.
    + apply Qle_bool_iff in E.
      destruct (fraction_bounds (LOD.distance prev) (LOD.distance t) d Hd E) as [H0 _].
      set (f := (d - LOD.distance prev) / (LOD.distance t - LOD.distance prev)) in *.
      nra.
    + apply Qle_bool_false in E.
      specialize (IH t d E Hrest). lra.
Qed.

Lemma interpolate_from_lower (ts : list LOD.Threshold) :
  forall (prev : LOD.Threshold) (d : Q),
    LOD.distance prev < d ->
    LOD.details_descend prev ts ->
    LOD.detail (last ts prev) <= LOD.interpolate_from prev ts d.
Proof.
  induction ts as [| t rest IH]; intros prev d Hd Hdesc.
  - cbn. lra.
  - destruct Hdesc as [Ht Hrest].
    pose proof (last_detail_le rest t Hrest) as Hlast.
    rewrite last_cons. cbn [LOD.interpolate_from].
    destruct (Qle_bool d (LOD.distance t)) eqn:E.
    + apply Qle_bool_iff in E.
      destruct (fraction_bounds (LOD.distance prev) (LOD.distance t) d Hd E) as [H0 H1].
      set (f := (d - LOD.distance prev) / (LOD.distance t - LOD.distance prev)) in *.
      nra.
    + apply Qle_bool_false in E. exact (IH t d E Hrest).
Qed.

Lemma interpolate_from_beyond (ts : list LOD.Threshold) (d : Q) :
  forall prev : LOD.Threshold,
    Forall (fun t => LOD.distance t < d) ts ->
    LOD.interpolate_from prev ts d = LOD.detail (last ts prev).
Proof.
  induction ts as [| u r IH]; intros prev Hall; [reflexivity |].
  inversion Hall as [| ? ? Hu Hr]; subst.
  cbn [LOD.interpolate_from].
  assert (E : Qle_bool d (LOD.distance u) = false).
  { destruct (Qle_bool d (LOD.distance u)) eqn:E; [| reflexivity].
    apply Qle_bool_iff in E. lra. }
  rewrite E, last_cons. apply IH, Hr.
Qed.

Lemma interpolate_from_monotone (ts : list LOD.Threshold) :
  forall (prev : LOD.Threshold) (d1 d2 : Q),
    LOD.distance prev < d1 ->
    d1 <= d2 ->
    LOD.details_descend prev ts ->
    LOD.interpolate_from prev ts d2 <= LOD.interpolate_from prev ts d1.
Proof.
  induction ts as [| t rest IH]; intros prev d1 d2 H1 H12 Hdesc; cbn [LOD.interpolate_from].
  - lra.
  - destruct Hdesc as [Ht Hrest].
    destruct (Qle_bool d1 (LOD.distance t)) eqn:E1;
      destruct (Qle_bool d2 (LOD.distance t)) eqn:E2.
    + apply Qle_bool_iff in E1. apply Qle_bool_iff in E2.
      pose proof (fraction_monotone (LOD.distance prev) (LOD.distance t) d1 d2 H1 H12 E2) as Hm.
      set (f1 := (d1 - LOD.distance prev) / (LOD.distance t - LOD.distance prev)) in *.
      set (f2 := (d2 - LOD.distance prev) / (LOD.distance t - LOD.distance prev)) in *.
      nra.
    + apply Qle_bool_iff in E1. apply Qle_bool_false in E2.
      pose proof (interpolate_from_upper rest t d2 E2 Hrest) as Hu.
      destruct (fraction_bounds (LOD.distance prev) (LOD.distance t) d1 H1 E1) as [H0 Hone].
      set (f1 := (d1 - LOD.distance prev) / (LOD.distance t - LOD.distance prev)) in *.
      nra.
    + apply Qle_bool_false in E1. apply Qle_bool_iff in E2. lra.
    + apply Qle_bool_false in E1.
      apply IH; [exact E1 | exact H12 | exact Hrest].
Qed.

Lemma default_thresholds_descend :
  match LOD.default_thresholds with
  | [] => False
  | t0 :: rest => LOD.details_descend t0 rest
  end.
Proof.
  cbn. repeat (split; [unfold Qle; cbn; lia |]). exact I.
Qed.

(** X1.  With the table that the constructor installs,
    [calculateLODLevel] never increases with the distance: a larger
    distance gives at most the level of a smaller one.  (The details of
    that table are met exactly at its distances, in binary floating
    point as well.) *)
Theorem calculateLODLevel_monotone (d1 d2 : Q) :
  d1 <= d2 ->
  exists l1 l2 : Q,
    LOD.calculateLODLevel LOD.default_thresholds (LOD.Num d1) = Normal l1 /\
    LOD.calculateLODLevel LOD.default_thresholds (LOD.Num d2) = Normal l2 /\
    l2 <= l1.
Proof.
  intros H12. pose proof default_thresholds_descend as Hdesc.
  unfold LOD.default_thresholds in *.
  cbn [LOD.calculateLODLevel].
  eexists; eexists. split; [reflexivity |]. split; [reflexivity |].
  destruct (Qle_bool d1 _) eqn:E1; destruct (Qle_bool d2 _) eqn:E2.
  - lra.
  - apply Qle_bool_false in E2.
    apply interpolate_from_upper; assumption.
  - apply Qle_bool_false in E1. apply Qle_bool_iff in E2. cbn in E1, E2. lra.
  - apply Qle_bool_false in E1.
    apply interpolate_from_monotone; assumption.
Qed.

Lemma calculateLODLevel_monotone_witness :
  exists l1 l2 : Q,
    LOD.calculateLODLevel LOD.default_thresholds (LOD.Num 1500) = Normal l1 /\
    LOD.calculateLODLevel LOD.default_thresholds (LOD.Num 4200) = Normal l2 /\
    l2 <= l1.
Proof.
  apply (calculateLODLevel_monotone 1500 4200).
  unfold Qle; cbn; lia.
Defined.

(** X2.  For a table whose details do not increase from one entry to
    the next and end at zero or more, the level is between zero and the
    first detail; it is the first detail up to the first distance, and
    the last detail beyond every distance of the table and for [NaN].
    With the table of the constructor the level is between 0.1 and 1. *)
Theorem calculateLODLevel_range (t0 : LOD.Threshold) (rest : list LOD.Threshold) (d : Q) :
  LOD.details_descend t0 rest ->
  0 <= LOD.detail (last rest t0) ->
  exists l : Q,
    LOD.calculateLODLevel (t0 :: rest) (LOD.Num d) = Normal l /\
    0 <= l /\ l <= LOD.detail t0 /\
    (d <= LOD.distance t0 -> l = LOD.detail t0) /\
    (Forall (fun t => LOD.distance t < d) (t0 :: rest) ->
     l = LOD.detail (last rest t0)) /\
    LOD.calculateLODLevel (t0 :: rest) LOD.NaN = Normal (LOD.detail (last rest t0)) /\
    (t0 :: rest = LOD.default_thresholds -> 0.1 <= l /\ l <= 1).
Proof.
  intros Hdesc Hpos. cbn [LOD.calculateLODLevel].
  eexists. split; [reflexivity |].
  pose proof (last_detail_le rest t0 Hdesc) as Hlast.
  assert (Hlow : LOD.detail (last rest t0)
                 <= (if Qle_bool d (LOD.distance t0) then LOD.detail t0
                     else LOD.interpolate_from t0 rest d)).
  { destruct (Qle_bool d (LOD.distance t0)) eqn:E; [exact Hlast |].
    apply Qle_bool_false in E. apply interpolate_from_lower; assumption. }
  assert (Hup : (if Qle_bool d (LOD.distance t0) then LOD.detail t0
                 else LOD.interpolate_from t0 rest d) <= LOD.detail t0).
  { destruct (Qle_bool d (LOD.distance t0)) eqn:E; [lra |].
    apply Qle_bool_false in E. apply interpolate_from_upper; assumption. }
  split; [lra |]. split; [exact Hup |].
  split; [| split; [| split]].
  - intros Hle. apply Qle_bool_iff in Hle. rewrite Hle. reflexivity.
  - intros Hall. inversion Hall as [| ? ? H0 Hrest]; subst.
    assert (E : Qle_bool d (LOD.distance t0) = false).
    { destruct (Qle_bool d (LOD.distance t0)) eqn:E; [| reflexivity].
      apply Qle_bool_iff in E. lra. }
    rewrite E. apply interpolate_from_beyond, Hrest.
  - reflexivity.
  - intros Hdefault. unfold LOD.default_thresholds in Hdefault.
    inversion Hdefault; subst. split.
    + exact Hlow.
    + eapply Qle_trans; [exact Hup |]. unfold Qle; cbn; lia.
Qed.

Lemma calculateLODLevel_range_witness :
  exists l : Q,
    LOD.calculateLODLevel LOD.default_thresholds (LOD.Num 2500) = Normal l /\
    0.1 <= l /\ l <= 1.
Proof.
  destruct (calculateLODLevel_range
              {| LOD.distance := 1000; LOD.detail := 1.0 |}
              (tl LOD.default_thresholds) 2500 default_thresholds_descend)
    as [l [Hl [_ [_ [_ [_ [_ Hd]]]]]]].
  - unfold Qle; cbn; lia.
  - exists l. split; [exact Hl |]. exact (Hd eq_refl).
Defined.

Lemma updateLODMetrics_counted (l : Q) (m : LOD.Metrics) :
  LOD.counted (LOD.updateLODMetrics l m) = (LOD.counted m + 1)%Z.
Proof.
  unfold LOD.counted, LOD.updateLODMetrics. cbn.
  destruct (Qgtb l 0.9); [cbn; lia |].
  destruct (Qgtb l 0.6); [cbn; lia |].
  destruct (Qgtb l 0.4); [cbn; lia |].
  destruct (Qgtb l 0.2); cbn; lia.
Qed.

Lemma setLODLevel_particle (l : Q) (r : LOD.Rendered) :
  LOD.particle (LOD.setLODLevel l r) = LOD.particle r.
Proof.
  unfold LOD.setLODLevel. destruct (LOD.same_level _ _); reflexivity.
Qed.

Lemma setLODLevel_visible (l : Q) (r : LOD.Rendered) :
  LOD.visible (LOD.display (LOD.setLODLevel l r)) = LOD.visible (LOD.display r).
Proof.
  unfold LOD.setLODLevel. destruct (LOD.same_level _ _); reflexivity.
Qed.

Section Optimizing.

Variable M : MathObject.
Variable sqrt : Q -> LOD.js_number.
Variable lengthSquared :
  LOD.js_number -> LOD.js_number -> LOD.js_number -> completion LOD.js_number.

Lemma shouldRender_dynamic (p : P.Particle) (cam : LOD.Camera) (n : nat) (o : LOD.Optimizer) :
  PO.optimizerDynamicLOD (LOD.switches o) = true ->
  LOD.lodDistanceThresholds o <> [] ->
  is_abrupt (LOD.distanceSquared lengthSquared p cam) = false ->
  exists (o1 : LOD.Optimizer) (b : bool) (l : Q) (n1 : nat),
    LOD.shouldRender M sqrt lengthSquared p cam n o = (o1, Normal (b, l), n1) /\
    LOD.switches o1 = LOD.switches o /\
    LOD.lodDistanceThresholds o1 = LOD.lodDistanceThresholds o /\
    LOD.counted (LOD.metrics o1) = (LOD.counted (LOD.metrics o) + 1)%Z /\
    (n <= n1 <= S n)%nat /\
    (PO.frustumCulling (LOD.switches o) = true ->
     forall q : Q,
       LOD.distanceSquared lengthSquared p cam = Normal (LOD.Num q) ->
       LOD.square (PO.cullingDistance (PO.thresholds (LOD.switches o))) < q ->
       b = false).
Proof.
  intros Hdyn Hts Hvec. unfold LOD.shouldRender. rewrite Hdyn.
  rewrite andb_false_r.
  destruct (LOD.distanceSquared lengthSquared p cam) as [d2 | e] eqn:Hd;
    [clear Hvec | discriminate Hvec].
  destruct (PO.frustumCulling (LOD.switches o)) eqn:Hf; cbn [andb].
  - destruct d2 as [q |].
    + destruct (Qgtb q _) eqn:Hgt.
      * eexists; eexists; eexists; eexists. split; [reflexivity |].
        split; [reflexivity |]. split; [reflexivity |].
        split; [unfold LOD.counted; cbn; lia |].
        split; [lia |]. intros _ q' _ _. reflexivity.
      * destruct (LOD.lodDistanceThresholds o) as [| t0 rest] eqn:Ht; [congruence |].
        assert (Hnot : forall q' : Q, Normal (LOD.Num q) = Normal (LOD.Num q') ->
                  LOD.square (PO.cullingDistance (PO.thresholds (LOD.switches o))) < q' ->
                  False).
        { intros q' Heq Hlt. injection Heq as <-.
          unfold Qgtb in Hgt. apply Qltb_ge in Hgt. unfold LOD.square in Hlt. lra. }
        destruct (LOD.calculateLODLevel (t0 :: rest) (sqrt q)) as [l | e] eqn:Hc;
          [| destruct (sqrt q); discriminate Hc].
        destruct (Qltb l 0.99); [destruct (Qgtb (random M n) l) |];
          (eexists; eexists; eexists; eexists; split; [reflexivity |];
           split; [reflexivity |]; split; [cbn; exact Ht |];
           split; [cbn [LOD.metrics LOD.set_metrics]; apply updateLODMetrics_counted |];
           split; [lia |]; intros _ q' Heq Hlt; exfalso; exact (Hnot q' Heq Hlt)).
    + destruct (LOD.lodDistanceThresholds o) as [| t0 rest] eqn:Ht; [congruence |].
      cbn [LOD.calculateLODLevel].
      destruct (Qltb _ 0.99); [destruct (Qgtb (random M n) _) |];
        (eexists; eexists; eexists; eexists; split; [reflexivity |];
         split; [reflexivity |]; split; [cbn; exact Ht |];
         split; [cbn [LOD.metrics LOD.set_metrics]; apply updateLODMetrics_counted |];
         split; [lia |]; intros _ q' Heq; discriminate Heq).
  - destruct (LOD.lodDistanceThresholds o) as [| t0 rest] eqn:Ht; [congruence |].
    destruct (LOD.calculateLODLevel (t0 :: rest) _) as [l | e] eqn:Hc.
    2:{ destruct d2 as [q |]; [destruct (sqrt q) |]; discriminate Hc. }
    destruct (Qltb l 0.99); [destruct (Qgtb (random M n) l) |];
      (eexists; eexists; eexists; eexists; split; [reflexivity |];
       split; [reflexivity |]; split; [cbn; exact Ht |];
       split; [cbn [LOD.metrics LOD.set_metrics]; apply updateLODMetrics_counted |];
       split; [lia |]; intros Habs; discriminate Habs).
Qed.

(** With one of the two switches on, a throwing vector call ends
    [shouldRender] before anything is counted. *)
Lemma shouldRender_vector_throws (p : P.Particle) (cam : LOD.Camera) (n : nat)
    (o : LOD.Optimizer) (e : js_error) :
  PO.optimizerDynamicLOD (LOD.switches o) = true ->
  LOD.distanceSquared lengthSquared p cam = Abrupt e ->
  LOD.shouldRender M sqrt lengthSquared p cam n o = (o, Abrupt e, n).
Proof.
  intros Hdyn Hd. unfold LOD.shouldRender. rewrite Hdyn, andb_false_r, Hd.
  reflexivity.
Qed.

Lemma optimize_each_counts (cam : LOD.Camera) (rs : list LOD.Rendered) :
  forall (n : nat) (o : LOD.Optimizer),
    PO.optimizerDynamicLOD (LOD.switches o) = true ->
    LOD.lodDistanceThresholds o <> [] ->
    Forall (fun r => is_abrupt (LOD.distanceSquared lengthSquared (LOD.particle r) cam)
                     = false) rs ->
    exists (rs' : list LOD.Rendered) (o' : LOD.Optimizer) (n' : nat),
      LOD.optimize_each M sqrt lengthSquared cam rs n o = (rs', o', Normal tt, n') /\
      LOD.switches o' = LOD.switches o /\
      LOD.counted (LOD.metrics o') =
        (LOD.counted (LOD.metrics o) + Z.of_nat (length rs))%Z /\
      map LOD.particle rs' = map LOD.particle rs /\
      (n <= n' <= n + length rs)%nat /\
      Forall (LOD.settled lengthSquared o cam) rs'.
Proof.
  induction rs as [| r rest IH]; intros n o Hdyn Hts Hvec.
  - exists [], o, n. cbn. split; [reflexivity |]. split; [reflexivity |].
    split; [lia |]. split; [reflexivity |]. split; [lia | constructor].
  - inversion Hvec as [| ? ? Hr Hrest]; subst.
    destruct (shouldRender_dynamic (LOD.particle r) cam n o Hdyn Hts Hr)
      as (o1 & b & l & n1 & Hs & Hsw & Htab & Hcount & Hn & Hcull).
    assert (Hdyn1 : PO.optimizerDynamicLOD (LOD.switches o1) = true) by (rewrite Hsw; exact Hdyn).
    assert (Hts1 : LOD.lodDistanceThresholds o1 <> []) by (rewrite Htab; exact Hts).
    destruct (IH n1 o1 Hdyn1 Hts1 Hrest)
      as (rest' & o2 & n2 & He & Hsw2 & Hcount2 & Hmap & Hn2 & Hall).
    cbn [LOD.optimize_each]. rewrite Hs, He.
    eexists; eexists; eexists. split; [reflexivity |].
    split; [congruence |].
    split; [rewrite Hcount2, Hcount; cbn [length]; lia |].
    split.
    { cbn [map]. rewrite Hmap. f_equal.
      destruct b; [rewrite setLODLevel_particle |]; reflexivity. }
    split; [cbn [length]; lia |].
    constructor.
    + assert (Hvis : LOD.visible (LOD.display
                (if b then LOD.setLODLevel l (LOD.set_visible b r) else LOD.set_visible b r))
              = Some b).
      { destruct b; [rewrite setLODLevel_visible |]; reflexivity. }
      assert (Hpart : LOD.particle
                (if b then LOD.setLODLevel l (LOD.set_visible b r) else LOD.set_visible b r)
              = LOD.particle r).
      { destruct b; [rewrite setLODLevel_particle |]; reflexivity. }
      split.
      * rewrite Hvis. discriminate.
      * intros Hf q Hq Hlt. rewrite Hvis. f_equal.
        rewrite Hpart in Hq. exact (Hcull Hf q Hq Hlt).
    + unfold LOD.settled in *. rewrite Hsw in Hall. exact Hall.
Qed.

End Optimizing.

(** X3.  [shouldRender] measures the distance with [tempVec.set] and
    [tempVec.lengthSquared] of a class that is not among the sources.
    With dynamic level of detail switched on and a table that is not
    empty: provided these two calls return for every particle of the
    system, [optimizeParticleSystem] completes, leaves the particles
    themselves as they were, gives each of them a [visible] flag, counts
    each of them exactly once (as culled or in one of the five tiers)
    and draws at most one random number per particle, and with frustum
    culling on as well no particle beyond the culling distance is left
    visible; if the calls throw at the first particle,
    [optimizeParticleSystem] throws with the metrics reset and no
    particle changed. *)
Theorem optimizeParticleSystem_counts (M : MathObject) (sqrt : Q -> LOD.js_number)
    (lengthSquared :
       LOD.js_number -> LOD.js_number -> LOD.js_number -> completion LOD.js_number)
    (cam : LOD.Camera) (rs : list LOD.Rendered) (n : nat) (o : LOD.Optimizer) :
  PO.optimizerDynamicLOD (LOD.switches o) = true ->
  LOD.lodDistanceThresholds o <> [] ->
  (Forall (fun r => is_abrupt (LOD.distanceSquared lengthSquared (LOD.particle r) cam)
                    = false) rs ->
   exists (rs' : list LOD.Rendered) (o' : LOD.Optimizer) (n' : nat),
     LOD.optimizeParticleSystem M sqrt lengthSquared cam rs n o = (rs', o', Normal tt, n') /\
     LOD.counted (LOD.metrics o') = Z.of_nat (length rs) /\
     map LOD.particle rs' = map LOD.particle rs /\
     (n <= n' <= n + length rs)%nat /\
     Forall (LOD.settled lengthSquared o cam) rs') /\
  (forall (r : LOD.Rendered) (rest : list LOD.Rendered) (e : js_error),
     rs = r :: rest ->
     LOD.distanceSquared lengthSquared (LOD.particle r) cam = Abrupt e ->
     LOD.optimizeParticleSystem M sqrt lengthSquared cam rs n o
     = (rs, LOD.set_metrics LOD.no_metrics o, Abrupt e, n)).
Proof.
  intros Hdyn Hts. split.
  - intros Hvec. unfold LOD.optimizeParticleSystem.
    destruct (optimize_each_counts M sqrt lengthSquared cam rs n
                (LOD.set_metrics LOD.no_metrics o) Hdyn Hts Hvec)
      as (rs' & o' & n' & He & _ & Hcount & Hmap & Hn & Hall).
    exists rs', o', n'. split; [exact He |].
    split; [rewrite Hcount; cbn; lia |].
    split; [exact Hmap |]. split; [exact Hn | exact Hall].
  - intros r rest e -> Hd. unfold LOD.optimizeParticleSystem.
    cbn [LOD.optimize_each].
    rewrite (shouldRender_vector_throws M sqrt lengthSquared (LOD.particle r) cam n
               (LOD.set_metrics LOD.no_metrics o) e Hdyn Hd).
    reflexivity.
Qed.

(** Two particles, with a vector class whose calls return and with one
    that has no [set] method. *)
Lemma optimizeParticleSystem_counts_witness :
  (exists (rs' : list LOD.Rendered) (o' : LOD.Optimizer) (n' : nat),
     LOD.optimizeParticleSystem Scenarios.Math0 Displays.sqrt Displays.lengthSquared
       Displays.camera [Displays.plain; Displays.plain] 0
       (LOD.constructor PO.PERFORMANCE_THRESHOLDS) = (rs', o', Normal tt, n') /\
     LOD.counted (LOD.metrics o') = 2%Z) /\
  LOD.optimizeParticleSystem Scenarios.Math0 Displays.sqrt Displays.no_set
    Displays.camera [Displays.plain; Displays.plain] 0
    (LOD.constructor PO.PERFORMANCE_THRESHOLDS)
  = ([Displays.plain; Displays.plain],
     LOD.set_metrics LOD.no_metrics (LOD.constructor PO.PERFORMANCE_THRESHOLDS),
     Abrupt TypeError, 0%nat).
Proof.
  split.
  - destruct (optimizeParticleSystem_counts Scenarios.Math0 Displays.sqrt
                Displays.lengthSquared Displays.camera [Displays.plain; Displays.plain] 0%nat
                (LOD.constructor PO.PERFORMANCE_THRESHOLDS))
      as [Hok _].
    + reflexivity.
    + discriminate.
    + destruct Hok as (rs' & o' & n' & He & Hc & _).
      * repeat constructor.
      * exists rs', o', n'. split; [exact He | exact Hc].
  - destruct (optimizeParticleSystem_counts Scenarios.Math0 Displays.sqrt
                Displays.no_set Displays.camera [Displays.plain; Displays.plain] 0%nat
                (LOD.constructor PO.PERFORMANCE_THRESHOLDS))
      as [_ Hthrow].
    + reflexivity.
    + discriminate.
    + exact (Hthrow Displays.plain [Displays.plain] TypeError eq_refl eq_refl).
Defined.

(** X4.  An empty table is never installed: from the constructor on,
    whatever tables [setLODThresholds] is called with, the table has an
    entry, so that [calculateLODLevel] returns a number. *)
Theorem setLODThresholds_keeps_an_entry (t : PO.Thresholds)
    (tables : list (list LOD.Threshold)) (d : LOD.js_number) :
  exists l : Q,
    LOD.calculateLODLevel
      (LOD.lodDistanceThresholds
         (fold_left (fun o ts => LOD.setLODThresholds ts o) tables (LOD.constructor t)))
      d = Normal l.
Proof.
  assert (Hgen : forall o : LOD.Optimizer,
            LOD.lodDistanceThresholds o <> [] ->
            LOD.lodDistanceThresholds
              (fold_left (fun o ts => LOD.setLODThresholds ts o) tables o) <> []).
  { induction tables as [| ts rest IH]; intros o Ho; [exact Ho |].
    cbn [fold_left]. apply IH. destruct ts; [exact Ho | discriminate]. }
  assert (Hc : LOD.lodDistanceThresholds (LOD.constructor t) <> []) by discriminate.
  specialize (Hgen (LOD.constructor t) Hc).
  destruct (LOD.lodDistanceThresholds
              (fold_left (fun o ts => LOD.setLODThresholds ts o) tables (LOD.constructor t)))
    as [| t0 rest].
  - exfalso. apply Hgen. reflexivity.
  - destruct d; eexists; reflexivity.
Qed.

(** X5.  [setLODLevel] with a level in [0, 1] that differs from the
    stored one leaves the particle's own properties alone and derives
    the display properties from them: the display size is
    [size * level], at most the size; the display opacity lies between
    half the opacity and the opacity; physics runs every 1, 2 or 4
    frames; the glow strength is 0 or no number at all; level 1 gives
    back size, opacity and an interval of 1; calling it again with the
    same level changes nothing. *)
Theorem setLODLevel_display (level : Q) (r : LOD.Rendered) :
  0 <= level -> level <= 1 ->
  0 <= P.size (LOD.particle r) -> 0 <= P.opacity (LOD.particle r) ->
  LOD.same_level (LOD.lodLevel (LOD.display r)) level = false ->
  let r' := LOD.setLODLevel level r in
  LOD.particle r' = LOD.particle r /\
  (exists s op : Q,
     LOD.displaySize (LOD.display r') = Some s /\
     s == P.size (LOD.particle r) * level /\ s <= P.size (LOD.particle r) /\
     LOD.displayOpacity (LOD.display r') = Some op /\
     P.opacity (LOD.particle r) / 2 <= op /\ op <= P.opacity (LOD.particle r) /\
     (level == 1 -> s == P.size (LOD.particle r) /\ op = P.opacity (LOD.particle r))) /\
  (exists i : Z,
     LOD.physicsUpdateInterval (LOD.display r') = Some i /\
     (i = 1 \/ i = 2 \/ i = 4)%Z /\ (level == 1 -> i = 1%Z)) /\
  (forall q : Q, LOD.displayGlowStrength (LOD.display r') = Some (LOD.Num q) -> q = 0) /\
  LOD.setLODLevel level r' = r'.
Proof.
  intros H0 H1 Hs Ho Hdiff r'. subst r'. unfold LOD.setLODLevel.
  rewrite Hdiff. unfold LOD.updateLODAppearance. cbn.
  split; [reflexivity |].
  split.
  { eexists; eexists. split; [reflexivity |]. split; [reflexivity |].
    split; [nra |]. split; [reflexivity |].
    destruct (Qltb level 0.5) eqn:E.
    - apply Qltb_lt in E. split; [| split].
      + assert (Hq : P.opacity (LOD.particle r) / 2 == P.opacity (LOD.particle r) * (1 # 2))
          by (field). rewrite Hq. nra.
      + nra.
      + intros Hl. rewrite Hl in E. exfalso. revert E. unfold Qlt; cbn; lia.
    - split; [| split].
      + assert (Hq : P.opacity (LOD.particle r) / 2 == P.opacity (LOD.particle r) * (1 # 2))
          by (field). rewrite Hq. nra.
      + lra.
      + intros Hl. split; [rewrite Hl; ring | reflexivity]. }
  split.
  { eexists. split; [reflexivity |].
    destruct (Qltb level 0.3) eqn:E3; [| destruct (Qltb level 0.7) eqn:E7].
    - split; [auto |]. intros Hl. apply Qltb_lt in E3. rewrite Hl in E3.
      exfalso. revert E3. unfold Qlt; cbn; lia.
    - split; [auto |]. intros Hl. apply Qltb_lt in E7. rewrite Hl in E7.
      exfalso. revert E7. unfold Qlt; cbn; lia.
    - split; [auto | reflexivity]. }
  split.
  { intros q. destruct (Qltb level 0.3); intros Hq; [| discriminate Hq].
    injection Hq as <-. reflexivity. }
  assert (Hrefl : Qeq_bool level level = true) by (apply Qeq_bool_iff; reflexivity).
  rewrite Hrefl. reflexivity.
Qed.

Lemma setLODLevel_display_witness :
  LOD.particle (LOD.setLODLevel 0.25 Displays.plain) = LOD.particle Displays.plain /\
  LOD.setLODLevel 0.25 (LOD.setLODLevel 0.25 Displays.plain)
    = LOD.setLODLevel 0.25 Displays.plain.
Proof.
  assert (H0 : 0 <= 0.25) by (unfold Qle; cbn; lia).
  assert (H1 : 0.25 <= 1) by (unfold Qle; cbn; lia).
  assert (Hs : 0 <= P.size (LOD.particle Displays.plain)) by (vm_compute; discriminate).
  assert (Ho : 0 <= P.opacity (LOD.particle Displays.plain)) by (vm_compute; discriminate).
  destruct (setLODLevel_display 0.25 Displays.plain H0 H1 Hs Ho eq_refl)
    as [Hp [_ [_ [_ Hi]]]].
  split; [exact Hp | exact Hi].
Defined.

(** ** The pool: round trips, resizing, statistics *)

Lemma pop_nonempty {A : Type} (arr : list A) :
  arr <> [] -> exists (a : A) (rest : list A), pop arr = (Some a, rest) /\ arr = push rest a.
Proof.
  induction arr as [| a [| b rest] IH]; intros Hne; [congruence | |].
  - exists a, []. split; reflexivity.
  - destruct IH as (x & r & Hp & Hr); [discriminate |].
    exists x, (a :: r). split.
    + change (pop (a :: b :: rest)) with
        (let (r0, rest') := pop (b :: rest) in (r0, a :: rest')).
      rewrite Hp. reflexivity.
    + unfold push in *. cbn [app]. rewrite <- Hr. reflexivity.
Qed.

(** X6.  A particle released to a pool with room comes straight back
    from the next [acquire]: the call returns that particle reset and
    initialised again, the free list is what it was before the release
    and so is the count of active particles.  The acquisition counts as
    a creation when the free list was empty before the release, as a
    reuse otherwise. *)
Theorem release_then_acquire (M : MathObject) (map0 : option P.MapLibre)
    (c : option (Q * Q)) (t : option string) (n : nat)
    (particle : P.Particle) (pl : Pool.Pool) :
  (Z.of_nat (length (Pool.pool pl)) < Pool.maxSize pl)%Z ->
  let r := Pool.acquire M map0 c t n (Pool.release particle pl) in
  let recycled := P.recycle M map0 c t n particle in
  Pool.pool (fst (fst r)) = Pool.pool pl /\
  Pool.activeCount (fst (fst r)) = Pool.activeCount pl /\
  Pool.maxSize (fst (fst r)) = Pool.maxSize pl /\
  snd (fst r) = match snd (fst recycled) with
                | Normal _ => Normal (fst (fst recycled))
                | Abrupt e => Abrupt e
                end /\
  snd r = snd recycled /\
  Pool.totalCreated (fst (fst r))
  = (if (length (Pool.pool pl) =? 0)%nat then Pool.totalCreated pl + 1
     else Pool.totalCreated pl)%Z /\
  Pool.totalReused (fst (fst r))
  = (if (length (Pool.pool pl) =? 0)%nat then Pool.totalReused pl
     else Pool.totalReused pl + 1)%Z.
Proof.
  intros Hroom r recycled. subst r recycled.
  unfold Pool.acquire, Pool.release, P.recycle.
  cbn [Pool.pool Pool.maxSize Pool.activeCount Pool.totalCreated Pool.totalReused].
  apply Z.ltb_lt in Hroom. rewrite Hroom. rewrite pop_push.
  destruct (P.init M map0 c t n (P.reset particle)) as [[p' [u | e]] n'];
    cbn; (split; [reflexivity |]); (split; [lia |]); repeat split; reflexivity.
Qed.

Lemma release_then_acquire_witness :
  let r := Pool.acquire Scenarios.Math0 (Some Scenarios.flat_map) (Some (74.55, 34.35))
             (Some "Freshwater Lake") 0
             (Pool.release Scenarios.fresh_particle
                {| Pool.pool := []; Pool.maxSize := 2000; Pool.activeCount := 1;
                   Pool.totalCreated := 0; Pool.totalReused := 0 |}) in
  Pool.pool (fst (fst r)) = [] /\ Pool.activeCount (fst (fst r)) = 1%Z.
Proof.
  destruct (release_then_acquire Scenarios.Math0 (Some Scenarios.flat_map)
              (Some (74.55, 34.35)) (Some "Freshwater Lake") 0 Scenarios.fresh_particle
              {| Pool.pool := []; Pool.maxSize := 2000; Pool.activeCount := 1;
                 Pool.totalCreated := 0; Pool.totalReused := 0 |})
    as [Hp [Ha _]].
  - cbn. lia.
  - split; [exact Hp | exact Ha].
Defined.

(** X7.  [resize] to a size that is not negative completes; afterwards
    the free list is the old one cut to its first [newSize] particles,
    it is no longer than the new maximum, and the counters are
    untouched. *)
Theorem resize_trims (newSize : Z) (pl : Pool.Pool) :
  (0 <= newSize)%Z ->
  let r := Pool.resize newSize pl in
  snd r = Normal tt /\
  Pool.maxSize (fst r) = newSize /\
  Pool.pool (fst r) = firstn (Z.to_nat newSize) (Pool.pool pl) /\
  (Z.of_nat (length (Pool.pool (fst r))) <= newSize)%Z /\
  Pool.activeCount (fst r) = Pool.activeCount pl /\
  Pool.totalCreated (fst r) = Pool.totalCreated pl /\
  Pool.totalReused (fst r) = Pool.totalReused pl.
Proof.
  intros Hnn r. subst r. unfold Pool.resize.
  destruct (newSize <? Z.of_nat (length (Pool.pool pl)))%Z eqn:E.
  - apply Z.ltb_lt in E.
    assert (Hneg : (newSize <? 0)%Z = false) by (apply Z.ltb_ge; lia).
    rewrite Hneg. cbn.
    split; [reflexivity |]. split; [reflexivity |]. split; [reflexivity |].
    split; [rewrite length_firstn; lia |]. repeat split; reflexivity.
  - apply Z.ltb_ge in E. cbn.
    split; [reflexivity |]. split; [reflexivity |].
    split; [symmetry; apply firstn_all2; lia |].
    split; [lia |]. repeat split; reflexivity.
Qed.

Lemma resize_trims_witness :
  snd (Pool.resize 0 Scenarios.pool_with_one) = Normal tt /\
  Pool.pool (fst (Pool.resize 0 Scenarios.pool_with_one)) = [].
Proof.
  destruct (resize_trims 0 Scenarios.pool_with_one) as [Hc [_ [Hp _]]].
  - lia.
  - split; [exact Hc | exact Hp].
Defined.

(** X8.  [resize] to a negative size always throws a [RangeError], and
    it does so after the maximum has been overwritten: the free list is
    kept, and from then on [release] drops every particle it is
    given. *)
Theorem resize_negative (newSize : Z) (pl : Pool.Pool) :
  (newSize < 0)%Z ->
  let r := Pool.resize newSize pl in
  snd r = Abrupt RangeError /\
  Pool.maxSize (fst r) = newSize /\
  Pool.pool (fst r) = Pool.pool pl /\
  forall particles : list P.Particle,
    Pool.pool (fold_left (fun acc p => Pool.release p acc) particles (fst r))
    = Pool.pool pl.
Proof.
  intros Hneg r. subst r. unfold Pool.resize.
  assert (E : (newSize <? Z.of_nat (length (Pool.pool pl)))%Z = true)
    by (apply Z.ltb_lt; lia).
  assert (E0 : (newSize <? 0)%Z = true) by (apply Z.ltb_lt; lia).
  rewrite E, E0. cbn [fst snd Pool.maxSize Pool.pool].
  split; [reflexivity |]. split; [reflexivity |]. split; [reflexivity |].
  intros particles.
  set (pl1 := {| Pool.pool := Pool.pool pl; Pool.maxSize := newSize;
                 Pool.activeCount := Pool.activeCount pl;
                 Pool.totalCreated := Pool.totalCreated pl;
                 Pool.totalReused := Pool.totalReused pl |}).
  assert (Hgen : forall acc : Pool.Pool,
            Pool.maxSize acc = newSize ->
            Pool.pool (fold_left (fun acc p => Pool.release p acc) particles acc)
            = Pool.pool acc).
  { induction particles as [| p rest IH]; intros acc Hacc; [reflexivity |].
    cbn [fold_left].
    assert (Hfull : (Z.of_nat (length (Pool.pool acc)) <? Pool.maxSize acc)%Z = false)
      by (apply Z.ltb_ge; lia).
    rewrite IH; [| exact Hacc].
    unfold Pool.release. cbn [Pool.pool]. rewrite Hfull. reflexivity. }
  apply (Hgen pl1). reflexivity.
Qed.

Lemma resize_negative_witness :
  snd (Pool.resize (-1) Scenarios.pool_with_one) = Abrupt RangeError /\
  Pool.maxSize (fst (Pool.resize (-1) Scenarios.pool_with_one)) = (-1)%Z.
Proof.
  destruct (resize_negative (-1) Scenarios.pool_with_one) as [Hc [Hm _]].
  - lia.
  - split; [exact Hc | exact Hm].
Defined.

(** X9.  The pool never makes a particle of its own: whenever
    [acquire] returns a particle, that particle was the last one of the
    free list, initialised again; on an empty free list [acquire] throws
    a [TypeError] with the count of active particles already raised and
    the statistics left alone. *)
Theorem acquire_never_creates (M : MathObject) (map0 : option P.MapLibre)
    (c : option (Q * Q)) (t : option string) (n : nat) (pl : Pool.Pool) :
  let r := Pool.acquire M map0 c t n pl in
  (forall p : P.Particle,
     snd (fst r) = Normal p ->
     exists (q : P.Particle) (rest : list P.Particle),
       Pool.pool pl = push rest q /\
       Pool.pool (fst (fst r)) = rest /\
       p = fst (fst (P.init M map0 c t n q))) /\
  (Pool.pool pl = [] ->
   r = ({| Pool.pool := []; Pool.maxSize := Pool.maxSize pl;
           Pool.activeCount := (Pool.activeCount pl + 1)%Z;
           Pool.totalCreated := Pool.totalCreated pl;
           Pool.totalReused := Pool.totalReused pl |},
        Abrupt TypeError, n)).
Proof.
  intros r. subst r. split.
  - intros p. unfold Pool.acquire.
    destruct (Pool.pool pl) as [| a l] eqn:Hpool.
    + cbn. discriminate.
    + destruct (pop_nonempty (a :: l)) as (q & rest & Hpop & Hpush); [discriminate |].
      rewrite Hpop.
      destruct (P.init M map0 c t n q) as [[p' [u | e]] n'] eqn:Hinit.
      * cbn. intros Hp. injection Hp as <-.
        exists q, rest. split; [exact Hpush |]. split; [reflexivity |].
        rewrite Hinit. reflexivity.
      * cbn. discriminate.
  - intros Hempty. unfold Pool.acquire. rewrite Hempty. reflexivity.
Qed.

Section PoolStatistics.

Variable M : MathObject.

Lemma step_statistics (c : Pool.call) (pl : Pool.Pool) (n : nat) :
  let pl' := fst (Pool.step M c (pl, n)) in
  let grown := ((Pool.totalCreated pl' + Pool.totalReused pl')
                - (Pool.totalCreated pl + Pool.totalReused pl))%Z in
  (Pool.totalCreated pl <= Pool.totalCreated pl')%Z /\
  (Pool.totalReused pl <= Pool.totalReused pl')%Z /\
  (0 <= grown <= if Pool.is_acquire c then 1 else 0)%Z.
Proof.
  destruct c as [map0 c0 t0 | particle]; cbn [Pool.step Pool.is_acquire].
  - unfold Pool.acquire.
    destruct (pop (Pool.pool pl)) as [[p |] rest].
    + destruct (P.init M map0 c0 t0 n p) as [[p' [u | e]] n'];
        cbn; destruct (length rest =? 0)%nat; lia.
    + destruct (P.constructor M None None None n) as [[p | e] n1] eqn:Hc.
      * cbn in Hc. discriminate Hc.
      * cbn. lia.
  - cbn. lia.
Qed.

Lemma run_statistics (calls : list Pool.call) :
  forall (pl : Pool.Pool) (n : nat),
    let pl' := fst (Pool.run M calls (pl, n)) in
    (Pool.totalCreated pl <= Pool.totalCreated pl')%Z /\
    (Pool.totalReused pl <= Pool.totalReused pl')%Z /\
    (Pool.totalCreated pl' + Pool.totalReused pl'
     <= Pool.totalCreated pl + Pool.totalReused pl + Pool.acquires calls)%Z.
Proof.
  induction calls as [| c rest IH]; intros pl n.
  - cbn. unfold Pool.acquires. cbn. lia.
  - cbn [Pool.run].
    pose proof (step_statistics c pl n) as Hs. cbn zeta in Hs.
    destruct (Pool.step M c (pl, n)) as [pl1 n1] eqn:Hstep.
    cbn [fst] in Hs. specialize (IH pl1 n1). cbn zeta in IH.
    unfold Pool.acquires in *. cbn [filter].
    destruct (Pool.is_acquire c); cbn [length] in *; lia.
Qed.

End PoolStatistics.

(** X10.  Over any sequence of calls on a pool whose two statistics
    start at values that are not negative, neither statistic ever goes
    down, together they grow by at most one per [acquire], and the
    [reuseRatio] that [getStats] reports lies in [0, 1): it is 0 as long
    as no acquisition has emptied the free list, whatever was reused. *)
Theorem getStats_reuseRatio (M : MathObject) (calls : list Pool.call)
    (pl : Pool.Pool) (n : nat) :
  (0 <= Pool.totalCreated pl)%Z -> (0 <= Pool.totalReused pl)%Z ->
  let pl' := fst (Pool.run M calls (pl, n)) in
  let s := PoolStatistics.getStats pl' in
  (Pool.totalCreated pl <= PoolStatistics.totalCreated s)%Z /\
  (Pool.totalReused pl <= PoolStatistics.totalReused s)%Z /\
  (PoolStatistics.totalCreated s + PoolStatistics.totalReused s
   <= Pool.totalCreated pl + Pool.totalReused pl + Pool.acquires calls)%Z /\
  0 <= PoolStatistics.reuseRatio s /\ PoolStatistics.reuseRatio s < 1 /\
  (PoolStatistics.totalCreated s = 0%Z -> PoolStatistics.reuseRatio s = 0).
Proof.
  intros Hc Hr pl' s.
  destruct (run_statistics M calls pl n) as (H1 & H2 & H3).
  fold pl' in H1, H2, H3. subst s. unfold PoolStatistics.getStats.
  cbn [PoolStatistics.totalCreated PoolStatistics.totalReused PoolStatistics.reuseRatio].
  split; [exact H1 |]. split; [exact H2 |]. split; [exact H3 |].
  destruct (0 <? Pool.totalCreated pl')%Z eqn:E.
  - apply Z.ltb_lt in E.
    assert (Hden : 0 < inject_Z (Pool.totalCreated pl' + Pool.totalReused pl')).
    { unfold Qlt. cbn. lia. }
    split; [| split].
    + apply Qle_shift_div_l; [exact Hden |].
      rewrite Qmult_0_l. unfold Qle. cbn. lia.
    + apply Qlt_shift_div_r; [exact Hden |].
      rewrite Qmult_1_l. unfold Qlt. cbn. lia.
    + intros H0. lia.
  - split; [lra |]. split; [lra | reflexivity].
Qed.

Lemma getStats_reuseRatio_witness :
  let pl' := fst (Pool.run Scenarios.Math0
                    [Pool.Acquire (Some Scenarios.flat_map) (Some (74.55, 34.35))
                       (Some "Freshwater Lake")]
                    (Scenarios.pool_with_one, 0%nat)) in
  0 <= PoolStatistics.reuseRatio (PoolStatistics.getStats pl') /\
  PoolStatistics.reuseRatio (PoolStatistics.getStats pl') < 1.
Proof.
  destruct (getStats_reuseRatio Scenarios.Math0
              [Pool.Acquire (Some Scenarios.flat_map) (Some (74.55, 34.35))
                 (Some "Freshwater Lake")]
              Scenarios.pool_with_one 0%nat)
    as (_ & _ & _ & Hlo & Hhi & _).
  - vm_compute. discriminate.
  - vm_compute. discriminate.
  - split; [exact Hlo | exact Hhi].
Defined.

(** ** The particle system: activation, standstill, disposal *)

Lemma config_lifespan_positive (key : string) :
  0 < Lakes.min (Lakes.particleLifespan (Lakes.config_or_default key)).
Proof.
  unfold Lakes.config_or_default, Lakes.LAKE_CONFIG.
  repeat (match goal with
          | |- context [if ?b then _ else _] => destruct b
          end); cbn; lra.
Qed.

Lemma config_particleCount_positive (key : string) :
  (0 < Lakes.particleCount (Lakes.config_or_default key))%Z.
Proof.
  unfold Lakes.config_or_default, Lakes.LAKE_CONFIG.
  repeat (match goal with
          | |- context [if ?b then _ else _] => destruct b
          end); cbn; lia.
Qed.

Lemma customizeParticle_keeps (s : PS.System) (p : P.Particle) :
  P.isExpired (PS.customizeParticle s p) = P.isExpired p /\
  P.age (PS.customizeParticle s p) = P.age p /\
  P.lifespan (PS.customizeParticle s p) = P.lifespan p.
Proof.
  unfold PS.customizeParticle.
  destruct (String.eqb _ "Sacred Lake"); [cbn; auto |].
  destruct (String.eqb _ "High Altitude Lake"); [cbn; auto |].
  destruct (String.eqb _ "Salt Lake"); cbn; auto.
Qed.

Section SystemWithoutPool.

Variable M : MathObject.

Lemma constructor_completes (m : option P.MapLibre) (c : Q * Q) (t : string) (n : nat) :
  exists (p : P.Particle) (n' : nat),
    P.constructor M m (Some c) (Some t) n = (Normal p, n') /\
    SystemCalls.as_constructed p /\
    (unit_interval M -> 0 < P.lifespan p).
Proof.
  destruct c as [c0 c1]. cbn.
  eexists; eexists. split; [reflexivity |].
  split; [split; reflexivity |].
  intros HM. cbn [P.lifespan].
  pose proof (config_lifespan_positive (Lakes.getLakeConfigType t)) as Hpos.
  destruct (config_range_ordered (Lakes.getLakeConfigType t)) as [Hord _].
  destruct (HM (n + 2)%nat) as [H0 H1].
  set (cfg := Lakes.config_or_default (Lakes.getLakeConfigType t)) in *.
  nra.
Qed.

Lemma generate_without_pool (count : nat) :
  forall (w : PS.World) (s : PS.System),
    PS.particlePool w = None ->
    exists (s' : PS.System) (w' : PS.World),
      PS.generate M count w s = (s', w', Normal tt) /\
      PS.particlePool w' = None /\
      s' = PS.set_particles (PS.particles s') s /\
      SystemCalls.made_without_pool M s s' count.
Proof.
  induction count as [| k IH]; intros w s Hw.
  - exists s, w. cbn. split; [reflexivity |]. split; [exact Hw |].
    split; [destruct s; reflexivity |].
    exists []. rewrite app_nil_r. repeat split; constructor.
  - cbn [PS.generate]. unfold PS.obtainParticle. rewrite Hw.
    destruct (constructor_completes (PS.map s) (PS.center (PS.lakeData s))
                (PS.type (PS.lakeData s)) (PS.draws w))
      as (p & n' & Hc & Hfresh & Hlife).
    rewrite Hc.
    set (s1 := PS.set_particles (push (PS.particles s) (PS.customizeParticle s p)) s).
    set (w1 := {| PS.particlePool := None; PS.draws := n' |}).
    destruct (IH w1 s1 eq_refl) as (s' & w' & Hg & Hw' & Hs' & made & Hps & Hlen & Hall & Hpos).
    exists s', w'. split; [exact Hg |]. split; [exact Hw' |].
    split; [rewrite Hs' at 1; destruct s; reflexivity |].
    exists (PS.customizeParticle s p :: made).
    destruct (customizeParticle_keeps s p) as (He & Ha & Hl).
    split.
    { rewrite Hps. subst s1. cbn [PS.particles PS.set_particles]. unfold push.
      rewrite <- app_assoc. reflexivity. }
    split; [cbn [length]; lia |].
    split.
    { constructor; [| exact Hall]. destruct Hfresh as [Hf1 Hf2].
      split; [rewrite He; exact Hf1 | rewrite Ha; exact Hf2]. }
    intros HM. constructor; [rewrite Hl; exact (Hlife HM) | exact (Hpos HM)].
Qed.

End SystemWithoutPool.

Lemma filter_alive_standstill (SM : P.StateManager_binding) (delta : Q)
    (ps : list P.Particle) :
  Forall SystemCalls.as_constructed ps ->
  Forall (fun p => 0 < P.lifespan p) ps ->
  PS.filter_alive SM delta ps = (ps, Normal ps).
Proof.
  induction ps as [| p rest IH]; intros Hfresh Hpos; [reflexivity |].
  inversion Hfresh as [| ? ? [Hflag Hage] Hrest]; subst.
  inversion Hpos as [| ? ? Hp Hposrest]; subst.
  cbn [PS.filter_alive].
  rewrite (update_of_constructed SM delta p Hflag).
  unfold P.call_isExpired. rewrite Hflag, Hage.
  assert (Hnot : Qgeb 0 (P.lifespan p) = false).
  { unfold Qgeb. destruct (Qle_bool (P.lifespan p) 0) eqn:E; [| reflexivity].
    apply Qle_bool_iff in E. lra. }
  rewrite Hnot, (IH Hrest Hposrest). reflexivity.
Qed.

(** X11.  Without a pool, [activate] on an inactive system that holds
    no particles completes and fills the system up to its limit with
    particles made by the constructor; a second [activate] changes
    nothing. *)
Theorem activate_without_pool (M : MathObject) (w : PS.World) (s : PS.System) :
  PS.particlePool w = None ->
  PS.active s = false ->
  PS.particles s = [] ->
  exists (s' : PS.System) (w' : PS.World),
    PS.activate M w s = (s', w', Normal tt) /\
    PS.active s' = true /\
    PS.particleLimit s' = PS.particleLimit s /\
    length (PS.particles s') = Z.to_nat (PS.particleLimit s) /\
    Forall SystemCalls.as_constructed (PS.particles s') /\
    PS.activate M w' s' = (s', w', Normal tt).
Proof.
  intros Hw Hinactive Hnone. unfold PS.activate at 1. rewrite Hinactive.
  cbn [PS.particles PS.set_active]. rewrite Hnone. cbn [length Nat.eqb].
  unfold PS.generateParticles. cbn [PS.particleLimit PS.set_active].
  destruct (generate_without_pool M (Z.to_nat (PS.particleLimit s)) w
              (PS.set_active true s) Hw)
    as (s' & w' & Hg & Hw' & Hs' & made & Hps & Hlen & Hall & _).
  exists s', w'. split; [exact Hg |].
  assert (Hact : PS.active s' = true) by (rewrite Hs'; reflexivity).
  split; [exact Hact |].
  split; [rewrite Hs'; reflexivity |].
  cbn [PS.particles PS.set_active] in Hps. rewrite Hnone in Hps. cbn [app] in Hps.
  split; [rewrite Hps; exact Hlen |].
  split; [rewrite Hps; exact Hall |].
  unfold PS.activate. rewrite Hact. reflexivity.
Qed.

Lemma activate_without_pool_witness :
  exists (s' : PS.System) (w' : PS.World),
    PS.activate Scenarios.Math0 Scenarios.world_without_pool
      (PS.constructor (Some Scenarios.flat_map) "wular" Scenarios.wular)
    = (s', w', Normal tt) /\
    length (PS.particles s') = 1000%nat.
Proof.
  destruct (activate_without_pool Scenarios.Math0 Scenarios.world_without_pool
              (PS.constructor (Some Scenarios.flat_map) "wular" Scenarios.wular)
              eq_refl eq_refl eq_refl)
    as (s' & w' & Ha & _ & _ & Hlen & _).
  exists s', w'. split; [exact Ha | exact Hlen].
Defined.

(** X12.  Without a pool nothing ever moves: after [activate], every
    later [update] completes and leaves the particles exactly as the
    constructor made them, whatever the time steps; they do not age, do
    not expire and are not replaced.  Only the frame counter
    advances. *)
Theorem system_without_pool_stands_still (M : MathObject) (SM : P.StateManager_binding)
    (deltas : list Q) (w : PS.World) (s : PS.System) :
  unit_interval M ->
  PS.particlePool w = None ->
  PS.active s = false ->
  PS.particles s = [] ->
  exists (s1 : PS.System) (w1 : PS.World),
    PS.activate M w s = (s1, w1, Normal tt) /\
    SystemCalls.updates M SM deltas w1 s1
    = (PS.set_frameCount (PS.frameCount s + Z.of_nat (length deltas)) s1, w1, Normal tt).
Proof.
  intros HM Hw Hinactive Hnone. unfold PS.activate. rewrite Hinactive.
  cbn [PS.particles PS.set_active]. rewrite Hnone. cbn [length Nat.eqb].
  unfold PS.generateParticles. cbn [PS.particleLimit PS.set_active].
  destruct (generate_without_pool M (Z.to_nat (PS.particleLimit s)) w
              (PS.set_active true s) Hw)
    as (s1 & w1 & Hg & Hw1 & Hs1 & made & Hps & Hlen & Hall & Hpos).
  exists s1, w1. split; [exact Hg |].
  cbn [PS.particles PS.set_active] in Hps. rewrite Hnone in Hps. cbn [app] in Hps.
  specialize (Hpos HM).
  assert (Hfc : PS.frameCount s1 = PS.frameCount s) by (rewrite Hs1; reflexivity).
  assert (Hlim : PS.particleLimit s1 = PS.particleLimit s) by (rewrite Hs1; reflexivity).
  assert (Hact : PS.active s1 = true) by (rewrite Hs1; reflexivity).
  rewrite <- Hfc. rewrite <- Hlim in Hlen.
  clear Hg Hs1 Hfc Hlim Hw Hinactive Hnone s w.
  rewrite <- Hps in Hall, Hpos, Hlen. clear Hps made.
  revert s1 Hact Hall Hpos Hlen.
  induction deltas as [| delta rest IH]; intros s1 Hact Hall Hpos Hlen.
  - cbn. replace (PS.frameCount s1 + 0)%Z with (PS.frameCount s1) by lia.
    destruct s1; reflexivity.
  - cbn [SystemCalls.updates]. unfold PS.update. rewrite Hact. cbn [negb].
    rewrite (filter_alive_standstill SM delta (PS.particles s1) Hall Hpos).
    cbn [PS.particleLimit PS.set_particles].
    assert (Hfull : (Z.of_nat (length (PS.particles s1)) <? PS.particleLimit s1)%Z = false).
    { apply Z.ltb_ge. rewrite Hlen. lia. }
    rewrite Hfull.
    set (s2 := PS.set_frameCount
                 (PS.frameCount (PS.set_particles (PS.particles s1) s1) + 1)
                 (PS.set_particles (PS.particles s1) s1)).
    rewrite (IH s2); [| reflexivity || exact Hact | exact Hall | exact Hpos | exact Hlen].
    subst s2. cbn [PS.frameCount PS.set_frameCount PS.set_particles].
    unfold PS.set_frameCount. cbn. do 2 f_equal. f_equal.
    cbn [length]. lia.
Qed.

Lemma system_without_pool_stands_still_witness :
  exists (s1 : PS.System) (w1 : PS.World),
    PS.activate (Scenarios.constant_draws 0.5) Scenarios.world_without_pool
      (PS.constructor (Some Scenarios.flat_map) "wular" Scenarios.wular)
    = (s1, w1, Normal tt) /\
    SystemCalls.updates (Scenarios.constant_draws 0.5) (P.Declared true)
      [16; 5000; 100000] w1 s1
    = (PS.set_frameCount 3 s1, w1, Normal tt).
Proof.
  apply (system_without_pool_stands_still (Scenarios.constant_draws 0.5) (P.Declared true)
           [16; 5000; 100000] Scenarios.world_without_pool
           (PS.constructor (Some Scenarios.flat_map) "wular" Scenarios.wular)).
  - intros n. cbn. split; [unfold Qle; cbn; lia | unfold Qlt; cbn; lia].
  - reflexivity.
  - reflexivity.
  - reflexivity.
Defined.

Section SystemWithPool.

Variable M : MathObject.

Lemma acquire_from_free_list (m : P.MapLibre) (c : Q * Q) (t : option string)
    (n : nat) (pl : Pool.Pool) (q : P.Particle) (rest : list P.Particle) :
  pop (Pool.pool pl) = (Some q, rest) ->
  exists (pl' : Pool.Pool) (p : P.Particle) (n' : nat),
    Pool.acquire M (Some m) (Some c) t n pl = (pl', Normal p, n') /\
    Pool.pool pl' = rest /\
    Pool.activeCount pl' = (Pool.activeCount pl + 1)%Z /\
    P.isExpired p = P.OwnBoolean false.
Proof.
  intros Hpop. unfold Pool.acquire. rewrite Hpop.
  destruct c as [c0 c1]. cbn.
  eexists; eexists; eexists. split; [reflexivity |].
  cbn. repeat split; reflexivity.
Qed.

Lemma generate_drains_pool (count : nat) :
  forall (w : PS.World) (s : PS.System) (pl : Pool.Pool) (m : P.MapLibre),
    PS.particlePool w = Some pl ->
    PS.map s = Some m ->
    (length (Pool.pool pl) < count)%nat ->
    exists (s' : PS.System) (pl' : Pool.Pool) (n' : nat) (taken : list P.Particle),
      PS.generate M count w s
      = (s', {| PS.particlePool := Some pl'; PS.draws := n' |}, Abrupt TypeError) /\
      Pool.pool pl' = [] /\
      Pool.activeCount pl'
      = (Pool.activeCount pl + Z.of_nat (length (Pool.pool pl)) + 1)%Z /\
      s' = PS.set_particles (PS.particles s ++ taken) s /\
      length taken = length (Pool.pool pl) /\
      Forall (fun p => P.isExpired p = P.OwnBoolean false) taken.
Proof.
  induction count as [| k IH]; intros w s pl m Hw Hm Hlt; [lia |].
  cbn [PS.generate]. unfold PS.obtainParticle. rewrite Hw, Hm.
  destruct (Pool.pool pl) as [| a l] eqn:Hpool.
  - unfold Pool.acquire. rewrite Hpool. cbn.
    eexists; eexists; eexists; exists []. split; [reflexivity |].
    cbn. split; [reflexivity |]. split; [lia |].
    split; [rewrite app_nil_r; destruct s; reflexivity |].
    split; [reflexivity | constructor].
  - destruct (pop_nonempty (a :: l)) as (q & rest & Hpop & Hpush); [discriminate |].
    rewrite <- Hpool in Hpop.
    destruct (acquire_from_free_list m (PS.center (PS.lakeData s))
                (Some (PS.type (PS.lakeData s))) (PS.draws w) pl q rest Hpop)
      as (pl1 & p & n1 & Hacq & Hrest & Hcount & Hflag).
    rewrite Hacq.
    assert (Hlen : length (a :: l) = S (length rest)).
    { rewrite Hpush. apply length_push. }
    set (s1 := PS.set_particles (push (PS.particles s) (PS.customizeParticle s p)) s).
    destruct (IH {| PS.particlePool := Some pl1; PS.draws := n1 |} s1 pl1 m
                eq_refl Hm)
      as (s' & pl' & n' & taken & Hg & Hempty & Hactive & Hs' & Htaken & Hall).
    { rewrite Hrest. rewrite Hlen in Hlt. lia. }
    exists s', pl', n', (PS.customizeParticle s p :: taken).
    split; [exact Hg |]. split; [exact Hempty |].
    split; [rewrite Hactive, Hcount, Hrest, Hlen; lia |].
    split.
    { rewrite Hs'. subst s1. cbn [PS.particles PS.set_particles]. unfold push.
      rewrite <- app_assoc. destruct s; reflexivity. }
    split; [rewrite Hlen; cbn [length]; rewrite Htaken, Hrest; reflexivity |].
    constructor; [| exact Hall].
    destruct (customizeParticle_keeps s p) as (He & _). rewrite He. exact Hflag.
Qed.

End SystemWithPool.

(** X13.  With a pool that holds fewer free particles than the limit
    of the system, [activate] on an inactive system without particles
    takes every particle of the pool and then throws a [TypeError].  The
    system is left marked active with only those particles, so a second
    [activate] returns at once and generates nothing, and as soon as the
    system holds a particle every [update] throws. *)
Theorem activate_with_short_pool (M : MathObject) (SM : P.StateManager_binding)
    (w : PS.World) (s : PS.System) (pl : Pool.Pool) (m : P.MapLibre) :
  PS.particlePool w = Some pl ->
  PS.map s = Some m ->
  PS.active s = false ->
  PS.particles s = [] ->
  (Z.of_nat (length (Pool.pool pl)) < PS.particleLimit s)%Z ->
  exists (s' : PS.System) (w' : PS.World) (pl' : Pool.Pool),
    PS.activate M w s = (s', w', Abrupt TypeError) /\
    PS.active s' = true /\
    length (PS.particles s') = length (Pool.pool pl) /\
    PS.particlePool w' = Some pl' /\
    Pool.pool pl' = [] /\
    Pool.activeCount pl' = (Pool.activeCount pl + Z.of_nat (length (Pool.pool pl)) + 1)%Z /\
    PS.activate M w' s' = (s', w', Normal tt) /\
    (forall delta : Q,
       Pool.pool pl <> [] -> is_abrupt (snd (PS.update M SM delta w' s')) = true).
Proof.
  intros Hw Hm Hinactive Hnone Hshort. unfold PS.activate at 1. rewrite Hinactive.
  cbn [PS.particles PS.set_active]. rewrite Hnone. cbn [length Nat.eqb].
  unfold PS.generateParticles. cbn [PS.particleLimit PS.set_active].
  destruct (generate_drains_pool M (Z.to_nat (PS.particleLimit s)) w
              (PS.set_active true s) pl m Hw Hm)
    as (s' & pl' & n' & taken & Hg & Hempty & Hcount & Hs' & Hlen & Hall); [lia |].
  cbn [PS.particles PS.set_active] in Hs'. rewrite Hnone in Hs'. cbn [app] in Hs'.
  exists s', {| PS.particlePool := Some pl'; PS.draws := n' |}, pl'.
  assert (Hact : PS.active s' = true) by (rewrite Hs'; reflexivity).
  assert (Hps : PS.particles s' = taken) by (rewrite Hs'; reflexivity).
  split; [exact Hg |]. split; [exact Hact |].
  split; [rewrite Hps; exact Hlen |].
  split; [reflexivity |]. split; [exact Hempty |]. split; [exact Hcount |].
  split; [unfold PS.activate; rewrite Hact; reflexivity |].
  intros delta Hne.
  destruct taken as [| p rest].
  - destruct (Pool.pool pl); [congruence | discriminate Hlen].
  - apply Forall_inv in Hall.
    exact (update_own_flag_throws M SM delta _ s' p rest false Hact Hps Hall).
Qed.

Lemma activate_with_short_pool_witness :
  exists (s' : PS.System) (w' : PS.World) (pl' : Pool.Pool),
    PS.activate Scenarios.Math0 Scenarios.world_with_pool
      (PS.constructor (Some Scenarios.flat_map) "pushkar" Scenarios.pushkar)
    = (s', w', Abrupt TypeError) /\
    PS.active s' = true /\
    length (PS.particles s') = 1%nat.
Proof.
  destruct (activate_with_short_pool Scenarios.Math0 P.Undeclared
              Scenarios.world_with_pool
              (PS.constructor (Some Scenarios.flat_map) "pushkar" Scenarios.pushkar)
              Scenarios.pool_with_one Scenarios.flat_map
              eq_refl eq_refl eq_refl eq_refl)
    as (s' & w' & pl' & Ha & Hact & Hlen & _).
  - vm_compute. reflexivity.
  - exists s', w', pl'. split; [exact Ha |]. split; [exact Hact | exact Hlen].
Defined.

Lemma release_all (particles : list P.Particle) :
  forall pl : Pool.Pool,
    let pl' := fold_left (fun acc p => Pool.release p acc) particles pl in
    Pool.activeCount pl' = (Pool.activeCount pl - Z.of_nat (length particles))%Z /\
    Pool.maxSize pl' = Pool.maxSize pl /\
    Pool.totalCreated pl' = Pool.totalCreated pl /\
    Pool.totalReused pl' = Pool.totalReused pl /\
    ((Z.of_nat (length (Pool.pool pl) + length particles) <= Pool.maxSize pl)%Z ->
     Pool.pool pl' = Pool.pool pl ++ List.map P.reset particles).
Proof.
  induction particles as [| p rest IH]; intros pl.
  - cbn. split; [lia |]. repeat split; try reflexivity.
    intros _. rewrite app_nil_r. reflexivity.
  - cbn [fold_left]. specialize (IH (Pool.release p pl)). cbn zeta in IH.
    destruct IH as (Ha & Hm & Hc & Hr & Hpool).
    cbn zeta. split; [rewrite Ha; cbn [length Pool.release Pool.activeCount]; lia |].
    split; [rewrite Hm; reflexivity |].
    split; [rewrite Hc; reflexivity |].
    split; [rewrite Hr; reflexivity |].
    intros Hroom. cbn [length] in Hroom.
    assert (Hlt : (Z.of_nat (length (Pool.pool pl)) <? Pool.maxSize pl)%Z = true)
      by (apply Z.ltb_lt; lia).
    assert (Hrel : Pool.pool (Pool.release p pl) = Pool.pool pl ++ [P.reset p]).
    { unfold Pool.release. cbn [Pool.pool]. rewrite Hlt. reflexivity. }
    rewrite Hpool.
    + rewrite Hrel. cbn [List.map]. rewrite <- app_assoc. reflexivity.
    + rewrite Hrel, length_app. cbn [length Pool.release Pool.maxSize]. lia.
Qed.

(** X14.  [dispose] empties the system and hands every particle to the
    pool: the count of active particles goes down by the number of
    particles, the statistics stay, and when the free list has room for
    all of them it grows by exactly these particles, reset, in their
    order.  Without a pool the particles are dropped. *)
Theorem dispose_releases (w : PS.World) (s : PS.System) (pl : Pool.Pool) :
  PS.particlePool w = Some pl ->
  let r := PS.dispose w s in
  PS.particles (fst r) = [] /\
  PS.active (fst r) = PS.active s /\
  exists pl' : Pool.Pool,
    PS.particlePool (snd r) = Some pl' /\
    Pool.activeCount pl' = (Pool.activeCount pl - Z.of_nat (length (PS.particles s)))%Z /\
    Pool.maxSize pl' = Pool.maxSize pl /\
    Pool.totalCreated pl' = Pool.totalCreated pl /\
    Pool.totalReused pl' = Pool.totalReused pl /\
    ((Z.of_nat (length (Pool.pool pl) + length (PS.particles s)) <= Pool.maxSize pl)%Z ->
     Pool.pool pl' = Pool.pool pl ++ List.map P.reset (PS.particles s)).
Proof.
  intros Hw r. subst r. unfold PS.dispose. rewrite Hw. cbn [fst snd].
  split; [reflexivity |]. split; [reflexivity |].
  eexists. split; [reflexivity |].
  exact (release_all (PS.particles s) pl).
Qed.

Lemma dispose_releases_witness :
  PS.particles (fst (PS.dispose Scenarios.world_with_pool Scenarios.calm_system)) = [] /\
  exists pl' : Pool.Pool,
    PS.particlePool (snd (PS.dispose Scenarios.world_with_pool Scenarios.calm_system))
    = Some pl' /\
    Pool.activeCount pl'
    = (Pool.activeCount Scenarios.pool_with_one - 2)%Z.
Proof.
  destruct (dispose_releases Scenarios.world_with_pool Scenarios.calm_system
              Scenarios.pool_with_one eq_refl)
    as (Hp & _ & pl' & Hw & Ha & _).
  split; [exact Hp |]. exists pl'. split; [exact Hw | exact Ha].
Defined.

(** X15.  [deactivate] keeps the particles in the system (none goes
    back to the pool) but hides them: [getActiveParticles] is empty and
    [update] and [applyForce] do nothing.  For a system that holds
    particles, [activate] afterwards restores exactly the system as it
    was, without generating anything. *)
Theorem deactivate_then_activate (M : MathObject) (SM : P.StateManager_binding)
    (w : PS.World) (s : PS.System) :
  PS.active s = true ->
  PS.particles s <> [] ->
  let s' := SystemCalls.deactivate s in
  PS.particles s' = PS.particles s /\
  SystemCalls.getActiveParticles s' = [] /\
  (forall delta : Q, PS.update M SM delta w s' = (s', w, Normal tt)) /\
  (forall x y intensity : Q, SystemCalls.applyForce x y intensity s' = s') /\
  PS.activate M w s' = (s, w, Normal tt).
Proof.
  intros Hact Hne s'. subst s'. unfold SystemCalls.deactivate. rewrite Hact. cbn [negb].
  split; [reflexivity |]. split; [reflexivity |].
  split; [intros delta; reflexivity |].
  split; [intros x y i; reflexivity |].
  unfold PS.activate. cbn [PS.active PS.set_active PS.particles].
  destruct (PS.particles s) as [| p rest] eqn:Hps; [congruence |].
  cbn [length Nat.eqb]. destruct s; cbn in *. subst. reflexivity.
Qed.

Lemma deactivate_then_activate_witness :
  PS.activate Scenarios.Math0 Scenarios.world_without_pool
    (SystemCalls.deactivate Scenarios.calm_system)
  = (Scenarios.calm_system, Scenarios.world_without_pool, Normal tt).
Proof.
  destruct (deactivate_then_activate Scenarios.Math0 P.Undeclared
              Scenarios.world_without_pool Scenarios.calm_system)
    as (_ & _ & _ & _ & H).
  - reflexivity.
  - discriminate.
  - exact H.
Defined.

(** ** The spatial grid: accounting and shape of the map *)

Lemma collect_counts (visible : list SG.Key) (cells : list (SG.Key * list P.Particle)) :
  (Z.of_nat (length (fst (SG.collect visible cells))) + snd (SG.collect visible cells)
   = GridContents.stored cells)%Z.
Proof.
  induction cells as [| [k ps] rest IH]; [reflexivity |].
  cbn [SG.collect GridContents.stored].
  destruct (SG.collect visible rest) as [result culled]. cbn [fst snd] in IH.
  destruct (SG.has visible k); cbn [fst snd].
  - rewrite length_app. lia.
  - lia.
Qed.

Lemma stored_add_to_cell (k : SG.Key) (p : P.Particle)
    (cells : list (SG.Key * list P.Particle)) :
  GridContents.stored (SG.add_to_cell k p cells) = (GridContents.stored cells + 1)%Z.
Proof.
  induction cells as [| [k' ps] rest IH]; [reflexivity |].
  cbn [SG.add_to_cell]. destruct (SG.key_eqb k' k); cbn [GridContents.stored].
  - rewrite length_push. lia.
  - rewrite IH. lia.
Qed.

Lemma insert_all_counts (ps : list P.Particle) :
  forall g : SG.Grid,
    let g' := SG.insert_all ps g in
    let added := Z.of_nat (length (filter SG.insertable ps)) in
    SG.particles (SG.metrics g') = (SG.particles (SG.metrics g) + added)%Z /\
    SG.culledParticles (SG.metrics g') = SG.culledParticles (SG.metrics g) /\
    GridContents.stored (SG.grid g') = (GridContents.stored (SG.grid g) + added)%Z /\
    SG.cellSize g' = SG.cellSize g.
Proof.
  induction ps as [| p rest IH]; intros g.
  - cbn. repeat split; lia.
  - unfold SG.insert_all in *. cbn [fold_left filter].
    specialize (IH (SG.insert (Some p) g)). cbn zeta in IH.
    destruct IH as (Hp & Hc & Hs & Hcs). cbn zeta.
    rewrite Hp, Hc, Hs, Hcs. unfold SG.insert, SG.insertable.
    destruct (P.position p); cbn [SG.metrics SG.particles SG.culledParticles SG.grid
                                   SG.cellSize length].
    + rewrite stored_add_to_cell. repeat split; lia.
    + repeat split; lia.
Qed.

Lemma query_effect (b : SG.Bounds) (g : SG.Grid) :
  let visible := SG.visibleCells (SG.updateVisibleCells (Some b) (SG.constructor (SG.cellSize g))) in
  let r := SG.query (Some b) g in
  snd r = fst (SG.collect visible (SG.grid g)) /\
  SG.culledParticles (SG.metrics (fst r))
  = (SG.culledParticles (SG.metrics g) + snd (SG.collect visible (SG.grid g)))%Z /\
  SG.particles (SG.metrics (fst r)) = SG.particles (SG.metrics g) /\
  SG.grid (fst r) = SG.grid g /\
  SG.cellSize (fst r) = SG.cellSize g.
Proof.
  intros visible r. subst r. unfold SG.query.
  change (SG.visibleCells (SG.updateVisibleCells (Some b) g)) with visible.
  change (SG.grid (SG.updateVisibleCells (Some b) g)) with (SG.grid g).
  destruct (SG.collect visible (SG.grid g)) as [result culled].
  cbn. repeat split; reflexivity.
Qed.

(** X16.  For a grid with a positive cell size (with a cell size of
    zero the loop of [updateVisibleCells] does not end): after [clear]
    and any number of [insert] calls, the first [query] accounts for
    every particle: [metrics.particles] is the number of particles that
    had a position, and each of them is either returned or counted as
    culled.  A second [query] with the same bounds returns the same
    particles but counts the culled ones once more. *)
Theorem query_accounts_for_every_particle (b : SG.Bounds) (ps : list P.Particle)
    (g0 : SG.Grid) :
  0 < SG.cellSize g0 ->
  let g := SG.insert_all ps (SG.clear g0) in
  let first := SG.query (Some b) g in
  let second := SG.query (Some b) (fst first) in
  SG.particles (SG.metrics (fst first)) = Z.of_nat (length (filter SG.insertable ps)) /\
  (Z.of_nat (length (snd first)) + SG.culledParticles (SG.metrics (fst first))
   = SG.particles (SG.metrics (fst first)))%Z /\
  snd second = snd first /\
  SG.culledParticles (SG.metrics (fst second))
  = (2 * SG.culledParticles (SG.metrics (fst first)))%Z.
Proof.
  intros _ g first second.
  destruct (insert_all_counts ps (SG.clear g0)) as (Hp & Hc & Hs & _).
  fold g in Hp, Hc, Hs. cbn in Hp, Hc, Hs.
  destruct (query_effect b g) as (Hr1 & Hc1 & Hp1 & Hg1 & Hcs1).
  fold first in Hr1, Hc1, Hp1, Hg1, Hcs1.
  destruct (query_effect b (fst first)) as (Hr2 & Hc2 & _).
  fold second in Hr2, Hc2. rewrite Hg1, Hcs1 in Hr2, Hc2.
  pose proof (collect_counts
                (SG.visibleCells
                   (SG.updateVisibleCells (Some b) (SG.constructor (SG.cellSize g))))
                (SG.grid g)) as Hcount.
  rewrite <- Hr1 in Hcount.
  split; [lia |]. split; [lia |]. split; [congruence | lia].
Qed.

(** Three particles on the screen and one without a position, in the
    default grid: three are counted, and returned or culled. *)
Lemma query_accounts_for_every_particle_witness :
  let ps := [Scenarios.on_screen 50 50; Scenarios.on_screen 250 50;
             Scenarios.blank; Scenarios.on_screen 950 950] in
  let g := SG.insert_all ps (SG.clear (SG.constructor 100)) in
  let first := SG.query (Some Scenarios.viewport) g in
  let second := SG.query (Some Scenarios.viewport) (fst first) in
  SG.particles (SG.metrics (fst first)) = Z.of_nat (length (filter SG.insertable ps)) /\
  (Z.of_nat (length (snd first)) + SG.culledParticles (SG.metrics (fst first))
   = SG.particles (SG.metrics (fst first)))%Z /\
  snd second = snd first /\
  SG.culledParticles (SG.metrics (fst second))
  = (2 * SG.culledParticles (SG.metrics (fst first)))%Z.
Proof.
  apply (query_accounts_for_every_particle Scenarios.viewport
           [Scenarios.on_screen 50 50; Scenarios.on_screen 250 50;
            Scenarios.blank; Scenarios.on_screen 950 950]
           (SG.constructor 100)).
  reflexivity.
Defined.

Lemma add_to_cell_keys (k : SG.Key) (p : P.Particle)
    (cells : list (SG.Key * list P.Particle)) :
  List.map fst (SG.add_to_cell k p cells)
  = if SG.has (List.map fst cells) k then List.map fst cells
    else List.map fst cells ++ [k].
Proof.
  induction cells as [| [k' ps] rest IH]; [reflexivity |].
  cbn [SG.add_to_cell List.map fst]. unfold SG.has in *. cbn [existsb].
  destruct (SG.key_eqb k' k) eqn:E.
  - apply key_eqb_eq in E. subst k'. rewrite key_eqb_refl. reflexivity.
  - assert (E' : SG.key_eqb k k' = false).
    { destruct (SG.key_eqb k k') eqn:E2; [| reflexivity].
      apply key_eqb_eq in E2. subst k'. rewrite key_eqb_refl in E. discriminate. }
    rewrite E'. cbn [orb List.map fst]. rewrite IH.
    destruct (existsb (SG.key_eqb k) (List.map fst rest)); reflexivity.
Qed.

Lemma add_to_cell_well_formed (g : SG.Grid) (p : P.Particle)
    (cells : list (SG.Key * list P.Particle)) :
  SG.insertable p = true ->
  Forall (GridContents.well_formed_cell g) cells ->
  Forall (GridContents.well_formed_cell g) (SG.add_to_cell (SG.cell_of g p) p cells).
Proof.
  intros Hp. induction cells as [| [k' ps] rest IH]; intros Hall.
  - cbn. constructor; [| constructor]. split; [discriminate |].
    cbn. constructor; [split; [exact Hp | reflexivity] | constructor].
  - inversion Hall as [| ? ? [Hne Hcell] Hrest]; subst.
    cbn [SG.add_to_cell]. destruct (SG.key_eqb k' (SG.cell_of g p)) eqn:E.
    + apply key_eqb_eq in E. constructor; [| exact Hrest].
      split; cbn [fst snd] in *.
      * unfold push. destruct ps; discriminate.
      * unfold push. apply Forall_app. split; [exact Hcell |].
        constructor; [split; [exact Hp | symmetry; exact E] | constructor].
    + constructor; [split; assumption | apply IH; exact Hrest].
Qed.

Lemma well_formed_cell_cellSize (g g' : SG.Grid)
    (cell : SG.Key * list P.Particle) :
  SG.cellSize g = SG.cellSize g' ->
  GridContents.well_formed_cell g cell -> GridContents.well_formed_cell g' cell.
Proof.
  intros Hcs [Hne Hall]. split; [exact Hne |].
  eapply Forall_impl; [| exact Hall]. cbn. intros p [Hp Hk].
  split; [exact Hp |]. rewrite <- Hk. symmetry. apply cell_of_cellSize. exact Hcs.
Qed.

Lemma insert_all_shape (ps : list P.Particle) :
  forall g : SG.Grid,
    NoDup (List.map fst (SG.grid g)) ->
    Forall (GridContents.well_formed_cell g) (SG.grid g) ->
    let g' := SG.insert_all ps g in
    NoDup (List.map fst (SG.grid g')) /\
    Forall (GridContents.well_formed_cell g') (SG.grid g').
Proof.
  induction ps as [| p rest IH]; intros g Hnd Hwf; [split; assumption |].
  unfold SG.insert_all in *. cbn [fold_left]. apply IH.
  - unfold SG.insert. destruct (P.position p); [| exact Hnd].
    cbn [SG.grid]. rewrite add_to_cell_keys.
    destruct (SG.has (List.map fst (SG.grid g)) (SG.cell_of g p)) eqn:E; [exact Hnd |].
    apply NoDup_app; [exact Hnd | constructor; [intros [] | constructor] |].
    intros k Hin [Hk | []]. subst k.
    apply has_In in Hin. congruence.
  - assert (Hcs : SG.cellSize g = SG.cellSize (SG.insert (Some p) g))
      by (symmetry; apply insert_cellSize).
    unfold SG.insert in *. destruct (P.position p) eqn:Hpos; [| exact Hwf].
    cbn [SG.grid].
    eapply Forall_impl; [intros cell; apply (well_formed_cell_cellSize g); exact Hcs |].
    apply add_to_cell_well_formed; [| exact Hwf].
    unfold SG.insertable. rewrite Hpos. reflexivity.
Qed.

(** X17.  After [clear] and any number of [insert] calls the map holds
    every key once, no cell is empty, and every particle of a cell has a
    position and screen coordinates that fall into that cell. *)
Theorem insert_keeps_cells_well_formed (ps : list P.Particle) (g0 : SG.Grid) :
  let g := SG.insert_all ps (SG.clear g0) in
  NoDup (List.map fst (SG.grid g)) /\
  Forall (GridContents.well_formed_cell g) (SG.grid g).
Proof.
  apply insert_all_shape; cbn; constructor.
Qed.

(** ** Lake types and colours *)

Lemma lower_ascii_idempotent (c : ascii) :
  Lakes.lower_ascii (Lakes.lower_ascii c) = Lakes.lower_ascii c.
Proof.
  destruct c as [b0 b1 b2 b3 b4 b5 b6 b7].
  destruct b0, b1, b2, b3, b4, b5, b6, b7; vm_compute; reflexivity.
Qed.

Lemma toLowerCase_idempotent (s : string) :
  Lakes.toLowerCase (Lakes.toLowerCase s) = Lakes.toLowerCase s.
Proof.
  induction s as [| c rest IH]; [reflexivity |].
  cbn [Lakes.toLowerCase]. rewrite lower_ascii_idempotent, IH. reflexivity.
Qed.

Lemma getLakeConfigType_values (s : string) :
  In (Lakes.getLakeConfigType s)
     ["Freshwater Lake"; "High Altitude Lake"; "Urban Lake"; "Sacred Lake";
      "Salt Lake"; "Brackish Lake"].
Proof.
  unfold Lakes.getLakeConfigType.
  repeat (match goal with
          | |- context [if ?b then _ else _] => destruct b
          end); cbn; auto 10.
Qed.

(** X18.  [getLakeConfigType] always answers with a key of
    [LAKE_CONFIG], so the fallback to the freshwater configuration that
    its callers keep is never taken; it does not depend on the case of
    the letters of its argument, and applied to one of its own answers
    it returns that answer. *)
Theorem getLakeConfigType_answers_a_key (s : string) :
  (exists cfg : Lakes.TypeConfig,
     Lakes.LAKE_CONFIG (Lakes.getLakeConfigType s) = Some cfg /\
     Lakes.config_or_default (Lakes.getLakeConfigType s) = cfg) /\
  Lakes.getLakeConfigType (Lakes.toLowerCase s) = Lakes.getLakeConfigType s /\
  Lakes.getLakeConfigType (Lakes.getLakeConfigType s) = Lakes.getLakeConfigType s.
Proof.
  split; [| split].
  - pose proof (getLakeConfigType_values s) as H. cbn [In] in H.
    unfold Lakes.config_or_default.
    destruct H as [H | [H | [H | [H | [H | [H | []]]]]]]; rewrite <- H;
      eexists; split; reflexivity.
  - unfold Lakes.getLakeConfigType. rewrite toLowerCase_idempotent. reflexivity.
  - pose proof (getLakeConfigType_values s) as H. cbn [In] in H.
    destruct H as [H | [H | [H | [H | [H | [H | []]]]]]]; rewrite <- H;
      vm_compute; reflexivity.
Qed.

(** X19.  [getLakeColors] returns for every lake type, and its [glow]
    is the base colour itself: the colours of the table are written as
    ["#rrggbb"], which holds neither [")"] nor ["rgb"], so the glow
    intensity never enters the string. *)
Theorem getLakeColors_glow_is_base (toString : Q -> string) (s : string) :
  exists colors : LakeColors.Colors,
    LakeColors.getLakeColors toString s = Normal colors /\
    LakeColors.glow colors = LakeColors.base colors /\
    LakeColors.base colors = Lakes.color (Lakes.config_or_default (Lakes.getLakeConfigType s)).
Proof.
  unfold LakeColors.getLakeColors, Lakes.config_or_default.
  pose proof (getLakeConfigType_values s) as H. cbn [In] in H.
  destruct H as [H | [H | [H | [H | [H | [H | []]]]]]]; rewrite <- H;
    eexists; (split; [reflexivity |]); split; reflexivity.
Qed.

(** ** The quality governor: device tier and single steps *)

Lemma Qgeb_false (a b : Q) : Qgeb a b = false -> a < b.
Proof.
  unfold Qgeb. intros H. apply Qnot_le_lt. intros Hle.
  apply Qle_bool_iff in Hle. congruence.
Qed.

Lemma Qmin_le_r (a b : Q) : PO.Qmin a b <= b.
Proof.
  unfold PO.Qmin. destruct (Qle_bool a b) eqn:E; [apply Qle_bool_iff; exact E | lra].
Qed.

Lemma gpuScore_bounds (r : string) : 0 <= QS.gpuScore r /\ QS.gpuScore r <= 50.
Proof.
  unfold QS.gpuScore.
  repeat (match goal with
          | |- context [if ?b then _ else _] => destruct b
          end); split; lra.
Qed.

(** X20.  [detectDeviceTier] always names one of the five quality
    levels, so the constructor's [setQualityLevel] accepts it.  It
    answers ["ultra"] only off mobile devices and only for a renderer
    that scores at least 20 (an Intel Iris or a named discrete GPU). *)
Theorem detectDeviceTier_names_a_level (d : QS.Device) (g : QG.Governor) :
  In (QS.detectDeviceTier d) QG.qualityLevels /\
  snd (QG.setQualityLevel (QS.detectDeviceTier d) g) = true /\
  (QS.detectDeviceTier d = "ultra" ->
   QS.isMobile (QS.userAgent d) = false /\ 20 <= QS.gpuScore (QS.renderer d)).
Proof.
  assert (Hin : In (QS.detectDeviceTier d) QG.qualityLevels).
  { unfold QS.detectDeviceTier.
    repeat (match goal with
            | |- context [if ?b then _ else _] => destruct b
            end); cbn; auto 10. }
  split; [exact Hin |]. split.
  - destruct (tier_has_preset _ Hin) as [_ [preset Hpreset]].
    unfold QG.setQualityLevel. rewrite Hpreset.
    destruct (String.eqb _ _); reflexivity.
  - unfold QS.detectDeviceTier.
    destruct (Qgeb (QS.score d) 100) eqn:E.
    2:{ repeat (match goal with
                | |- context [if ?b then _ else _] => destruct b
                end); discriminate. }
    intros _. apply Qgeb_ge in E. unfold QS.score in E.
    pose proof (gpuScore_bounds (QS.renderer d)) as [Hg0 Hg1].
    pose proof (Qmin_le_r (QS.or_four (QS.deviceMemory d)) 8) as Hm.
    pose proof (Qmin_le_r (QS.or_four (QS.hardwareConcurrency d)) 8) as Hc.
    set (s := QS.gpuScore (QS.renderer d)
              + PO.Qmin (QS.or_four (QS.deviceMemory d)) 8 * 5
              + PO.Qmin (QS.or_four (QS.hardwareConcurrency d)) 8 * 5) in *.
    assert (Hs : s <= QS.gpuScore (QS.renderer d) + 80) by (subst s; lra).
    clearbody s.
    revert E. destruct (QS.isMobile (QS.userAgent d)); intros E.
    + exfalso. pose proof (Qfloor_le (s * 0.6)) as Hfl.
      set (fl := inject_Z (Qfloor (s * 0.6))) in *. clearbody fl. lra.
    + split; [reflexivity | lra].
Qed.

(** X21.  [increaseQuality] and [decreaseQuality] move by exactly one
    place in the list of levels and refuse at its ends: from a level
    [lo] directly after [hi] in the list, [increaseQuality] is
    [setQualityLevel(hi)], and from [hi], [decreaseQuality] is
    [setQualityLevel(lo)]; at ["ultra"] the first and at ["minimal"] the
    second return [false] and change nothing.  Both look at the current
    level only, not at a pending target, so repeating the call before
    the transition ends does not move a second place. *)
Theorem quality_steps_move_one_place (g : QG.Governor) :
  (forall (before after : list string) (hi lo : string),
     QG.qualityLevels = before ++ hi :: lo :: after ->
     (QG.currentLevel g = lo -> QS.increaseQuality g = QG.setQualityLevel hi g) /\
     (QG.currentLevel g = hi -> QS.decreaseQuality g = QG.setQualityLevel lo g)) /\
  (QG.currentLevel g = "ultra" -> QS.increaseQuality g = (g, false)) /\
  (QG.currentLevel g = "minimal" -> QS.decreaseQuality g = (g, false)) /\
  QS.increaseQuality (fst (QS.increaseQuality g)) = QS.increaseQuality g /\
  QS.decreaseQuality (fst (QS.decreaseQuality g)) = QS.decreaseQuality g.
Proof.
  split; [| split; [| split; [| split]]].
  - intros before after hi lo Hlist. unfold QG.qualityLevels in Hlist.
    destruct before as [| a [| b [| c [| e [| f rest]]]]]; cbn in Hlist;
      inversion Hlist; subst;
      try (split; intros Hcur; unfold QS.increaseQuality, QS.decreaseQuality;
           rewrite Hcur; reflexivity).
    destruct rest; discriminate.
  - intros Hcur. unfold QS.increaseQuality. rewrite Hcur. reflexivity.
  - intros Hcur. unfold QS.decreaseQuality. rewrite Hcur. reflexivity.
  - unfold QS.increaseQuality.
    destruct (0 <? QS.indexOf (QG.currentLevel g) QG.qualityLevels)%Z eqn:E;
      [| cbn [fst]; rewrite E; reflexivity].
    destruct (nth_error QG.qualityLevels _) as [newLevel |] eqn:En;
      [| cbn [fst]; rewrite E, En; reflexivity].
    unfold QG.setQualityLevel.
    destruct (QG.QUALITY_PRESETS newLevel) eqn:Hp;
      [| cbn [fst]; rewrite E, En, Hp; reflexivity].
    destruct (String.eqb newLevel (QG.currentLevel g)) eqn:Heq;
      cbn [fst QG.currentLevel]; rewrite E, En, Hp, Heq; reflexivity.
  - unfold QS.decreaseQuality.
    destruct (QS.indexOf (QG.currentLevel g) QG.qualityLevels
              <? Z.of_nat (length QG.qualityLevels) - 1)%Z eqn:E;
      [| cbn [fst]; rewrite E; reflexivity].
    destruct (nth_error QG.qualityLevels _) as [newLevel |] eqn:En;
      [| cbn [fst]; rewrite E, En; reflexivity].
    unfold QG.setQualityLevel.
    destruct (QG.QUALITY_PRESETS newLevel) eqn:Hp;
      [| cbn [fst]; rewrite E, En, Hp; reflexivity].
    destruct (String.eqb newLevel (QG.currentLevel g)) eqn:Heq;
      cbn [fst QG.currentLevel]; rewrite E, En, Hp, Heq; reflexivity.
Qed.

Section TransitionLog.

Variable B : string.
Hypothesis B_named : B <> "".
Variables cs ts : QG.Settings.
Hypothesis target_preset : QG.QUALITY_PRESETS B = Some ts.

Lemma transitionLoop_pending_log (g : QG.Governor) :
  QG.targetLevel g = Some B ->
  QG.QUALITY_PRESETS (QG.currentLevel g) = Some cs ->
  QG.transitionProgress g < 1 ->
  QG.transitionProgress g + QG.transitionSpeed g < 1 ->
  let g' := QG.transitionLoop g in
  let progress := QG.transitionProgress g + QG.transitionSpeed g in
  QG.delivered g'
  = QG.delivered g
    ++ [{| QG.level := QG.currentLevel g; QG.type := QG.intermediate;
           QG.settings := Some (QG.interpolate cs ts progress) |}] /\
  QG.maxActiveParticles g'
  = Qfloor (QG.maxParticles cs + (QG.maxParticles ts - QG.maxParticles cs) * progress).
Proof.
  intros Ht Hc Hp Hs. cbn zeta. unfold QG.transitionLoop. rewrite Ht.
  replace (String.eqb B "") with false
    by (symmetry; apply String.eqb_neq; exact B_named).
  replace (Qltb (QG.transitionProgress g) 1.0) with true
    by (symmetry; apply Qltb_lt; lra).
  cbn [negb andb].
  replace (Qgeb (QG.transitionProgress g + QG.transitionSpeed g) 1.0) with false.
  2:{ symmetry. destruct (Qgeb _ _) eqn:E; [| reflexivity].
      apply Qgeb_ge in E. lra. }
  unfold QG.updateIntermediateSettings.
  cbn [QG.targetLevel QG.currentLevel QG.transitionProgress].
  rewrite Hc, target_preset. split; reflexivity.
Qed.

Lemma frames_pending_log (k : nat) (g : QG.Governor) :
  QG.targetLevel g = Some B ->
  QG.QUALITY_PRESETS (QG.currentLevel g) = Some cs ->
  QG.transitionSpeed g == 0.05 ->
  QG.transitionProgress g == 0 ->
  (k <= 19)%nat ->
  let g' := QG.frames k g in
  exists mids : list QG.Notification,
    QG.delivered g' = QG.delivered g ++ mids /\
    length mids = k /\
    Forall (fun n => QG.level n = QG.currentLevel g /\ QG.type n = QG.intermediate) mids /\
    ((1 <= k)%nat ->
     QG.maxActiveParticles g'
     = Qfloor (QG.maxParticles cs
               + (QG.maxParticles ts - QG.maxParticles cs) * QG.transitionProgress g')).
Proof.
  intros Ht Hc Hs Hp. induction k as [| k IH]; intros Hk.
  - exists []. cbn. rewrite app_nil_r. repeat split; [constructor | lia].
  - destruct (IH ltac:(lia)) as (mids & Hd & Hlen & Hall & _). clear IH.
    destruct (frames_pending B B_named k g Ht Hs Hp ltac:(lia)) as (Hc' & Ht' & Hp' & Hs').
    cbn zeta in *. rewrite frames_succ.
    assert (Hk' : inject_Z (Z.of_nat k) <= 18).
    { change 18 with (inject_Z 18). rewrite <- Zle_Qle. lia. }
    assert (Hlt : QG.transitionProgress (QG.frames k g) < 1) by (rewrite Hp'; lra).
    assert (Hlt2 : QG.transitionProgress (QG.frames k g)
                   + QG.transitionSpeed (QG.frames k g) < 1)
      by (rewrite Hp', Hs', Hs; lra).
    assert (Hcs : QG.QUALITY_PRESETS (QG.currentLevel (QG.frames k g)) = Some cs)
      by (rewrite Hc'; exact Hc).
    destruct (transitionLoop_pending_log (QG.frames k g) Ht' Hcs Hlt Hlt2) as (Hd2 & Hm2).
    destruct (transitionLoop_pending B B_named (QG.frames k g) Ht' Hlt Hlt2)
      as (_ & _ & Hp2 & _).
    cbn zeta in Hd2, Hm2, Hp2.
    eexists (mids ++ [_]). split; [rewrite Hd2, Hd, <- app_assoc; reflexivity |].
    split; [rewrite length_app; cbn [length]; lia |].
    split.
    + apply Forall_app. split; [exact Hall |].
      constructor; [| constructor]. cbn. split; [exact Hc' | reflexivity].
    + intros _. rewrite Hm2, Hp2. reflexivity.
Qed.

End TransitionLog.

Lemma presets_differ (A B : string) :
  In A QG.qualityLevels -> In B QG.qualityLevels -> A <> B ->
  match QG.QUALITY_PRESETS A, QG.QUALITY_PRESETS B with
  | Some pa, Some pb =>
    (QG.maxParticles pa - QG.maxParticles pb <= -500 \/
     500 <= QG.maxParticles pa - QG.maxParticles pb) /\
    QG.maxParticles pb == inject_Z (Qfloor (QG.maxParticles pb))
  | _, _ => False
  end.
Proof.
  intros HA HB Hne.
  unfold QG.qualityLevels in HA, HB. cbn [In] in HA, HB.
  destruct HA as [HA | [HA | [HA | [HA | [HA | []]]]]];
    destruct HB as [HB | [HB | [HB | [HB | [HB | []]]]]];
    subst A B; try (exfalso; apply Hne; reflexivity);
    cbn; (split; [| reflexivity]);
    ((left; unfold Qle; cbn; lia) || (right; unfold Qle; cbn; lia)).
Qed.

(** X22.  During a transition from level [A] to level [B] the
    subscribers receive nineteen intermediate notifications, each
    labelled with the old level [A], and then one complete notification
    for [B].  (The writes of [applySettings] to the particle systems and
    the canvases, which come before each intermediate notification, are
    taken to complete: the governor is modelled by its own fields.)
    The particle budget [maxActiveParticles] is written by the
    intermediate steps only: after the transition it is the value
    interpolated at 95 % of the way, rounded down by [Math.floor] (so at
    most one below it), and never the [maxParticles] of [B]. *)
Theorem transition_notifications (g : QG.Governor) (A B : string) :
  In A QG.qualityLevels -> In B QG.qualityLevels -> A <> B ->
  QG.currentLevel g = A ->
  QG.transitionSpeed g == 0.05 ->
  let g20 := QG.frames 20 (fst (QG.setQualityLevel B g)) in
  exists (presetA presetB : QG.Settings) (mids : list QG.Notification),
    QG.QUALITY_PRESETS A = Some presetA /\
    QG.QUALITY_PRESETS B = Some presetB /\
    QG.delivered g20
    = QG.delivered g ++ mids
      ++ [{| QG.level := B; QG.type := QG.complete; QG.settings := Some presetB |}] /\
    length mids = 19%nat /\
    Forall (fun n => QG.level n = A /\ QG.type n = QG.intermediate) mids /\
    (let at95 := QG.maxParticles presetA
                 + (QG.maxParticles presetB - QG.maxParticles presetA) * 0.95 in
     at95 - 1 <= inject_Z (QG.maxActiveParticles g20) <= at95) /\
    QG.maxActiveParticles g20 <> Qfloor (QG.maxParticles presetB).
Proof.
  intros HA HB Hne Hcur Hspeed g20.
  destruct (tier_has_preset A HA) as (_ & presetA & HpA).
  destruct (tier_has_preset B HB) as (Hname & presetB & HpB).
  set (g1 := fst (QG.setQualityLevel B g)) in *.
  assert (Hg1 : QG.currentLevel g1 = A /\ QG.targetLevel g1 = Some B /\
                QG.transitionProgress g1 == 0 /\
                QG.transitionSpeed g1 == 0.05 /\
                QG.delivered g1 = QG.delivered g).
  { subst g1. unfold QG.setQualityLevel. rewrite HpB.
    replace (String.eqb B (QG.currentLevel g)) with false.
    2:{ symmetry. apply String.eqb_neq. congruence. }
    cbn. repeat split; auto. }
  destruct Hg1 as (Hc1 & Ht1 & Hp1 & Hs1 & Hd1).
  assert (HcsA : QG.QUALITY_PRESETS (QG.currentLevel g1) = Some presetA)
    by (rewrite Hc1; exact HpA).
  destruct (frames_pending_log B Hname presetA presetB HpB 19 g1 Ht1 HcsA Hs1 Hp1
              ltac:(lia))
    as (mids & Hd & Hlen & Hall & Hmax).
  destruct (frames_pending B Hname 19 g1 Ht1 Hs1 Hp1 ltac:(lia)) as (H1 & H2 & H3 & H4).
  change (inject_Z (Z.of_nat 19)) with 19 in H3.
  cbn zeta in Hd, Hmax.
  set (at95 := QG.maxParticles presetA
               + (QG.maxParticles presetB - QG.maxParticles presetA) * 0.95).
  assert (Hformula : QG.maxActiveParticles (QG.frames 19 g1) = Qfloor at95).
  { rewrite (Hmax ltac:(lia)). apply Qfloor_comp. rewrite H3. subst at95. ring. }
  assert (Hbounds : at95 - 1 <= inject_Z (Qfloor at95) <= at95).
  { pose proof (Qfloor_le at95) as Hle. pose proof (Qlt_floor at95) as Hlt.
    assert (Hs : inject_Z (Qfloor at95 + 1) == inject_Z (Qfloor at95) + 1)
      by (rewrite inject_Z_plus; reflexivity).
    rewrite Hs in Hlt.
    set (fl := inject_Z (Qfloor at95)) in *. clearbody fl. clearbody at95.
    split; lra. }
  subst g20. rewrite (frames_succ 19 g1).
  set (g19 := QG.frames 19 g1) in *. clearbody g19.
  rewrite (transitionLoop_completes B Hname g19 H2)
    by (rewrite ?H3, ?H4; lra).
  cbn [QG.delivered QG.maxActiveParticles].
  exists presetA, presetB, mids.
  split; [exact HpA |]. split; [exact HpB |].
  split; [rewrite Hd, Hd1, HpB, <- app_assoc; reflexivity |].
  split; [exact Hlen |].
  split; [rewrite <- Hc1; exact Hall |].
  split; [cbn zeta; fold at95; rewrite Hformula; exact Hbounds |].
  rewrite Hformula. intros Heq.
  pose proof (presets_differ A B HA HB Hne) as Hb.
  rewrite HpA, HpB in Hb. destruct Hb as [Hgap Hint].
  rewrite Heq in Hbounds. rewrite <- Hint in Hbounds.
  subst at95.
  set (a := QG.maxParticles presetA) in *. set (b := QG.maxParticles presetB) in *.
  clearbody a b. destruct Hbounds as [Hlo Hhi]. destruct Hgap; lra.
Qed.

Lemma transition_notifications_witness :
  exists (presetA presetB : QG.Settings) (mids : list QG.Notification),
    QG.QUALITY_PRESETS "high" = Some presetA /\
    QG.QUALITY_PRESETS "low" = Some presetB /\
    QG.delivered (QG.frames 20 (fst (QG.setQualityLevel "low" (QG.initial 2000))))
    = QG.delivered (QG.initial 2000) ++ mids
      ++ [{| QG.level := "low"; QG.type := QG.complete; QG.settings := Some presetB |}] /\
    length mids = 19%nat.
Proof.
  destruct (transition_notifications (QG.initial 2000) "high" "low")
    as (pa & pb & mids & Ha & Hb & Hd & Hlen & _).
  - cbn. auto.
  - cbn. auto 6.
  - discriminate.
  - reflexivity.
  - reflexivity.
  - exists pa, pb, mids. repeat split; assumption.
Defined.

(** ** The flow controller: boundaries and state blend *)

(** X23.  [applyBoundaryCondition] looks the boundary up under the raw
    lake type, whose spelling differs from the keys of its table: of
    the six keys of [LAKE_CONFIG] only ["Salt Lake"] (reflect, 0.9) and
    ["Sacred Lake"] (orbit, 1.0) are found, every other key falls back
    to absorb with factor 0.8, and the freeze and turbulent entries are
    selected by none of them.  Whatever is selected, on a
    [ParticleSystem], which has no [boundary] property, the call leaves
    the particle as it is. *)
Theorem applyBoundaryCondition_selection
    (absorb_body freeze_body turbulent_body :
       FC.Box -> Q -> P.Particle -> P.Particle * completion unit)
    (orbit_body : FC.Box -> Q * Q -> Q -> P.Particle -> P.Particle * completion unit) :
  (forall (key : string) (cfg : Lakes.TypeConfig),
     Lakes.LAKE_CONFIG key = Some cfg ->
     FC.selected key
     = Some (if String.eqb key "Salt Lake"
             then {| FC.type := FC.reflect; FC.factor := 0.9 |}
             else if String.eqb key "Sacred Lake"
             then {| FC.type := FC.orbit; FC.factor := 1.0 |}
             else {| FC.type := FC.absorb; FC.factor := 0.8 |})) /\
  (forall (p : P.Particle) (s : PS.System),
     FC.applyBoundaryCondition absorb_body freeze_body orbit_body turbulent_body
       p (Some (FC.of_system s))
     = (p, Normal tt)).
Proof.
  split.
  - intros key cfg. unfold Lakes.LAKE_CONFIG.
    destruct (String.eqb key "Freshwater Lake") eqn:E1;
      [apply String.eqb_eq in E1; subst key; reflexivity |].
    destruct (String.eqb key "High Altitude Lake") eqn:E2;
      [apply String.eqb_eq in E2; subst key; reflexivity |].
    destruct (String.eqb key "Urban Lake") eqn:E3;
      [apply String.eqb_eq in E3; subst key; reflexivity |].
    destruct (String.eqb key "Sacred Lake") eqn:E4;
      [apply String.eqb_eq in E4; subst key; reflexivity |].
    destruct (String.eqb key "Salt Lake") eqn:E5;
      [apply String.eqb_eq in E5; subst key; reflexivity |].
    destruct (String.eqb key "Brackish Lake") eqn:E6;
      [apply String.eqb_eq in E6; subst key; reflexivity | discriminate].
  - intros p s. unfold FC.applyBoundaryCondition. cbn [FC.of_system FC.lakeData].
    destruct (FC.selected _) as [b |]; [| reflexivity].
    destruct (FC.type b); reflexivity.
Qed.

Lemma Math_abs_nonneg (q : Q) : 0 <= JsMath.abs q.
Proof.
  unfold JsMath.abs. destruct (Qltb q 0) eqn:E.
  - apply Qltb_lt in E. lra.
  - apply Qltb_ge in E. exact E.
Qed.

Lemma set_x_fields (v : Q) (p : P.Particle) :
  P.x (FC.set_x v p) = Some v /\ P.y (FC.set_x v p) = P.y p /\
  P.velocity (FC.set_x v p) = P.velocity p.
Proof. repeat split; reflexivity. Qed.

Lemma set_y_fields (v : Q) (p : P.Particle) :
  P.y (FC.set_y v p) = Some v /\ P.x (FC.set_y v p) = P.x p /\
  P.velocity (FC.set_y v p) = P.velocity p.
Proof. repeat split; reflexivity. Qed.

Lemma set_velocity_x_fields (v : Q) (p : P.Particle) :
  FC.velocity_x (FC.set_velocity_x v p) = v /\
  FC.velocity_y (FC.set_velocity_x v p) = FC.velocity_y p /\
  P.x (FC.set_velocity_x v p) = P.x p /\ P.y (FC.set_velocity_x v p) = P.y p.
Proof.
  unfold FC.velocity_x, FC.velocity_y, FC.set_velocity_x.
  cbn. destruct (P.velocity p); repeat split; reflexivity.
Qed.

Lemma set_velocity_y_fields (v : Q) (p : P.Particle) :
  FC.velocity_y (FC.set_velocity_y v p) = v /\
  FC.velocity_x (FC.set_velocity_y v p) = FC.velocity_x p /\
  P.x (FC.set_velocity_y v p) = P.x p /\ P.y (FC.set_velocity_y v p) = P.y p.
Proof.
  unfold FC.velocity_x, FC.velocity_y, FC.set_velocity_y.
  cbn. destruct (P.velocity p); repeat split; reflexivity.
Qed.

(** The reflection along one axis. *)
Lemma reflect_axis (lo hi c v f : Q) :
  lo + 1 <= hi -> 0 <= f ->
  let c' := if Qltb c lo then lo + 1 else if Qgtb c hi then hi - 1 else c in
  let v' := if Qltb c lo then JsMath.abs v * f
            else if Qgtb c hi then - JsMath.abs v * f else v in
  lo <= c' /\ c' <= hi /\
  (c < lo -> 0 <= v') /\ (hi < c -> v' <= 0) /\
  (lo <= c -> c <= hi -> c' = c /\ v' = v).
Proof.
  intros Hw Hf. cbn zeta. pose proof (Math_abs_nonneg v) as Habs.
  destruct (Qltb c lo) eqn:E1.
  - apply Qltb_lt in E1.
    split; [lra |]. split; [lra |]. split; [intros _; nra |].
    split; [intros H; lra | intros H; lra].
  - apply Qltb_ge in E1. unfold Qgtb. destruct (Qltb hi c) eqn:E2.
    + apply Qltb_lt in E2.
      split; [lra |]. split; [lra |]. split; [intros H; lra |].
      split; [intros _; nra | intros _ H; lra].
    + apply Qltb_ge in E2.
      split; [lra |]. split; [lra |]. split; [intros H; lra |].
      split; [intros H; lra | intros _ _; split; reflexivity].
Qed.

(** X24.  In a box that is at least one unit wide and high,
    [applyReflectBoundary] leaves a particle with coordinates inside
    the box: a particle that was outside is put one unit inside the
    edge it crossed, with the velocity component along that axis turned
    towards the inside of the box; a particle that was inside is not
    touched. *)
Theorem reflect_returns_inside (p : P.Particle) (ls : FC.LakeSystem) (b : FC.Box)
    (f px py : Q) :
  FC.boundary ls = Some b ->
  FC.minX b + 1 <= FC.maxX b -> FC.minY b + 1 <= FC.maxY b ->
  0 <= f ->
  P.x p = Some px -> P.y p = Some py ->
  let p' := FC.applyReflectBoundary p ls f in
  exists px' py' : Q,
    P.x p' = Some px' /\ P.y p' = Some py' /\
    FC.minX b <= px' /\ px' <= FC.maxX b /\
    FC.minY b <= py' /\ py' <= FC.maxY b /\
    (px < FC.minX b -> 0 <= FC.velocity_x p') /\
    (FC.maxX b < px -> FC.velocity_x p' <= 0) /\
    (py < FC.minY b -> 0 <= FC.velocity_y p') /\
    (FC.maxY b < py -> FC.velocity_y p' <= 0) /\
    (FC.minX b <= px -> px <= FC.maxX b -> FC.minY b <= py -> py <= FC.maxY b ->
     p' = p).
Proof.
  intros Hb Hwx Hwy Hf Hx Hy p'. subst p'. unfold FC.applyReflectBoundary.
  rewrite Hb, Hx. cbn [FC.lt_number FC.gt_number].
  destruct (reflect_axis (FC.minX b) (FC.maxX b) px (FC.velocity_x p) f Hwx Hf)
    as (Hx1 & Hx2 & Hx3 & Hx4 & Hx5).
  set (p1 := if Qltb px (FC.minX b)
             then FC.set_x (FC.minX b + 1)
                    (FC.set_velocity_x (JsMath.abs (FC.velocity_x p) * f) p)
             else if Qgtb px (FC.maxX b)
             then FC.set_x (FC.maxX b - 1)
                    (FC.set_velocity_x (- JsMath.abs (FC.velocity_x p) * f) p)
             else p).
  assert (Hp1 : P.x p1
                = Some (if Qltb px (FC.minX b) then FC.minX b + 1
                        else if Qgtb px (FC.maxX b) then FC.maxX b - 1 else px) /\
                P.y p1 = Some py /\
                FC.velocity_x p1
                = (if Qltb px (FC.minX b) then JsMath.abs (FC.velocity_x p) * f
                   else if Qgtb px (FC.maxX b) then - JsMath.abs (FC.velocity_x p) * f
                   else FC.velocity_x p) /\
                FC.velocity_y p1 = FC.velocity_y p).
  { subst p1.
    destruct (Qltb px (FC.minX b)); [| destruct (Qgtb px (FC.maxX b))].
    - destruct (set_velocity_x_fields (JsMath.abs (FC.velocity_x p) * f) p)
        as (Ha & Hb' & Hc & Hd).
      split; [reflexivity |]. split; [cbn [P.y FC.set_x]; rewrite Hd; exact Hy |].
      split; [exact Ha | exact Hb'].
    - destruct (set_velocity_x_fields (- JsMath.abs (FC.velocity_x p) * f) p)
        as (Ha & Hb' & Hc & Hd).
      split; [reflexivity |]. split; [cbn [P.y FC.set_x]; rewrite Hd; exact Hy |].
      split; [exact Ha | exact Hb'].
    - repeat split; assumption. }
  destruct Hp1 as (Hp1x & Hp1y & Hp1vx & Hp1vy).
  rewrite Hp1y. cbn [FC.lt_number FC.gt_number].
  destruct (reflect_axis (FC.minY b) (FC.maxY b) py (FC.velocity_y p1) f Hwy Hf)
    as (Hy1 & Hy2 & Hy3 & Hy4 & Hy5).
  destruct (Qltb py (FC.minY b)) eqn:Ely; [| destruct (Qgtb py (FC.maxY b)) eqn:Egy].
  - destruct (set_velocity_y_fields (JsMath.abs (FC.velocity_y p1) * f) p1)
      as (Ha & Hb' & Hc & Hd).
    eexists; eexists.
    split; [cbn [P.x FC.set_y]; rewrite Hc; exact Hp1x |].
    split; [reflexivity |].
    split; [exact Hx1 |]. split; [exact Hx2 |]. split; [exact Hy1 |]. split; [exact Hy2 |].
    unfold FC.velocity_x, FC.velocity_y in *. cbn [P.velocity FC.set_y].
    fold (FC.velocity_x (FC.set_velocity_y (JsMath.abs (FC.velocity_y p1) * f) p1)).
    fold (FC.velocity_y (FC.set_velocity_y (JsMath.abs (FC.velocity_y p1) * f) p1)).
    unfold FC.velocity_x, FC.velocity_y. rewrite Ha, Hb', Hp1vx.
    split; [exact Hx3 |]. split; [exact Hx4 |]. split; [exact Hy3 |]. split; [exact Hy4 |].
    intros _ _ Hlo _. apply Qltb_lt in Ely. lra.
  - destruct (set_velocity_y_fields (- JsMath.abs (FC.velocity_y p1) * f) p1)
      as (Ha & Hb' & Hc & Hd).
    eexists; eexists.
    split; [cbn [P.x FC.set_y]; rewrite Hc; exact Hp1x |].
    split; [reflexivity |].
    split; [exact Hx1 |]. split; [exact Hx2 |]. split; [exact Hy1 |]. split; [exact Hy2 |].
    unfold FC.velocity_x, FC.velocity_y in *. cbn [P.velocity FC.set_y].
    fold (FC.velocity_x (FC.set_velocity_y (- JsMath.abs (FC.velocity_y p1) * f) p1)).
    fold (FC.velocity_y (FC.set_velocity_y (- JsMath.abs (FC.velocity_y p1) * f) p1)).
    unfold FC.velocity_x, FC.velocity_y. rewrite Ha, Hb', Hp1vx.
    split; [exact Hx3 |]. split; [exact Hx4 |]. split; [exact Hy3 |]. split; [exact Hy4 |].
    intros _ _ _ Hhi. unfold Qgtb in Egy. apply Qltb_lt in Egy. lra.
  - eexists; eexists.
    split; [exact Hp1x |]. split; [exact Hp1y |].
    split; [exact Hx1 |]. split; [exact Hx2 |]. split; [exact Hy1 |]. split; [exact Hy2 |].
    rewrite Hp1vx.
    split; [exact Hx3 |]. split; [exact Hx4 |].
    rewrite Hp1vy in Hy3, Hy4.
    rewrite Hp1vy.
    split; [exact Hy3 |]. split; [exact Hy4 |].
    intros Hlo Hhi _ _. subst p1.
    assert (E1 : Qltb px (FC.minX b) = false) by (apply Qltb_ge; exact Hlo).
    assert (E2 : Qgtb px (FC.maxX b) = false) by (unfold Qgtb; apply Qltb_ge; exact Hhi).
    rewrite E1, E2. reflexivity.
Qed.

Lemma reflect_returns_inside_witness :
  exists px' py' : Q,
    P.x (FC.applyReflectBoundary Flows.stray Flows.boxed 0.9) = Some px' /\
    P.y (FC.applyReflectBoundary Flows.stray Flows.boxed 0.9) = Some py' /\
    10 <= px' /\ px' <= 20 /\ 10 <= py' /\ py' <= 20.
Proof.
  assert (Hwx : FC.minX Flows.box + 1 <= FC.maxX Flows.box) by (unfold Qle; cbn; lia).
  assert (Hwy : FC.minY Flows.box + 1 <= FC.maxY Flows.box) by (unfold Qle; cbn; lia).
  assert (Hf : 0 <= 0.9) by (unfold Qle; cbn; lia).
  destruct (reflect_returns_inside Flows.stray Flows.boxed Flows.box 0.9 0 0
              eq_refl Hwx Hwy Hf eq_refl eq_refl)
    as (px' & py' & H1 & H2 & H3 & H4 & H5 & H6 & _).
  exists px', py'. repeat split; assumption.
Defined.

(** What holds of the flow states between two calls, at clock [now]. *)
Lemma blend_invariant_step (c : FC.call) (now : Q) (st : FC.States) :
  0 <= FC.elapsed_of c ->
  FC.duration st == 5000 ->
  match FC.transition st with
  | None => True
  | Some t => FC.startTime t <= now /\ 0 <= FC.progress t /\ FC.progress t < 1 /\
              FC.from t <> FC.to t /\ FC.to t = FC.current st
  end ->
  let r := FC.run [c] now st in
  FC.duration (snd r) == 5000 /\
  fst r == now + FC.elapsed_of c /\
  match FC.transition (snd r) with
  | None => True
  | Some t => FC.startTime t <= fst r /\ 0 <= FC.progress t /\ FC.progress t < 1 /\
              FC.from t <> FC.to t /\ FC.to t = FC.current (snd r)
  end.
Proof.
  intros He Hd Hinv. destruct c as [e s | e]; cbn [FC.run FC.elapsed_of fst snd] in *.
  - unfold FC.transitionState. destruct (String.eqb s (FC.current st)) eqn:E.
    + split; [exact Hd |]. split; [reflexivity |].
      destruct (FC.transition st) as [t |]; [| exact I].
      destruct Hinv as (H1 & H2 & H3 & H4 & H5). repeat split; try assumption. lra.
    + cbn. split; [exact Hd |]. split; [reflexivity |].
      split; [lra |]. split; [lra |]. split; [lra |].
      split; [| reflexivity].
      apply String.eqb_neq in E. congruence.
  - unfold FC.updateStateTransition.
    destruct (FC.transition st) as [t |] eqn:Ht.
    + destruct Hinv as (H1 & H2 & H3 & H4 & H5).
      cbn [FC.duration FC.transition FC.current].
      split; [exact Hd |]. split; [reflexivity |].
      destruct (Qgeb _ 1.0) eqn:Eg; [exact I |].
      apply Qgeb_false in Eg. cbn.
      split; [lra |]. split; [| split; [lra | split; assumption]].
      unfold PO.Qmin. destruct (Qle_bool 1.0 _); [lra |].
      apply Qle_shift_div_l; [rewrite Hd; lra | lra].
    + rewrite Ht. split; [exact Hd |]. split; [reflexivity | exact I].
Qed.

(** X25.  Whatever sequence of [transitionState] and
    [updateStateTransition] calls is made on a new controller, with a
    clock that does not run backwards, [getCurrentStateBlend] returns
    weights between 0 and 1 that add up to 1, for one state or for two
    different states, and the current state is always among them. *)
Theorem state_blend_adds_up (calls : list FC.call) (now : Q) :
  Forall (fun c => 0 <= FC.elapsed_of c) calls ->
  let st := snd (FC.run calls now FC.states0) in
  let blend := FC.getCurrentStateBlend st in
  FC.total blend == 1 /\
  Forall (fun kv => 0 <= snd kv /\ snd kv <= 1) blend /\
  NoDup (List.map fst blend) /\
  In (FC.current st) (List.map fst blend).
Proof.
  intros Hcalls.
  assert (Hgen : forall (now0 : Q) (st0 : FC.States),
            FC.duration st0 == 5000 ->
            match FC.transition st0 with
            | None => True
            | Some t => FC.startTime t <= now0 /\ 0 <= FC.progress t /\
                        FC.progress t < 1 /\
                        FC.from t <> FC.to t /\ FC.to t = FC.current st0
            end ->
            let st := snd (FC.run calls now0 st0) in
            match FC.transition st with
            | None => True
            | Some t => 0 <= FC.progress t /\ FC.progress t < 1 /\
                        FC.from t <> FC.to t /\ FC.to t = FC.current st
            end).
  { induction calls as [| c rest IH]; intros now0 st0 Hd Hinv.
    - cbn. destruct (FC.transition st0); [| exact I].
      destruct Hinv as (_ & H2 & H3 & H4 & H5). repeat split; assumption.
    - inversion Hcalls as [| ? ? Hc Hrest]; subst.
      destruct (blend_invariant_step c now0 st0 Hc Hd Hinv) as (Hd1 & _ & Hinv1).
      assert (Hrun : FC.run (c :: rest) now0 st0
                     = FC.run rest (fst (FC.run [c] now0 st0)) (snd (FC.run [c] now0 st0))).
      { destruct c; reflexivity. }
      rewrite Hrun. apply (IH Hrest); assumption. }
  specialize (Hgen now FC.states0 ltac:(reflexivity) I). cbn zeta in *.
  set (st := snd (FC.run calls now FC.states0)) in *.
  unfold FC.getCurrentStateBlend.
  destruct (FC.transition st) as [t |].
  - destruct Hgen as (H2 & H3 & H4 & H5).
    replace (String.eqb (FC.from t) (FC.to t)) with false
      by (symmetry; apply String.eqb_neq; exact H4).
    cbn. split; [ring |].
    split; [constructor; [cbn; split; lra | constructor; [cbn; split; lra | constructor]] |].
    split.
    + constructor; [intros [H | []]; congruence |].
      constructor; [intros [] | constructor].
    + right. left. exact H5.
  - cbn. split; [reflexivity |].
    split; [constructor; [cbn; split; unfold Qle; cbn; lia | constructor] |].
    split; [constructor; [intros [] | constructor] | left; reflexivity].
Qed.

Lemma state_blend_adds_up_witness :
  FC.total
    (FC.getCurrentStateBlend
       (snd (FC.run [FC.TransitionState 100 "flowing"; FC.UpdateStateTransition 1250]
               0 FC.states0)))
  == 1.
Proof.
  apply (state_blend_adds_up
           [FC.TransitionState 100 "flowing"; FC.UpdateStateTransition 1250] 0).
  repeat constructor; unfold Qle; cbn; lia.
Defined.

(** ** The fluid grid *)

(** X26.  On a grid with at least one column and one row, [IX] always
    answers with an index of the arrays; inside the grid it is
    [x + y * width] and tells different cells apart, and a coordinate
    outside the grid is given the index of the nearest cell on the
    edge. *)
Theorem IX_stays_in_the_arrays (s : Fluid.Simulation) (x y : Z) :
  (0 < Fluid.width s)%Z -> (0 < Fluid.height s)%Z ->
  (0 <= Fluid.IX s x y < Fluid.width s * Fluid.height s)%Z /\
  ((0 <= x < Fluid.width s)%Z -> (0 <= y < Fluid.height s)%Z ->
   Fluid.IX s x y = (x + y * Fluid.width s)%Z) /\
  Fluid.IX s x y
  = Fluid.IX s (Z.max 0 (Z.min (Fluid.width s - 1) x))
               (Z.max 0 (Z.min (Fluid.height s - 1) y)) /\
  (forall x' y' : Z,
     (0 <= x < Fluid.width s)%Z -> (0 <= y < Fluid.height s)%Z ->
     (0 <= x' < Fluid.width s)%Z -> (0 <= y' < Fluid.height s)%Z ->
     Fluid.IX s x y = Fluid.IX s x' y' -> x = x' /\ y = y').
Proof.
  intros Hw Hh. unfold Fluid.IX.
  split; [| split; [| split]].
  - set (cx := Z.max 0 (Z.min (Fluid.width s - 1) x)).
    set (cy := Z.max 0 (Z.min (Fluid.height s - 1) y)).
    assert (Hcx : (0 <= cx < Fluid.width s)%Z) by (subst cx; lia).
    assert (Hcy : (0 <= cy < Fluid.height s)%Z) by (subst cy; lia).
    nia.
  - intros Hx Hy.
    replace (Z.max 0 (Z.min (Fluid.width s - 1) x)) with x by lia.
    replace (Z.max 0 (Z.min (Fluid.height s - 1) y)) with y by lia.
    reflexivity.
  - set (cx := Z.max 0 (Z.min (Fluid.width s - 1) x)).
    set (cy := Z.max 0 (Z.min (Fluid.height s - 1) y)).
    replace (Z.max 0 (Z.min (Fluid.width s - 1) cx)) with cx by (subst cx; lia).
    replace (Z.max 0 (Z.min (Fluid.height s - 1) cy)) with cy by (subst cy; lia).
    reflexivity.
  - intros x' y' Hx Hy Hx' Hy'.
    replace (Z.max 0 (Z.min (Fluid.width s - 1) x)) with x by lia.
    replace (Z.max 0 (Z.min (Fluid.height s - 1) y)) with y by lia.
    replace (Z.max 0 (Z.min (Fluid.width s - 1) x')) with x' by lia.
    replace (Z.max 0 (Z.min (Fluid.height s - 1) y')) with y' by lia.
    intros Heq.
    assert (Hy_eq : y = y') by nia.
    subst y'. split; [lia | reflexivity].
Qed.

Lemma IX_stays_in_the_arrays_witness :
  (0 <= Fluid.IX (Fluid.constructor None None None) (-3) 40 < 32 * 32)%Z.
Proof.
  destruct (IX_stays_in_the_arrays (Fluid.constructor None None None) (-3) 40)
    as [H _].
  - reflexivity.
  - reflexivity.
  - exact H.
Defined.

Lemma clamp_bounds (lo hi q : Q) :
  lo <= hi -> lo <= Fluid.clamp lo hi q /\ Fluid.clamp lo hi q <= hi.
Proof.
  intros Hlh. unfold Fluid.clamp.
  destruct (Qle_bool hi q) eqn:E1.
  - destruct (Qle_bool hi lo) eqn:E2; split; lra.
  - apply Qle_bool_false in E1.
    destruct (Qle_bool q lo) eqn:E2.
    + split; lra.
    + apply Qle_bool_false in E2. split; lra.
Qed.

Lemma clamp_monotone (lo hi q1 q2 : Q) :
  lo <= hi -> q1 <= q2 -> Fluid.clamp lo hi q1 <= Fluid.clamp lo hi q2.
Proof.
  intros Hlh H12. unfold Fluid.clamp.
  destruct (Qle_bool hi q1) eqn:E1; destruct (Qle_bool hi q2) eqn:E2;
    try (apply Qle_bool_iff in E1); try (apply Qle_bool_iff in E2);
    try (apply Qle_bool_false in E1); try (apply Qle_bool_false in E2).
  - lra.
  - lra.
  - destruct (Qle_bool q1 lo) eqn:E3; destruct (Qle_bool hi lo) eqn:E4;
      try (apply Qle_bool_iff in E3); try (apply Qle_bool_iff in E4);
      try (apply Qle_bool_false in E3); try (apply Qle_bool_false in E4); lra.
  - destruct (Qle_bool q1 lo) eqn:E3; destruct (Qle_bool q2 lo) eqn:E4;
      try (apply Qle_bool_iff in E3); try (apply Qle_bool_iff in E4);
      try (apply Qle_bool_false in E3); try (apply Qle_bool_false in E4); lra.
Qed.

Lemma round_monotone (a b : Q) : a <= b -> (JsMath.round a <= JsMath.round b)%Z.
Proof.
  intros H. unfold JsMath.round. apply Qfloor_resp_le. lra.
Qed.

Lemma round_inject_Z (z : Z) : JsMath.round (inject_Z z) = z.
Proof.
  unfold JsMath.round.
  assert (Hlo : (z <= Qfloor (inject_Z z + (1 # 2)))%Z).
  { rewrite <- (Qfloor_Z z) at 1. apply Qfloor_resp_le. lra. }
  assert (Hhi : (Qfloor (inject_Z z + (1 # 2)) < z + 1)%Z).
  { rewrite Zlt_Qlt, inject_Z_plus.
    eapply Qle_lt_trans; [apply Qfloor_le |]. change (inject_Z 1) with 1. lra. }
  lia.
Qed.

(** X27.  After [setQuality] with any number, the simulation quality
    lies between 0.2 and 1, the update interval is 16 or 32
    milliseconds, and an [update] runs between one solver pass and
    [iterations] passes, all of them for a quality of 1 or more; a
    higher quality never gives fewer passes. *)
Theorem setQuality_bounds_the_passes (quality : Q) (s : Fluid.Simulation) :
  (1 <= Fluid.iterations s)%Z ->
  let s' := Fluid.setQuality quality s in
  0.2 <= Fluid.simulationQuality s' /\ Fluid.simulationQuality s' <= 1 /\
  (Fluid.updateInterval s' = 16 \/ Fluid.updateInterval s' = 32) /\
  (1 <= Fluid.steps s' <= Fluid.iterations s)%Z /\
  (1 <= quality -> Fluid.steps s' = Fluid.iterations s) /\
  (forall higher : Q,
     quality <= higher ->
     (Fluid.steps s' <= Fluid.steps (Fluid.setQuality higher s))%Z).
Proof.
  intros Hit s'. subst s'.
  assert (H02 : 0.2 <= 1.0) by lra.
  destruct (clamp_bounds 0.2 1.0 quality H02) as [Hlo Hhi].
  assert (Hpos : 1 <= inject_Z (Fluid.iterations s)).
  { change 1 with (inject_Z 1). rewrite <- Zle_Qle. exact Hit. }
  cbn [Fluid.simulationQuality Fluid.updateInterval Fluid.setQuality].
  split; [exact Hlo |]. split; [lra |].
  split; [destruct (Qltb quality 0.5); auto |].
  unfold Fluid.steps. cbn [Fluid.simulationQuality Fluid.iterations Fluid.setQuality].
  set (c := Fluid.clamp 0.2 1.0 quality) in *.
  assert (Hround : (JsMath.round (inject_Z (Fluid.iterations s) * c)
                    <= Fluid.iterations s)%Z).
  { rewrite <- (round_inject_Z (Fluid.iterations s)) at 2.
    apply round_monotone. nra. }
  split; [lia |]. split.
  - intros Hq.
    assert (Hc : c == 1).
    { subst c. unfold Fluid.clamp.
      replace (Qle_bool 1.0 quality) with true
        by (symmetry; apply Qle_bool_iff; lra).
      replace (Qle_bool 1.0 0.2) with false by reflexivity. lra. }
    assert (Hr : JsMath.round (inject_Z (Fluid.iterations s) * c) = Fluid.iterations s).
    { rewrite <- (round_inject_Z (Fluid.iterations s)) at 2.
      unfold JsMath.round. apply Qfloor_comp. rewrite Hc. ring. }
    rewrite Hr. lia.
  - intros higher Hh.
    pose proof (clamp_monotone 0.2 1.0 quality higher H02 Hh) as Hm. fold c in Hm.
    assert (Hr : (JsMath.round (inject_Z (Fluid.iterations s) * c)
                  <= JsMath.round (inject_Z (Fluid.iterations s)
                                  * Fluid.clamp 0.2 1.0 higher))%Z).
    { apply round_monotone. nra. }
    lia.
Qed.

Lemma setQuality_bounds_the_passes_witness :
  (1 <= Fluid.steps (Fluid.setQuality 0.3 (Fluid.constructor None None None)) <= 4)%Z.
Proof.
  destruct (setQuality_bounds_the_passes 0.3 (Fluid.constructor None None None))
    as (_ & _ & _ & H & _).
  - cbn. lia.
  - exact H.
Defined.

(** ** The pressure projection *)




(** *** Reading and writing an array *)




Lemma length_set (x : Fluid.Field) (i : Z) (v : Q) :
  length (Fluid.set x i v) = length x.
Proof.
  unfold Fluid.set. generalize (Z.to_nat i) as k. generalize (Qred v) as w.
  induction x as [| q rest IH]; intros w k; [destruct k; reflexivity |].
  destruct k; cbn; [reflexivity |]. f_equal. apply IH.
Qed.

(** *** Cells that hold zero *)














(** *** Arrays that hold the same numbers *)




















(** ** The frame-rate history *)

Lemma fold_left_add (l : list Z) (a : Z) :
  fold_left Z.add l a = (a + fold_left Z.add l 0)%Z.
Proof.
  revert a. induction l as [| x rest IH]; intros a; cbn [fold_left]; [lia |].
  rewrite (IH (a + x)%Z), (IH (0 + x)%Z). lia.
Qed.

Lemma sum_app (l1 l2 : list Z) :
  fold_left Z.add (l1 ++ l2) 0%Z
  = (fold_left Z.add l1 0 + fold_left Z.add l2 0)%Z.
Proof. rewrite fold_left_app, fold_left_add. reflexivity. Qed.

Lemma sum_repeat (v : Z) (k : nat) :
  fold_left Z.add (repeat v k) 0%Z = (v * Z.of_nat k)%Z.
Proof.
  induction k as [| k IH]; [cbn; lia |].
  cbn [repeat fold_left]. rewrite fold_left_add, IH. lia.
Qed.

Lemma sum_nonneg (l : list Z) :
  Forall (fun v => (0 <= v)%Z) l -> (0 <= fold_left Z.add l 0)%Z.
Proof.
  induction 1 as [| x rest Hx _ IH]; [cbn; lia |].
  cbn [fold_left]. rewrite fold_left_add. lia.
Qed.

Lemma assign_length (i : nat) (v : Z) (arr : list Z) :
  length (PM.assign i v arr) = length arr.
Proof.
  revert i. induction arr as [| a rest IH]; intros i; [destruct i; reflexivity |].
  destruct i; cbn [PM.assign length]; [reflexivity | rewrite IH; reflexivity].
Qed.

Lemma assign_nonneg (i : nat) (v : Z) (arr : list Z) :
  (0 <= v)%Z -> Forall (fun x => (0 <= x)%Z) arr ->
  Forall (fun x => (0 <= x)%Z) (PM.assign i v arr).
Proof.
  intros Hv. revert i. induction arr as [| a rest IH]; intros i Hall;
    [destruct i; constructor |].
  inversion Hall; subst.
  destruct i; cbn [PM.assign]; constructor; auto.
Qed.

Lemma assign_at_end (written : list Z) (v old : Z) (rest : list Z) :
  PM.assign (length written) v (written ++ old :: rest) = (written ++ [v]) ++ rest.
Proof.
  induction written as [| a w IH]; [reflexivity |].
  cbn [length app PM.assign]. rewrite IH. reflexivity.
Qed.

Lemma round_nonneg (q : Q) : 0 <= q -> (0 <= JsMath.round q)%Z.
Proof.
  intros H. unfold JsMath.round.
  change 0%Z with (Qfloor 0). apply Qfloor_resp_le. lra.
Qed.

Lemma sampled_fps_nonneg (count : Z) (since : Q) :
  (0 <= count)%Z -> 1000 <= since ->
  (0 <= JsMath.round (inject_Z count * 1000 / since))%Z.
Proof.
  intros Hc Hs. apply round_nonneg.
  apply Qle_shift_div_l; [lra |].
  assert (0 <= inject_Z count) by (change 0 with (inject_Z 0); rewrite <- Zle_Qle; exact Hc).
  nra.
Qed.

(** The ring buffer while fewer than sixty samples have been taken:
    the samples, then the initial entries. *)
Lemma update_fills_in_order (now : Q) (m : PM.Monitor) (written : list Z) (k : nat) :
  PM.fpsHistory m = written ++ repeat 60%Z (S k) ->
  PM.fpsHistoryIndex m = length written ->
  (length written + S k = 60)%nat ->
  Forall (fun v => (0 <= v)%Z) written ->
  (0 <= PM.frameCount m)%Z -> (0 <= PM.fps m)%Z ->
  let m' := fst (PM.update now m) in
  (0 <= PM.frameCount m')%Z /\ (0 <= PM.fps m')%Z /\
  ((PM.fpsHistory m' = PM.fpsHistory m /\ PM.fpsHistoryIndex m' = PM.fpsHistoryIndex m) \/
   (exists v : Z,
      (0 <= v)%Z /\
      PM.fpsHistory m' = (written ++ [v]) ++ repeat 60%Z k /\
      PM.fpsHistoryIndex m' = S (length written) mod 60)).
Proof.
  intros Hh Hi Hlen Hall Hfc Hfps. cbn zeta. unfold PM.update.
  destruct (Qgeb (now - PM.lastFpsUpdate m) 1000) eqn:E.
  - apply Qgeb_ge in E. cbn [fst PM.frameCount PM.fps PM.fpsHistory PM.fpsHistoryIndex].
    pose proof (sampled_fps_nonneg (PM.frameCount m + 1) (now - PM.lastFpsUpdate m)
                  ltac:(lia) E) as Hv.
    split; [lia |]. split; [exact Hv |]. right.
    eexists. split; [exact Hv |].
    rewrite Hh, Hi. cbn [repeat]. rewrite assign_at_end.
    split; [reflexivity |].
    rewrite length_app. cbn [length]. rewrite repeat_length.
    replace (length written + S k)%nat with 60%nat by lia.
    f_equal. lia.
  - cbn. split; [lia |]. split; [exact Hfps |]. left. split; reflexivity.
Qed.

Lemma updates_fill_in_order (times : list Q) :
  forall (m : PM.Monitor) (written : list Z),
    PM.fpsHistory m = written ++ repeat 60%Z (60 - length written) ->
    PM.fpsHistoryIndex m = length written ->
    (length written + length times < 60)%nat ->
    Forall (fun v => (0 <= v)%Z) written ->
    (0 <= PM.frameCount m)%Z -> (0 <= PM.fps m)%Z ->
    exists written' : list Z,
      PM.fpsHistory (PM.updates times m)
      = written' ++ repeat 60%Z (60 - length written') /\
      (length written' <= length written + length times)%nat /\
      Forall (fun v => (0 <= v)%Z) written'.
Proof.
  induction times as [| now rest IH]; intros m written Hh Hi Hlen Hall Hfc Hfps.
  - exists written. cbn. split; [exact Hh |]. split; [lia | exact Hall].
  - cbn [length] in Hlen. cbn [PM.updates].
    assert (Hk : (60 - length written = S (59 - length written))%nat) by lia.
    rewrite Hk in Hh.
    destruct (update_fills_in_order now m written (59 - length written) Hh Hi
                ltac:(lia) Hall Hfc Hfps)
      as (Hfc' & Hfps' & [[Hsame Hidx] | (v & Hv & Hnew & Hidx)]).
    + assert (Ha : PM.fpsHistory (fst (PM.update now m))
                   = written ++ repeat 60%Z (60 - length written))
        by (rewrite Hsame, Hh, Hk; reflexivity).
      assert (Hb : PM.fpsHistoryIndex (fst (PM.update now m)) = length written)
        by (rewrite Hidx; exact Hi).
      destruct (IH (fst (PM.update now m)) written Ha Hb ltac:(lia) Hall Hfc' Hfps')
        as (w' & H1 & H2 & H3).
      exists w'. split; [exact H1 |]. split; [cbn [length]; lia | exact H3].
    + assert (Hl : length (written ++ [v]) = S (length written))
        by (rewrite length_app; cbn [length]; lia).
      assert (Ha : PM.fpsHistory (fst (PM.update now m))
                   = (written ++ [v]) ++ repeat 60%Z (60 - length (written ++ [v]))).
      { rewrite Hnew, Hl. do 2 f_equal; lia. }
      assert (Hb : PM.fpsHistoryIndex (fst (PM.update now m)) = length (written ++ [v])).
      { rewrite Hidx, Hl. apply Nat.mod_small. lia. }
      assert (Hc : Forall (fun x => (0 <= x)%Z) (written ++ [v])).
      { apply Forall_app. split; [exact Hall | constructor; [exact Hv | constructor]]. }
      destruct (IH (fst (PM.update now m)) (written ++ [v]) Ha Hb ltac:(lia) Hc Hfc' Hfps')
        as (w' & H1 & H2 & H3).
      exists w'. split; [exact H1 |]. split; [cbn [length]; lia | exact H3].
Qed.

Lemma updates_keep_shape (times : list Q) :
  forall m : PM.Monitor,
    length (PM.fpsHistory m) = 60%nat ->
    (PM.fpsHistoryIndex m < 60)%nat ->
    Forall (fun v => (0 <= v)%Z) (PM.fpsHistory m) ->
    (0 <= PM.frameCount m)%Z -> (0 <= PM.fps m)%Z ->
    let m' := PM.updates times m in
    length (PM.fpsHistory m') = 60%nat /\
    (PM.fpsHistoryIndex m' < 60)%nat /\
    Forall (fun v => (0 <= v)%Z) (PM.fpsHistory m') /\
    (0 <= PM.fps m')%Z.
Proof.
  induction times as [| now rest IH]; intros m Hlen Hidx Hall Hfc Hfps.
  - cbn. repeat split; assumption.
  - cbn [PM.updates]. apply IH; unfold PM.update;
      destruct (Qgeb (now - PM.lastFpsUpdate m) 1000) eqn:E;
      cbn [fst PM.fpsHistory PM.fpsHistoryIndex PM.frameCount PM.fps];
      try assumption; try lia.
    + rewrite assign_length. exact Hlen.
    + rewrite Hlen. apply Nat.mod_upper_bound. lia.
    + apply assign_nonneg; [| exact Hall].
      apply Qgeb_ge in E. apply sampled_fps_nonneg; [lia | exact E].
    + apply Qgeb_ge in E. apply sampled_fps_nonneg; [lia | exact E].
Qed.

(** X28.  Whatever the times of the [update] calls, the frame-rate
    history keeps its sixty entries, the write index stays below sixty
    and no entry or frame rate is negative.  As the history starts
    filled with sixty, [isLowPerformance] cannot answer [true] before
    more than thirty samples have been taken, however slow the frames
    are: it answers [false] after any thirty calls or fewer. *)
Theorem low_performance_needs_thirty_samples (now0 : Q) (times : list Q)
    (t : PO.Thresholds) :
  PO.lowFPS t <= 30 ->
  let m := PM.updates times (PM.constructor now0) in
  length (PM.fpsHistory m) = 60%nat /\
  (PM.fpsHistoryIndex m < 60)%nat /\
  Forall (fun v => (0 <= v)%Z) (PM.fpsHistory m) /\
  (0 <= PM.fps m)%Z /\
  ((length times <= 30)%nat -> PM.isLowPerformance t m = false).
Proof.
  intros Hlow m.
  assert (Hall0 : Forall (fun v => (0 <= v)%Z) (PM.fpsHistory (PM.constructor now0))).
  { cbn [PM.fpsHistory PM.constructor]. apply Forall_forall. intros v Hv.
    apply repeat_spec in Hv. lia. }
  assert (Hfc0 : (0 <= PM.frameCount (PM.constructor now0))%Z) by (cbn; lia).
  assert (Hfps0 : (0 <= PM.fps (PM.constructor now0))%Z) by (cbn; lia).
  assert (Hidx0 : (PM.fpsHistoryIndex (PM.constructor now0) < 60)%nat) by (cbn; lia).
  assert (Hlen0 : length (PM.fpsHistory (PM.constructor now0)) = 60%nat)
    by (apply repeat_length).
  destruct (updates_keep_shape times (PM.constructor now0) Hlen0 Hidx0 Hall0 Hfc0 Hfps0)
    as (H1 & H2 & H3 & H4).
  fold m in H1, H2, H3, H4.
  split; [exact H1 |]. split; [exact H2 |]. split; [exact H3 |]. split; [exact H4 |].
  intros Hshort.
  assert (Hfew : (length (@nil Z) + length times < 60)%nat) by (cbn [length]; lia).
  destruct (updates_fill_in_order times (PM.constructor now0) [] eq_refl eq_refl Hfew
              (Forall_nil _) Hfc0 Hfps0)
    as (written & Hh & Hlen & Hall).
  fold m in Hh. cbn [length] in Hlen.
  unfold PM.isLowPerformance. apply Qltb_ge.
  unfold PM.getAverageFps. rewrite H1.
  assert (Hsum : (1800 <= fold_left Z.add (PM.fpsHistory m) 0)%Z).
  { rewrite Hh, sum_app, sum_repeat.
    pose proof (sum_nonneg written Hall) as Hn. lia. }
  apply Qle_trans with 30; [exact Hlow |].
  apply Qle_shift_div_l; [reflexivity |].
  change (30 * inject_Z (Z.of_nat 60)) with (inject_Z 1800).
  rewrite <- Zle_Qle. exact Hsum.
Qed.

Lemma low_performance_needs_thirty_samples_witness :
  PM.isLowPerformance PO.PERFORMANCE_THRESHOLDS
    (PM.updates [5000; 10000; 15000] (PM.constructor 0)) = false.
Proof.
  destruct (low_performance_needs_thirty_samples 0 [5000; 10000; 15000]
              PO.PERFORMANCE_THRESHOLDS)
    as (_ & _ & _ & _ & H).
  - unfold Qle; cbn; lia.
  - apply H. cbn. lia.
Defined.

Example low_performance_after_thirty_one_samples :
  PM.isLowPerformance PO.PERFORMANCE_THRESHOLDS
    (PM.updates (List.map (fun i => inject_Z (Z.of_nat i) * 1000000) (seq 1 31))
       (PM.constructor 0))
  = true.
Proof. vm_compute. reflexivity. Qed.

(** ** Quality adaptation of the visualisation *)

Lemma preset_multiplier_bounds (q : LV.quality) :
  0 <= LV.preset_multiplier q /\ LV.preset_multiplier q <= 1 /\
  (q = LV.high -> LV.preset_multiplier q == 1).
Proof.
  destruct q; cbn; repeat split; try lra; try discriminate; intros; lra.
Qed.

Lemma apply_to_system_keeps (q : LV.quality) (v : LV.Visual) :
  let s := LV.system v in
  let s' := LV.system (LV.apply_to_system q v) in
  let target := Qfloor (LV.preset_multiplier q
                        * inject_Z (Z.of_nat (length (PS.particles s)))) in
  PS.particles s'
  = (if PS.active s then firstn (Z.to_nat target) (PS.particles s) else PS.particles s) /\
  s' = PS.set_particles (PS.particles s') s /\
  (0 <= target <= Z.of_nat (length (PS.particles s)))%Z /\
  (q = LV.high -> s' = s).
Proof.
  cbn zeta. unfold LV.apply_to_system.
  set (len := length (PS.particles (LV.system v))).
  set (target := Qfloor (LV.preset_multiplier q * inject_Z (Z.of_nat len))).
  destruct (preset_multiplier_bounds q) as (Hm0 & Hm1 & Hhigh).
  assert (Hlen : 0 <= inject_Z (Z.of_nat len)).
  { change 0 with (inject_Z 0). rewrite <- Zle_Qle. lia. }
  assert (Htarget : (0 <= target <= Z.of_nat len)%Z).
  { subst target. split.
    - change 0%Z with (Qfloor 0). apply Qfloor_resp_le. nra.
    - rewrite <- (Qfloor_Z (Z.of_nat len)) at 2. apply Qfloor_resp_le. nra. }
  assert (Hhigh' : q = LV.high -> target = Z.of_nat len).
  { intros Hq. subst target. rewrite <- (Qfloor_Z (Z.of_nat len)) at 2.
    apply Qfloor_comp. rewrite (Hhigh Hq). ring. }
  destruct (PS.active (LV.system v)) eqn:Hact; cbn [negb LV.system].
  - destruct (target <? Z.of_nat len)%Z eqn:E.
    + apply Z.ltb_lt in E.
      split; [reflexivity |]. split; [reflexivity |]. split; [exact Htarget |].
      intros Hq. specialize (Hhigh' Hq). lia.
    + apply Z.ltb_ge in E.
      split; [symmetry; apply firstn_all2; fold len; lia |].
      split; [destruct (LV.system v); reflexivity |].
      split; [exact Htarget | reflexivity].
  - split; [reflexivity |]. split; [destruct (LV.system v); reflexivity |].
    split; [exact Htarget | reflexivity].
Qed.

(** X29.  [adaptQualityBasedOnPerformance] moves the quality by at
    most one level and, when the level stays, changes nothing.  When
    the level changes, every particle system keeps a leading part of
    its particles and nothing else of it changes: an active system is
    cut to the whole part of multiplier times its count, an inactive
    one is skipped, and a return to ['high'] gives no particle back. *)
Theorem adaptQuality_only_removes (fps memoryUsage : Q) (st : LV.State) :
  let st' := LV.adaptQualityBasedOnPerformance fps memoryUsage st in
  (Z.abs (LV.rank (LV.currentQuality st') - LV.rank (LV.currentQuality st)) <= 1)%Z /\
  (LV.currentQuality st' = LV.currentQuality st -> st' = st) /\
  (LV.currentQuality st' <> LV.currentQuality st ->
   LV.qualityLevel (LV.manager st') = LV.name (LV.currentQuality st')) /\
  Forall2
    (fun v v' =>
       let s := LV.system v in
       let s' := LV.system v' in
       s' = PS.set_particles (PS.particles s') s /\
       (exists k : nat, PS.particles s' = firstn k (PS.particles s)) /\
       (LV.currentQuality st' = LV.high -> s' = s))
    (LV.particleSystems st) (LV.particleSystems st').
Proof.
  cbn zeta. unfold LV.adaptQualityBasedOnPerformance.
  set (chosen := LV.newQuality fps (memoryUsage / (1024 * 1024)) (LV.currentQuality st)).
  assert (Hrank : (Z.abs (LV.rank chosen - LV.rank (LV.currentQuality st)) <= 1)%Z).
  { subst chosen. unfold LV.newQuality.
    destruct (Qltb fps 25 || Qgtb _ 150); [destruct (LV.currentQuality st); cbn; lia |].
    destruct (Qgtb fps 55 && Qltb _ 100); destruct (LV.currentQuality st); cbn; lia. }
  destruct (LV.quality_eqb chosen (LV.currentQuality st)) eqn:E.
  - split; [lia |]. split; [reflexivity |]. split; [congruence |].
    induction (LV.particleSystems st) as [| v rest IH]; constructor; [| exact IH].
    cbn zeta. split; [destruct (LV.system v); reflexivity |].
    split; [exists (length (PS.particles (LV.system v))); symmetry; apply firstn_all |].
    reflexivity.
  - cbn [LV.currentQuality LV.applyQualitySettings LV.particleSystems LV.manager
         LV.qualityLevel LV.manager_setQualityLevel].
    split; [exact Hrank |]. split.
    { intros Heq. rewrite Heq in E. destruct (LV.currentQuality st); discriminate E. }
    split; [reflexivity |].
    induction (LV.particleSystems st) as [| v rest IH]; cbn [List.map]; constructor;
      [| exact IH].
    destruct (apply_to_system_keeps chosen v) as (Hps & Hs & _ & Hhigh).
    cbn zeta in *. split; [exact Hs |]. split; [| exact Hhigh].
    rewrite Hps. destruct (PS.active (LV.system v)).
    + eexists. reflexivity.
    + exists (length (PS.particles (LV.system v))). symmetry. apply firstn_all.
Qed.

Section Refill.

Variable M : MathObject.
Variable SM : P.StateManager_binding.
Hypothesis draws_in_unit_interval : unit_interval M.

Lemma update_refills (delta : Q) (w : PS.World) (s : PS.System) :
  PS.particlePool w = None ->
  SystemCalls.standing s ->
  exists (s' : PS.System) (w' : PS.World),
    PS.update M SM delta w s = (s', w', Normal tt) /\
    PS.particlePool w' = None /\
    SystemCalls.standing s' /\
    PS.particleLimit s' = PS.particleLimit s /\
    Z.of_nat (length (PS.particles s'))
    = Z.min (PS.particleLimit s) (Z.of_nat (length (PS.particles s)) + 10).
Proof.
  intros Hw (Hact & Hfresh & Hpos & Hlen). unfold PS.update. rewrite Hact. cbn [negb].
  rewrite (filter_alive_standstill SM delta (PS.particles s) Hfresh Hpos).
  cbn [PS.particleLimit PS.set_particles].
  destruct (Z.of_nat (length (PS.particles s)) <? PS.particleLimit s)%Z eqn:E.
  - apply Z.ltb_lt in E. unfold PS.generateParticles.
    cbn [PS.particleLimit PS.set_particles].
    set (count := Z.to_nat (Z.min 10 (PS.particleLimit s
                                      - Z.of_nat (length (PS.particles s))))).
    destruct (generate_without_pool M count w (PS.set_particles (PS.particles s) s) Hw)
      as (s2 & w2 & Hg & Hw2 & Hs2 & made & Hps & Hcount & Hmade & Hmadepos).
    rewrite Hg. cbn [PS.particles PS.set_particles] in Hps.
    exists (PS.set_frameCount (PS.frameCount s2 + 1) s2), w2.
    split; [reflexivity |]. split; [exact Hw2 |].
    assert (Hlim : PS.particleLimit s2 = PS.particleLimit s) by (rewrite Hs2; reflexivity).
    assert (Hact2 : PS.active s2 = true) by (rewrite Hs2; exact Hact).
    assert (Hl2 : length (PS.particles s2) = (length (PS.particles s) + count)%nat)
      by (rewrite Hps, length_app, Hcount; reflexivity).
    unfold SystemCalls.standing.
    cbn [PS.particles PS.particleLimit PS.active PS.set_frameCount].
    split.
    { split; [exact Hact2 |].
      split; [rewrite Hps; apply Forall_app; split; assumption |].
      split; [rewrite Hps; apply Forall_app; split;
              [exact Hpos | exact (Hmadepos draws_in_unit_interval)] |].
      rewrite Hl2, Hlim. subst count. lia. }
    split; [exact Hlim |]. rewrite Hl2. subst count. lia.
  - apply Z.ltb_ge in E.
    exists (PS.set_frameCount
              (PS.frameCount (PS.set_particles (PS.particles s) s) + 1)
              (PS.set_particles (PS.particles s) s)), w.
    split; [reflexivity |]. split; [exact Hw |].
    unfold SystemCalls.standing.
    cbn [PS.particles PS.particleLimit PS.active PS.set_frameCount PS.set_particles].
    split; [repeat split; assumption |]. split; [reflexivity | lia].
Qed.

Lemma updates_refill (deltas : list Q) :
  forall (w : PS.World) (s : PS.System),
    PS.particlePool w = None ->
    SystemCalls.standing s ->
    exists (s' : PS.System) (w' : PS.World),
      SystemCalls.updates M SM deltas w s = (s', w', Normal tt) /\
      PS.particleLimit s' = PS.particleLimit s /\
      Z.of_nat (length (PS.particles s'))
      = Z.min (PS.particleLimit s)
              (Z.of_nat (length (PS.particles s)) + 10 * Z.of_nat (length deltas)).
Proof.
  induction deltas as [| delta rest IH]; intros w s Hw Hst.
  - exists s, w. cbn [SystemCalls.updates length]. split; [reflexivity |].
    split; [reflexivity |]. destruct Hst as (_ & _ & _ & Hlen). lia.
  - destruct (update_refills delta w s Hw Hst) as (s1 & w1 & Hu & Hw1 & Hst1 & Hlim1 & Hlen1).
    destruct (IH w1 s1 Hw1 Hst1) as (s' & w' & Hus & Hlim & Hlen).
    exists s', w'. cbn [SystemCalls.updates]. rewrite Hu.
    split; [exact Hus |]. split; [congruence |].
    rewrite Hlen, Hlim1, Hlen1. cbn [length]. lia.
Qed.

End Refill.

Lemma Forall_prefix {A : Type} (Q0 : A -> Prop) (k : nat) (l : list A) :
  Forall Q0 l -> Forall Q0 (firstn k l).
Proof.
  revert k. induction l as [| a rest IH]; intros k H.
  - destruct k; constructor.
  - inversion H; subst. destruct k; cbn [firstn]; constructor; auto.
Qed.

(** X30.  The cut that a lower quality makes does not last.  Without
    a pool, an active system of constructor-made particles that
    [applyQualitySettings] has cut down is filled up again by its own
    [update]: every frame adds ten particles until the limit of the
    system is reached, whatever the quality level is. *)
Theorem reduction_is_refilled (M : MathObject) (SM : P.StateManager_binding)
    (q : LV.quality) (v : LV.Visual) (w : PS.World) (deltas : list Q) :
  unit_interval M ->
  PS.particlePool w = None ->
  PS.active (LV.system v) = true ->
  Forall SystemCalls.as_constructed (PS.particles (LV.system v)) ->
  Forall (fun p => 0 < P.lifespan p) (PS.particles (LV.system v)) ->
  (Z.of_nat (length (PS.particles (LV.system v))) <= PS.particleLimit (LV.system v))%Z ->
  let reduced := LV.system (LV.apply_to_system q v) in
  exists (s' : PS.System) (w' : PS.World),
    SystemCalls.updates M SM deltas w reduced = (s', w', Normal tt) /\
    PS.particleLimit s' = PS.particleLimit (LV.system v) /\
    Z.of_nat (length (PS.particles s'))
    = Z.min (PS.particleLimit (LV.system v))
            (Z.of_nat (length (PS.particles reduced)) + 10 * Z.of_nat (length deltas)).
Proof.
  intros HM Hw Hact Hfresh Hpos Hlen reduced.
  destruct (apply_to_system_keeps q v) as (Hps & Hs & Htarget & _).
  cbn zeta in Hps, Hs, Htarget. fold reduced in Hps, Hs.
  rewrite Hact in Hps.
  assert (Hlim : PS.particleLimit reduced = PS.particleLimit (LV.system v))
    by (rewrite Hs; reflexivity).
  assert (Hst : SystemCalls.standing reduced).
  { split; [rewrite Hs; exact Hact |].
    split; [rewrite Hps; apply Forall_prefix; exact Hfresh |].
    split; [rewrite Hps; apply Forall_prefix; exact Hpos |].
    rewrite Hlim, Hps, length_firstn. lia. }
  destruct (updates_refill M SM HM deltas w reduced Hw Hst) as (s' & w' & Hu & Hl & Hn).
  exists s', w'. split; [exact Hu |]. split; [congruence |].
  rewrite Hn, Hlim. reflexivity.
Qed.

Lemma reduction_is_refilled_witness :
  exists (s' : PS.System) (w' : PS.World),
    SystemCalls.updates Scenarios.Math0 P.Undeclared [16; 16] Scenarios.world_without_pool
      (LV.system (LV.apply_to_system LV.low Visuals.calm))
    = (s', w', Normal tt) /\
    PS.particleLimit s' = 1000%Z /\
    Z.of_nat (length (PS.particles s')) = 20%Z.
Proof.
  assert (HM : unit_interval Scenarios.Math0).
  { intros n. cbn. split; [unfold Qle; cbn; lia | unfold Qlt; cbn; lia]. }
  assert (Hfresh : Forall SystemCalls.as_constructed
                     (PS.particles (LV.system Visuals.calm))).
  { repeat constructor. }
  assert (Hpos : Forall (fun p => 0 < P.lifespan p)
                   (PS.particles (LV.system Visuals.calm))).
  { repeat constructor. }
  assert (Hlen : (Z.of_nat (length (PS.particles (LV.system Visuals.calm)))
                  <= PS.particleLimit (LV.system Visuals.calm))%Z).
  { vm_compute. discriminate. }
  exact (reduction_is_refilled Scenarios.Math0 P.Undeclared LV.low Visuals.calm
           Scenarios.world_without_pool [16; 16] HM eq_refl eq_refl Hfresh Hpos Hlen).
Defined.

Lemma acquire_never_creates_witness :
  exists (q : P.Particle) (rest : list P.Particle),
    Pool.pool Scenarios.pool_with_one = push rest q /\
    Pool.pool (fst (fst (Pool.acquire Scenarios.Math0 (Some Scenarios.flat_map)
                           (Some (74.55, 34.35)) (Some "Freshwater Lake") 0
                           Scenarios.pool_with_one)))
    = rest.
Proof.
  destruct (acquire_never_creates Scenarios.Math0 (Some Scenarios.flat_map)
              (Some (74.55, 34.35)) (Some "Freshwater Lake") 0 Scenarios.pool_with_one)
    as [H _].
  destruct (H _ eq_refl) as (q & rest & H1 & H2 & _).
  exists q, rest. split; [exact H1 | exact H2].
Defined.

